(** * fabric-telemetry: a shallow embedding of the poll-cache-serve pipeline

    The development follows the repository's layout:
    - [Py]            the Python built-ins the code relies on (str/int
                      conversion, insertion-ordered dict, exceptions);
    - [Csv]           the [csv] module's writer and reader for the default
                      (excel) dialect, as the reader automaton of CPython;
    - [simulator]     src/data_server/simulator.py;
    - [data_app]      src/data_server/app.py ([_to_csv], [counters]);
    - [store], [poller], [stats]   src/metrics_server/*.py;
    - [config], [producer], [metrics_app], [pacing]   the settings, the
                      producer's refresh loop, the query handlers with
                      their JSON rendering, and the sleep of the poller.

    Bounds of the model.  Text is ASCII.  [Py.int_of_str] has no limit on
    the number of digits ([config.int_text] has it); the csv reader has no
    limit on the size of a field; [time.sleep] in [counters] is taken to
    return, and so is the sleep of the poller in [poller._run], which
    [pacing.loop] models.

    Numbers.  The simulator's floats are modelled as exact rationals [Q]
    (max, min, comparison, product and [round(x, 2)] are then exact); the
    cells of the wire format are kept abstract in the codec: a type [V] with
    the runtime's [str] and [float] conversions.  Randomness is an oracle
    whose state is threaded through the generator. *)

From Stdlib Require Import List String Ascii Bool ZArith QArith Qround Lia Lqa.
From Stdlib Require Import DecimalString DecimalZ DecimalPos Decimal.
From Stdlib Require Import Sorting.Mergesort Sorting.Sorted Sorting.Permutation.
From Stdlib Require Import Orders.
Import ListNotations.

#[local] Open Scope string_scope.
#[local] Open Scope Z_scope.

(* ------------------------------------------------------------------ *)
(** ** Python built-ins *)

Module Py.

(** Exceptions the modelled code can meet.  [CancelledError] derives from
    [BaseException] only, every other one from [Exception]; this is what
    [except Exception] looks at. *)
Inductive exn : Type :=
  | ValueError (msg : string)
  | StopIteration
  | KeyError (key : string)
  | CsvError (msg : string)
  | TransportError (msg : string)
  | OverflowError (msg : string)
  | CancelledError.

Definition is_Exception (e : exn) : bool :=
  match e with
  | CancelledError => false
  | _ => true
  end.

(** A call either returns or raises. *)
Inductive result (A : Type) : Type :=
  | Ok (a : A)
  | Raise (e : exn).
Arguments Ok {A} a.
Arguments Raise {A} e.

Definition bind {A B} (r : result A) (k : A -> result B) : result B :=
  match r with
  | Ok a => k a
  | Raise e => Raise e
  end.

Notation "x <- r ;; k" := (bind r (fun x => k))
  (at level 61, r at next level, right associativity).

(** *** Strings *)

Definition is_space (c : ascii) : bool :=
  let n := nat_of_ascii c in
  ((9 <=? n) && (n <=? 13) || (n =? 32))%nat.

Definition is_digit (c : ascii) : bool :=
  let n := nat_of_ascii c in ((48 <=? n) && (n <=? 57))%nat.

Fixpoint lstrip (s : string) : string :=
  match s with
  | String c s' => if is_space c then lstrip s' else s
  | EmptyString => EmptyString
  end.

Fixpoint rstrip (s : string) : string :=
  match s with
  | String c s' =>
      match rstrip s' with
      | EmptyString => if is_space c then EmptyString else String c EmptyString
      | r => String c r
      end
  | EmptyString => EmptyString
  end.

(** [s.strip()] *)
Definition strip (s : string) : string := rstrip (lstrip s).

Definition lower_char (c : ascii) : ascii :=
  let n := nat_of_ascii c in
  if ((65 <=? n) && (n <=? 90))%nat then ascii_of_nat (n + 32) else c.

(** [s.lower()] on ASCII text *)
Fixpoint lower (s : string) : string :=
  match s with
  | String c s' => String (lower_char c) (lower s')
  | EmptyString => EmptyString
  end.

(** [sep.join(l)] *)
Fixpoint join (sep : string) (l : list string) : string :=
  match l with
  | [] => EmptyString
  | [x] => x
  | x :: l' => x ++ sep ++ join sep l'
  end.

(** *** [str(i)] and [int(s)] on integers *)

(** [str(i)]: decimal digits, a leading [-] for negative numbers. *)
Definition str_int (z : Z) : string := NilZero.string_of_int (Z.to_int z).

(** Underscores are allowed by [int] only between two digits; [drop_us]
    removes them and fails on a misplaced one. *)
Fixpoint drop_us (prev_digit : bool) (s : string) : option string :=
  match s with
  | EmptyString => Some EmptyString
  | String c s' =>
      if Ascii.eqb c "_" then
        match s' with
        | String c' _ =>
            if prev_digit && is_digit c' then drop_us false s' else None
        | EmptyString => None
        end
      else option_map (String c) (drop_us (is_digit c) s')
  end.

Definition digits_value (s : string) : option Z :=
  match drop_us false s with
  | Some t => option_map Z.of_uint (NilZero.uint_of_string t)
  | None => None
  end.

(** [int(s)] for a string of ASCII characters: surrounding white space is
    dropped, then an optional sign and a non-empty run of decimal digits.
    [None] stands for [ValueError].  Two things of [int] are not in this
    function: the digits and white space outside ASCII that it accepts as
    well, and the limit on the number of digits ([int_max_str_digits],
    4300), which [config.int_text] adds where settings are read. *)
Definition int_of_str (s : string) : option Z :=
  match strip s with
  | String c r =>
      if Ascii.eqb c "-" then option_map Z.opp (digits_value r)
      else if Ascii.eqb c "+" then digits_value r
      else digits_value (String c r)
  | EmptyString => None
  end.

(** *** Insertion-ordered dictionaries

    A Python [dict] keeps its keys in insertion order and [d[k] = v] on a key
    that is present overwrites the value in place.  [_to_csv] writes the rows
    in [rows.items()] order, so the order is kept here. *)

Definition dict (V : Type) : Type := list (string * V).

Fixpoint dict_get {V} (d : dict V) (k : string) : option V :=
  match d with
  | [] => None
  | (k', v) :: d' => if String.eqb k' k then Some v else dict_get d' k
  end.

Fixpoint dict_set {V} (d : dict V) (k : string) (v : V) : dict V :=
  match d with
  | [] => [(k, v)]
  | (k', v') :: d' =>
      if String.eqb k' k then (k', v) :: d' else (k', v') :: dict_set d' k v
  end.

Definition dict_keys {V} (d : dict V) : list string := map fst d.

(** A list of pairs is a dictionary when no key occurs twice. *)
Definition dict_wf {V} (d : dict V) : Prop := NoDup (dict_keys d).

(** [enumerate(l)] *)
Definition enumerate {A} (l : list A) : list (nat * A) :=
  combine (seq 0 (List.length l)) l.

End Py.
Import Py.


(* ------------------------------------------------------------------ *)
(** ** The [csv] module, default dialect

    [csv.writer] and [csv.reader] are used with their defaults: delimiter
    [,], quote character, doubled quotes, minimal quoting, no escape
    character, not strict, line terminator CR LF.  The reader is CPython's
    automaton ([parse_process_char]); the states that only an escape
    character reaches are left out.  The limit on the size of one field is
    not modelled. *)

Module Csv.

Definition CR : ascii := ascii_of_nat 13.
Definition LF : ascii := ascii_of_nat 10.
Definition dquote : ascii := ascii_of_nat 34.
Definition comma : ascii := ascii_of_nat 44.

Definition is_nl (c : ascii) : bool := Ascii.eqb c LF || Ascii.eqb c CR.

(** *** Writer *)

(** A character that makes the writer quote the field: the delimiter, the
    quote character, or a character of the line terminator. *)
Definition special (c : ascii) : bool :=
  Ascii.eqb c comma || Ascii.eqb c dquote || is_nl c.

Fixpoint needs_quote (f : string) : bool :=
  match f with
  | String c f' => special c || needs_quote f'
  | EmptyString => false
  end.

Fixpoint double_quotes (f : string) : string :=
  match f with
  | String c f' =>
      if Ascii.eqb c dquote then String dquote (String dquote (double_quotes f'))
      else String c (double_quotes f')
  | EmptyString => EmptyString
  end.

Definition write_field (f : string) : string :=
  if needs_quote f
  then String dquote (double_quotes f ++ String dquote EmptyString)
  else f.

Definition lineterminator : string := String CR (String LF EmptyString).

(** [writer.writerow(row)] on a row of strings: the text it appends. A
    record that comes out empty although it has a field is written as an
    empty quoted field. *)
Definition writerow (row : list string) : string :=
  let rec := join (String comma EmptyString) (map write_field row) in
  let rec :=
    match row, rec with
    | _ :: _, EmptyString => String dquote (String dquote EmptyString)
    | _, _ => rec
    end in
  rec ++ lineterminator.

(** *** Reader

    The reader automaton of the default dialect.  The limit on the size of
    a field ([csv.field_size_limit()], 131072 characters), beyond which the
    reader raises [csv.Error], is not part of it. *)

Inductive pstate : Type :=
  | START_RECORD | START_FIELD | IN_FIELD
  | IN_QUOTED_FIELD | QUOTE_IN_QUOTED_FIELD | EAT_CRNL.

(** What [parse_process_char] is fed: a character of the line, or the end
    of the line. *)
Inductive input : Type :=
  | Ch (c : ascii)
  | EOL.

Record reader : Type := mkReader {
  state : pstate;
  field : string;          (* the field being read *)
  fields : list string     (* the fields of the record read so far *)
}.

Definition parse_reset : reader := mkReader START_RECORD EmptyString [].

Definition set_state (r : reader) (s : pstate) : reader :=
  mkReader s (field r) (fields r).

Definition parse_add_char (r : reader) (c : ascii) : reader :=
  mkReader (state r) (field r ++ String c EmptyString) (fields r).

Definition parse_save_field (r : reader) : reader :=
  mkReader (state r) EmptyString (fields r ++ [field r]).

Definition is_START_RECORD (s : pstate) : bool :=
  match s with START_RECORD => true | _ => false end.

Definition is_IN_QUOTED_FIELD (s : pstate) : bool :=
  match s with IN_QUOTED_FIELD => true | _ => false end.

(** The case [START_FIELD] of the automaton, which [START_RECORD] falls
    through to. *)
Definition start_field (r : reader) (i : input) : option reader :=
  match i with
  | EOL => Some (set_state (parse_save_field r) START_RECORD)
  | Ch c =>
      if is_nl c then Some (set_state (parse_save_field r) EAT_CRNL)
      else if Ascii.eqb c dquote then Some (set_state r IN_QUOTED_FIELD)
      else if Ascii.eqb c comma then Some (parse_save_field r)
      else Some (set_state (parse_add_char r c) IN_FIELD)
  end.

(** [None] is [csv.Error]. *)
Definition parse_process_char (r : reader) (i : input) : option reader :=
  match state r with
  | START_RECORD =>
      match i with
      | EOL => Some r
      | Ch c =>
          if is_nl c then Some (set_state r EAT_CRNL)
          else start_field (set_state r START_FIELD) i
      end
  | START_FIELD => start_field r i
  | IN_FIELD =>
      match i with
      | EOL => Some (set_state (parse_save_field r) START_RECORD)
      | Ch c =>
          if is_nl c then Some (set_state (parse_save_field r) EAT_CRNL)
          else if Ascii.eqb c comma
          then Some (set_state (parse_save_field r) START_FIELD)
          else Some (parse_add_char r c)
      end
  | IN_QUOTED_FIELD =>
      match i with
      | EOL => Some r
      | Ch c =>
          if Ascii.eqb c dquote then Some (set_state r QUOTE_IN_QUOTED_FIELD)
          else Some (parse_add_char r c)
      end
  | QUOTE_IN_QUOTED_FIELD =>
      match i with
      | EOL => Some (set_state (parse_save_field r) START_RECORD)
      | Ch c =>
          if Ascii.eqb c dquote
          then Some (set_state (parse_add_char r c) IN_QUOTED_FIELD)
          else if Ascii.eqb c comma
          then Some (set_state (parse_save_field r) START_FIELD)
          else if is_nl c then Some (set_state (parse_save_field r) EAT_CRNL)
          else Some (set_state (parse_add_char r c) IN_FIELD)
      end
  | EAT_CRNL =>
      match i with
      | EOL => Some (set_state r START_RECORD)
      | Ch c => if is_nl c then Some r else None
      end
  end.

(** How the iteration over the reader ends: the input is used up
    ([StopIteration]) or the automaton refused a character ([csv.Error]). *)
Inductive ending : Type :=
  | Exhausted
  | Failed.

(** At the end of the input [Reader_iternext] still returns the record it
    was reading when a field is open. *)
Definition at_end_of_input (r : reader) : list (list string) :=
  if negb (String.eqb (field r) EmptyString) || is_IN_QUOTED_FIELD (state r)
  then [fields (parse_save_field r)]
  else [].

(** The rows [csv.reader(io.StringIO(text))] yields, in order, and how the
    iteration ends.  [io.StringIO] hands the text over line by line, cut
    after every line feed; the reader is fed the characters of the line
    and then [EOL], and yields the record when that leaves it in
    [START_RECORD].  [midline] tells that the current line has characters
    already: a last line without line feed is still ended by [EOL]. *)
Fixpoint read_rows (r : reader) (midline : bool) (text : string)
  : list (list string) * ending :=
  match text with
  | EmptyString =>
      if midline then
        match parse_process_char r EOL with
        | None => ([], Failed)
        | Some r1 =>
            if is_START_RECORD (state r1) then ([fields r1], Exhausted)
            else (at_end_of_input r1, Exhausted)
        end
      else (at_end_of_input r, Exhausted)
  | String c text' =>
      match parse_process_char r (Ch c) with
      | None => ([], Failed)
      | Some r1 =>
          if Ascii.eqb c LF then
            match parse_process_char r1 EOL with
            | None => ([], Failed)
            | Some r2 =>
                if is_START_RECORD (state r2) then
                  let (rows, e) := read_rows parse_reset false text' in
                  (fields r2 :: rows, e)
                else read_rows r2 false text'
            end
          else read_rows r1 true text'
      end
  end.

Definition reader_rows (text : string) : list (list string) * ending :=
  read_rows parse_reset false text.

End Csv.

(* ------------------------------------------------------------------ *)
(** ** Runtime interfaces *)

(** The cells of the wire format: a type of float values with the
    runtime's [0.0], [str(x)] (what [csv.writer] writes for a float) and
    [float(s)] ([None] stands for [ValueError]). *)
Class Float (V : Type) : Type := {
  float_zero : V;
  float_str : V -> string;
  float_of_str : string -> option V
}.

(** The [random] module: each call returns a value and the next state of
    the generator. *)
Class Random (G : Type) : Type := {
  random : G -> Q * G;
  gauss : Q -> Q -> G -> Q * G;
  randint : Z -> Z -> G -> Z * G
}.

(** What the library promises about its results: [random()] lies in
    [[0, 1)] and [randint(a, b)] in [[a, b]]. *)
Definition random_contract (G : Type) `{Random G} : Prop :=
  (forall g, (0 <= fst (random g) /\ fst (random g) < 1)%Q) /\
  (forall a b g, a <= b -> a <= fst (randint a b g) <= b).

(** [math.exp] *)
Class MathLib : Type := { math_exp : Q -> Q }.

(* ------------------------------------------------------------------ *)
(** ** src/data_server/simulator.py *)

Module simulator.

Definition MetricRow : Type := dict Q.

(** [(snapshot_id, ts_ms, fields, rows)] *)
Definition Snapshot (V : Type) : Type :=
  (Z * Z * list string * dict (dict V))%type.

(** [x < y] on numbers *)
Definition Qltb (x y : Q) : bool := negb (Qle_bool y x).

(** [max(a, b)] and [min(a, b)] of the language: the first argument unless
    the second is strictly better. *)
Definition py_max (a b : Q) : Q := if Qltb a b then b else a.
Definition py_min (a b : Q) : Q := if Qltb b a then b else a.

(** Rounding to the nearest integer, ties to even. *)
Definition round_half_even (x : Q) : Z :=
  let f := Qfloor x in
  let d := (x - inject_Z f)%Q in
  if Qltb d (1 # 2) then f
  else if Qltb (1 # 2) d then f + 1
  else if Z.even f then f else f + 1.

(** [round(x, 2)] *)
Definition round2 (x : Q) : Q :=
  (inject_Z (round_half_even (x * 100)) / 100)%Q.

(** [f"{i:03d}"]: at least three characters, zero-padded after the sign. *)
Definition zero_pad (width : nat) (s : string) : string :=
  string_of_list_ascii (repeat "0"%char (width - String.length s)) ++ s.

Definition fmt_03d (i : Z) : string :=
  if i <? 0 then String "-" (zero_pad 2 (str_int (- i)))
  else zero_pad 3 (str_int i).

Definition _fmt_id (i : Z) : string := "sw-" ++ fmt_03d i.

Definition _clip (x lo hi : Q) : Q := py_max lo (py_min hi x).

Definition fields : list string :=
  [ "bandwidth_gbps"; "latency_us"; "packet_errors"; "cpu_util_pct";
    "mem_util_pct"; "buffer_occupancy_pct"; "egress_drops_per_s";
    "temperature_c" ].

Section WithRandom.
Context {G : Type} `{Random G} `{MathLib}.

(** Code that draws random numbers: the generator state is threaded
    through; [None] means that a loop did not end within its fuel. *)
Definition M (A : Type) : Type := G -> option (A * G).

Definition ret {A} (a : A) : M A := fun g => Some (a, g).

Definition mbind {A B} (m : M A) (k : A -> M B) : M B :=
  fun g => match m g with
           | Some (a, g') => k a g'
           | None => None
           end.

Definition lift {A} (f : G -> A * G) : M A := fun g => Some (f g).

Definition out_of_fuel {A} : M A := fun _ => None.

#[local] Notation "x <~ m ;; k" := (mbind m (fun x => k))
  (at level 61, m at next level, right associativity).

(** [random.uniform(a, b)] is [a + (b - a) * random()]. *)
Definition uniform (a b : Q) : M Q :=
  u <~ lift random ;; ret (a + (b - a) * u)%Q.

(** The loop of [_poisson_small]: [while p > L: k += 1; p *= random()]. *)
Fixpoint poisson_loop (fuel : nat) (L : Q) (k : Z) (p : Q) : M Z :=
  if Qltb L p then
    match fuel with
    | O => out_of_fuel
    | S fuel' =>
        u <~ lift random ;; poisson_loop fuel' L (k + 1) (p * u)%Q
    end
  else ret (Z.max 0 (k - 1)).

Definition _poisson_small (fuel : nat) (lam : Q) : M Z :=
  poisson_loop fuel (math_exp (- lam)%Q) 0 1%Q.

(** The body of the loop over the switches: the eight metrics of one row. *)
Definition generate_row (fuel : nat) : M MetricRow :=
  (* 1) Bandwidth *)
  g1 <~ lift (gauss 120 15) ;;
  let bw := py_max 0 g1 in
  (* 2) Latency with occasional spikes *)
  u2 <~ lift random ;;
  lat <~ (if Qltb u2 0.03 then uniform 50 150
          else g2 <~ lift (gauss 10 2) ;; ret (py_max 1 g2)) ;;
  (* 3) Packet errors *)
  u3 <~ lift random ;;
  pkt_errs <~ (if Qltb u3 0.01 then lift (randint 5 30)
               else _poisson_small fuel 0.6) ;;
  (* 4) CPU utilization *)
  u4 <~ lift random ;;
  cpu <~ (if Qltb u4 0.05 then uniform 80 100
          else g4 <~ lift (gauss 35 10) ;; ret (_clip g4 0 100)) ;;
  (* 5) Memory utilization *)
  g5 <~ lift (gauss 60 15) ;;
  let mem := _clip g5 0 100 in
  (* 6) Buffer occupancy *)
  u6 <~ lift random ;;
  buf <~ (if Qltb u6 0.08 then uniform 70 100
          else g6 <~ lift (gauss 30 15) ;; ret (_clip g6 0 100)) ;;
  (* 7) Egress drops *)
  u7 <~ lift random ;;
  drops <~ (if Qltb u7 0.02 then uniform 100 1000
            else
              let lam := (1 + (buf / 100) * 0.5)%Q in
              k <~ _poisson_small fuel lam ;; ret (inject_Z k)) ;;
  (* 8) Temperature *)
  g8 <~ lift (gauss 45 3) ;;
  let temp := _clip (g8 + 0.06 * cpu)%Q 30 90 in
  ret [ ("bandwidth_gbps", round2 bw);
        ("latency_us", round2 lat);
        ("packet_errors", inject_Z pkt_errs);
        ("cpu_util_pct", round2 cpu);
        ("mem_util_pct", round2 mem);
        ("buffer_occupancy_pct", round2 buf);
        ("egress_drops_per_s", round2 drops);
        ("temperature_c", round2 temp) ].

(** [for i in range(n_switches): ... rows[_fmt_id(i)] = {...}], over the
    indices still to do. *)
Fixpoint generate_rows (fuel : nat) (indices : list Z) (rows : dict MetricRow)
  : M (dict MetricRow) :=
  match indices with
  | [] => ret rows
  | i :: indices' =>
      row <~ generate_row fuel ;;
      generate_rows fuel indices' (dict_set rows (_fmt_id i) row)
  end.

(** [range(n)] *)
Definition range (n : Z) : list Z := map Z.of_nat (seq 0 (Z.to_nat n)).

(** [now_ms] is the reading of the clock, [int(time() * 1000)]. *)
Definition generate_snapshot (fuel : nat) (now_ms : Z)
    (n_switches prev_id : Z) : M (Snapshot Q) :=
  let snapshot_id := prev_id + 1 in
  let ts_ms := now_ms in
  rows <~ generate_rows fuel (range n_switches) [] ;;
  ret (snapshot_id, ts_ms, fields, rows).

End WithRandom.

End simulator.

(* ------------------------------------------------------------------ *)
(** ** HTTP messages, as far as the two services look at them *)

Module http.

(** Header fields in the order they were set: those the handler sets or
    the client reads, not the ones a framework adds on its own. *)
Definition Headers : Type := list (string * string).

Record Response : Type := mkResponse {
  status_code : Z;
  text : string;
  headers : Headers
}.

(** [headers.get(name, default)] of httpx: names are compared without
    regard to case, the values of a repeated field are joined. *)
Definition header_values (h : Headers) (name : string) : list string :=
  map snd (filter (fun kv => String.eqb (lower (fst kv)) (lower name)) h).

Definition get (h : Headers) (name default : string) : string :=
  match header_values h name with
  | [] => default
  | vs => join ", " vs
  end.

(** [headers.get(name)], [None] when the field is absent. *)
Definition get_opt (h : Headers) (name : string) : option string :=
  match header_values h name with
  | [] => None
  | vs => Some (join ", " vs)
  end.

End http.

(* ------------------------------------------------------------------ *)
(** ** src/data_server/app.py *)

Module data_app.
Import simulator http.

Section Serve.
Context {V : Type} `{Float V}.

(** [[vals[k] for k in fields]], each value as the writer prints it;
    a field the row lacks raises [KeyError]. *)
Fixpoint row_cells (vals : dict V) (fields : list string)
  : result (list string) :=
  match fields with
  | [] => Ok []
  | k :: fields' =>
      match dict_get vals k with
      | None => Raise (KeyError k)
      | Some v => cells <- row_cells vals fields' ;; Ok (float_str v :: cells)
      end
  end.

(** [for sw, vals in rows.items(): w.writerow([sw] + ...)] *)
Fixpoint write_rows (fields : list string) (rows : dict (dict V))
  : result string :=
  match rows with
  | [] => Ok EmptyString
  | (sw, vals) :: rows' =>
      cells <- row_cells vals fields ;;
      rest <- write_rows fields rows' ;;
      Ok (Csv.writerow (sw :: cells) ++ rest)
  end.

Definition _to_csv (s : Snapshot V) : result string :=
  let '(sid, ts_ms, fields, rows) := s in
  body <- write_rows fields rows ;;
  Ok (Csv.writerow ("switch_id" :: fields) ++ body).

(** The part of [counters] under the lock and the headers of the answer:
    [inm] is [request.headers.get("If-None-Match")]. *)
Definition conditional_read (snapshot : Snapshot V) (inm : option string)
  : result Response :=
  let '(sid, ts_ms, fields, rows) := snapshot in
  let etag := str_int sid in
  let resp_headers :=
    [ ("ETag", etag); ("X-Snapshot-Ts", str_int ts_ms);
      ("Cache-Control", "no-store") ] in
  let not_modified :=
    match inm with
    | None => false
    | Some t => negb (String.eqb t EmptyString) && String.eqb t etag
    end in
  if not_modified then Ok (mkResponse 304 EmptyString resp_headers)
  else
    csv_text <- _to_csv snapshot ;;
    Ok (mkResponse 200 csv_text resp_headers).

End Serve.

(** Configuration read by [counters] (src/data_server/config.py). *)
Record Config : Type := mkConfig {
  FAULT_500_PCT : Z;
  FAULT_SLOW_MS : Z
}.

(** The body of [jsonify({"error": "injected failure"})]: the compact
    JSON text and the line feed that [jsonify] appends. *)
Definition injected_failure_body : string :=
  let q := String Csv.dquote EmptyString in
  "{" ++ q ++ "error" ++ q ++ ":" ++ q ++ "injected failure" ++ q ++ "}"
  ++ String Csv.LF EmptyString.

Section Counters.
Context {V : Type} `{Float V} {G : Type} `{Random G}.

(** [counters]: the injected failure first, then the conditional read.
    The two calls of [time.sleep(FAULT_SLOW_MS / 1000.0)] are taken to
    return: they change no value (they raise [OverflowError] only for a
    delay of more than some 9e12 ms, which no bound of the settings
    excludes).  Of a response the header fields that the handler sets are
    kept; those the framework adds ([Content-Type], [Content-Length]) are
    not. *)
Definition counters (cfg : Config) (snapshot : Snapshot V)
    (inm : option string) (g : G) : result Response * G :=
  let inject :=
    if 0 <? FAULT_500_PCT cfg then
      let (d, g') := randint 1 100 g in (d <=? FAULT_500_PCT cfg, g')
    else (false, g) in
  let (fail, g1) := inject in
  if fail then
    (Ok (mkResponse 500 injected_failure_body []), g1)
  else
    let g2 :=
      if 0 <? FAULT_SLOW_MS cfg then snd (random g1) else g1 in
    (conditional_read snapshot inm, g2).

End Counters.

End data_app.

(* ------------------------------------------------------------------ *)
(** ** src/metrics_server/store.py *)

Module store.

Record SnapshotMeta : Type := mkMeta {
  snapshot_id : string;
  ts_ms : Z;
  fields : list string
}.

Record Snapshot (V : Type) : Type := mkSnapshot {
  meta : SnapshotMeta;
  data : dict (dict V)       (* switch_id -> metric -> value *)
}.
Arguments mkSnapshot {V} meta data.
Arguments meta {V} s.
Arguments data {V} s.

(** The single slot; the lock orders the accesses and holds no value. *)
Record SnapshotStore (V : Type) : Type := mkStore {
  _snap : option (Snapshot V)
}.
Arguments mkStore {V} _snap.
Arguments _snap {V} s.

Definition empty {V} : SnapshotStore V := mkStore None.

Definition set {V} (st : SnapshotStore V) (snap : Snapshot V)
  : SnapshotStore V := mkStore (Some snap).

Definition get {V} (st : SnapshotStore V) : option (Snapshot V) := _snap st.

(** [now_ms] is [int(time.time() * 1000)]. *)
Definition age_ms {V} (st : SnapshotStore V) (now_ms : Z) : option Z :=
  match get st with
  | None => None
  | Some s => Some (now_ms - ts_ms (meta s))
  end.

End store.

(* ------------------------------------------------------------------ *)
(** ** src/metrics_server/poller.py *)

Module poller.
Import store http.

Section WithFloat.
Context {V : Type} `{Float V}.

Record Poller : Type := mkPoller {
  upstream_url : string;
  poll_ms : Z;
  store : SnapshotStore V;
  _etag : option string;
  last_cycle_ms : option Z;
  fail_count : Z
}.

(** [Poller.__init__] *)
Definition init (url : string) (poll : Z) (st : SnapshotStore V) : Poller :=
  mkPoller url poll st None None 0.

(** One cell of a data row: [float(row[1 + idx])], or [0.0] when the cell
    is missing ([IndexError]) or is no number ([ValueError]). *)
Definition cell_value (row : list string) (idx : nat) : V :=
  match nth_error row (1 + idx) with
  | None => float_zero
  | Some cell =>
      match float_of_str cell with
      | None => float_zero
      | Some v => v
      end
  end.

(** [for idx, name in enumerate(fields): vals[name] = ...] *)
Definition row_values (fields : list string) (row : list string) : dict V :=
  fold_left (fun vals '(idx, name) => dict_set vals name (cell_value row idx))
            (enumerate fields) [].

(** [for row in reader: ... data[sw] = vals], blank rows skipped. *)
Definition add_row (fields : list string) (data : dict (dict V))
    (row : list string) : dict (dict V) :=
  match row with
  | [] => data
  | sw :: _ => dict_set data sw (row_values fields row)
  end.

Definition _parse_csv (csv_text : string) (headers : Headers)
  : result (Snapshot V) :=
  match int_of_str (get headers "X-Snapshot-Ts" "0") with
  | None => Raise (ValueError "invalid literal for int()")
  | Some ts_ms =>
      let etag := get headers "ETag" EmptyString in
      let (rows, e) := Csv.reader_rows csv_text in
      match rows, e with
      | [], Csv.Exhausted => Raise StopIteration
      | [], Csv.Failed => Raise (CsvError "new-line character seen in unquoted field")
      | first :: rest, _ =>
          if match first with
             | [] => true
             | first0 :: _ => negb (String.eqb first0 "switch_id")
             end
          then Raise (ValueError "CSV header missing 'switch_id'")
          else
            let fields := tl first in
            let data := fold_left (add_row fields) rest [] in
            match e with
            | Csv.Failed =>
                Raise (CsvError "new-line character seen in unquoted field")
            | Csv.Exhausted =>
                let id := if String.eqb etag EmptyString then "0" else etag in
                Ok (mkSnapshot (mkMeta id ts_ms fields) data)
            end
      end
  end.

(** The durations a cycle measures with [time.time()]. *)
Record Timing : Type := mkTiming {
  t_fetch_ms : Z;
  t_parse_ms : Z;
  t_apply_ms : Z;
  t_cycle_ms : Z
}.

(** The fields of the [poll.run] log record. *)
Record PollLog : Type := mkPollLog {
  log_status : Z;
  log_fetch_ms : Z;
  log_parse_ms : Z;
  log_apply_ms : Z;
  log_cycle_ms : Z;
  log_retry : Z
}.

(** The request headers of a cycle: [If-None-Match] when a token is known
    and not empty. *)
Definition request_headers (p : Poller) : Headers :=
  match _etag p with
  | Some t => if String.eqb t EmptyString then [] else [("If-None-Match", t)]
  | None => []
  end.

Definition with_fail_count (p : Poller) (n : Z) : Poller :=
  mkPoller (upstream_url p) (poll_ms p) (store p) (_etag p)
           (last_cycle_ms p) n.

(** The [try] block of a cycle.  [fetch] is what [await client.get(...)]
    gave: a response, or the exception it raised.  The result is the
    poller, the local variables [status], [fetch_ms], [parse_ms],
    [apply_ms], and the exception that left the block, if any.  Nothing is
    assigned before a point that can raise, so the poller that reaches the
    handler is the one the cycle started with. *)
Definition try_block (p : Poller) (fetch : result Response) (tm : Timing)
  : Poller * (Z * Z * Z * Z) * option exn :=
  match fetch with
  | Raise e => (p, (0, 0, 0, 0), Some e)
  | Ok r =>
      let status := status_code r in
      let fetch_ms := t_fetch_ms tm in
      if status =? 304 then
        (* unchanged *)
        (p, (status, fetch_ms, 0, 0), None)
      else if status =? 200 then
        match _parse_csv (text r) (headers r) with
        | Raise e => (p, (status, fetch_ms, 0, 0), Some e)
        | Ok snap =>
            let p' := mkPoller (upstream_url p) (poll_ms p)
                               (set (store p) snap)
                               (get_opt (headers r) "ETag")
                               (last_cycle_ms p) 0 in
            (p', (status, fetch_ms, t_parse_ms tm, t_apply_ms tm), None)
        end
      else
        (with_fail_count p (fail_count p + 1), (status, fetch_ms, 0, 0), None)
  end.

(** One turn of the loop of [_run]: the [try] block, [except Exception],
    then [finally] up to the log record.  [Raise e] means that [e] leaves
    the loop.  The sleep that ends the [finally] clause is taken to return
    here; [pacing.turn] adds it. *)
Definition run_cycle (p : Poller) (fetch : result Response) (tm : Timing)
  : result (Poller * PollLog) :=
  let '(p1, (status, fetch_ms, parse_ms, apply_ms), raised) :=
    try_block p fetch tm in
  let (p2, escaping) :=
    match raised with
    | None => (p1, None)
    | Some e =>
        if is_Exception e
        then (with_fail_count p1 (fail_count p1 + 1), None)
        else (p1, Some e)
    end in
  let p3 := mkPoller (upstream_url p2) (poll_ms p2) (store p2) (_etag p2)
                     (Some (t_cycle_ms tm)) (fail_count p2) in
  let log := mkPollLog status fetch_ms parse_ms apply_ms (t_cycle_ms tm)
                       (fail_count p3) in
  match escaping with
  | None => Ok (p3, log)
  | Some e => Raise e
  end.

(** [_run] over the cycles that happen before the stop flag is seen, the
    sleeps between them taken to return ([pacing.loop] has them). *)
Fixpoint _run (p : Poller) (cycles : list (result Response * Timing))
  : result (Poller * list PollLog) :=
  match cycles with
  | [] => Ok (p, [])
  | (fetch, tm) :: cycles' =>
      step <- run_cycle p fetch tm ;;
      rest <- _run (fst step) cycles' ;;
      Ok (fst rest, snd step :: snd rest)
  end.

End WithFloat.
Arguments Poller V : clear implicits.

End poller.

(* ------------------------------------------------------------------ *)
(** ** src/metrics_server/stats.py *)

Module stats.

(** [sorted] on integers: the ascending rearrangement. *)
Module ZOrder <: TotalLeBool.
Definition t := Z.
Definition leb (x y : Z) : bool := x <=? y.
Infix "<=?" := leb (at level 70, no associativity).
Theorem leb_total : forall x y, leb x y = true \/ leb y x = true.
Proof. intros x y. unfold leb. lia. Qed.
End ZOrder.

Module ZSort := Sort ZOrder.

Definition sorted (l : list Z) : list Z := ZSort.sort l.

(** [deque(maxlen=maxlen).append(x)]: the oldest sample leaves when the
    window is full. *)
Definition deque_append (maxlen : nat) (dq : list Z) (x : Z) : list Z :=
  let dq' := (dq ++ [x])%list in
  if (maxlen <? List.length dq')%nat then tl dq' else dq'.

Record RollingStats : Type := mkStats {
  capacity : nat;
  map : dict (list Z)
}.

(** [RollingStats(capacity)] *)
Definition init (capacity : nat) : RollingStats := mkStats capacity [].

Definition add (rs : RollingStats) (key : string) (latency_ms : Z)
  : RollingStats :=
  let dq := match dict_get (map rs) key with
            | Some dq => dq
            | None => []
            end in
  mkStats (capacity rs)
          (dict_set (map rs) key (deque_append (capacity rs) dq latency_ms)).

Record Percentiles : Type := mkPercentiles {
  p50 : Q;
  p95 : Q;
  p99 : Q;
  max : Q;
  count : Z
}.

(** The inner function [pick] of [percentiles], for the sorted copy [arr]
    of length [n]. *)
Definition pick (arr : list Z) (n : Z) (p : Q) : Q :=
  if n =? 0 then 0%Q
  else
    let idx := Z.max 0 (Z.min (n - 1) (Qceiling (p * inject_Z n) - 1)) in
    inject_Z (nth (Z.to_nat idx) arr 0).

Definition percentiles (rs : RollingStats) (key : string) : Percentiles :=
  let dq := match dict_get (map rs) key with
            | Some dq => dq
            | None => []
            end in
  match dq with
  | [] => mkPercentiles 0 0 0 0 0
  | _ :: _ =>
      let arr := sorted dq in
      let n := Z.of_nat (List.length arr) in
      mkPercentiles (pick arr n 0.50) (pick arr n 0.95) (pick arr n 0.99)
                    (inject_Z (last arr 0)) n
  end.

End stats.

(* ================================================================== *)
(** * Properties *)

(** ** Built-ins *)

Example str_int_7 : str_int 7 = "7".
Proof. reflexivity. Qed.

Example str_int_neg : str_int (-120) = "-120".
Proof. reflexivity. Qed.

Example int_of_str_spaces_sign : int_of_str " +1_000 " = Some 1000.
Proof. reflexivity. Qed.

Example int_of_str_double_underscore : int_of_str "1__0" = None.
Proof. reflexivity. Qed.

Example int_of_str_empty : int_of_str EmptyString = None.
Proof. reflexivity. Qed.

Example int_of_str_letters : int_of_str "12a" = None.
Proof. reflexivity. Qed.

Fixpoint all_digits (s : string) : bool :=
  match s with
  | String c s' => is_digit c && all_digits s'
  | EmptyString => true
  end.

Lemma string_of_uint_digits d : all_digits (NilEmpty.string_of_uint d) = true.
Proof. induction d; simpl; auto. Qed.

Lemma is_digit_not_space c : is_digit c = true -> is_space c = false.
Proof.
  unfold is_digit, is_space. intros Hd.
  apply andb_true_iff in Hd as [H1 H2].
  apply Nat.leb_le in H1.
  destruct (nat_of_ascii c <=? 13)%nat eqn:E13.
  - apply Nat.leb_le in E13. lia.
  - rewrite andb_false_r. simpl. apply Nat.eqb_neq. lia.
Qed.

Lemma is_digit_not_underscore c : is_digit c = true -> Ascii.eqb c "_" = false.
Proof.
  intros Hd. destruct (Ascii.eqb_spec c "_") as [->|]; [discriminate|reflexivity].
Qed.

Lemma rstrip_digits s : all_digits s = true -> rstrip s = s.
Proof.
  induction s as [|c s IH]; simpl; [reflexivity|].
  intros Hd. apply andb_true_iff in Hd as [Hc Hs].
  rewrite (IH Hs). destruct s; [|reflexivity].
  now rewrite (is_digit_not_space _ Hc).
Qed.

Lemma strip_digits s : all_digits s = true -> strip s = s.
Proof.
  intros Hd. unfold strip.
  destruct s as [|c s]; [reflexivity|].
  simpl in Hd. apply andb_true_iff in Hd as [Hc Hs].
  simpl lstrip. rewrite (is_digit_not_space _ Hc).
  apply rstrip_digits. simpl. now rewrite Hc, Hs.
Qed.

Lemma drop_us_digits s b : all_digits s = true -> drop_us b s = Some s.
Proof.
  revert b. induction s as [|c s IH]; simpl; intros b Hd; [reflexivity|].
  apply andb_true_iff in Hd as [Hc Hs].
  rewrite (is_digit_not_underscore _ Hc), (IH _ Hs). reflexivity.
Qed.

Lemma digits_value_to_uint p :
  digits_value (NilEmpty.string_of_uint (Pos.to_uint p)) = Some (Z.pos p).
Proof.
  unfold digits_value.
  rewrite drop_us_digits by apply string_of_uint_digits.
  pose proof (Unsigned.to_uint_nonnil p) as Hnil.
  pose proof (NilZero.usu _ Hnil) as Hu.
  assert (Hs : NilZero.string_of_uint (Pos.to_uint p)
               = NilEmpty.string_of_uint (Pos.to_uint p)).
  { destruct (Pos.to_uint p); [contradiction|reflexivity..]. }
  rewrite Hs in Hu. rewrite Hu. simpl. f_equal.
  exact (DecimalZ.of_to (Z.pos p)).
Qed.

Lemma str_int_pos p :
  str_int (Z.pos p) = NilEmpty.string_of_uint (Pos.to_uint p).
Proof.
  unfold str_int. simpl.
  pose proof (Unsigned.to_uint_nonnil p).
  destruct (Pos.to_uint p); [contradiction|reflexivity..].
Qed.

Lemma str_int_neg_digits p :
  str_int (Z.neg p) = String "-" (NilEmpty.string_of_uint (Pos.to_uint p)).
Proof.
  unfold str_int. simpl.
  pose proof (Unsigned.to_uint_nonnil p).
  destruct (Pos.to_uint p); [contradiction|reflexivity..].
Qed.

Lemma digits_head s :
  all_digits s = true -> s <> EmptyString ->
  exists c r, s = String c r /\ is_digit c = true.
Proof.
  destruct s as [|c r]; [congruence|]. simpl. intros Hd _.
  apply andb_true_iff in Hd as [Hc _]. eauto.
Qed.

Lemma string_of_uint_nonempty d :
  d <> Nil -> NilEmpty.string_of_uint d <> EmptyString.
Proof. destruct d; simpl; congruence. Qed.

(** [int(str(z)) == z] *)
Lemma int_of_str_str_int z : int_of_str (str_int z) = Some z.
Proof.
  destruct z as [|p|p].
  - reflexivity.
  - rewrite str_int_pos.
    set (s := NilEmpty.string_of_uint (Pos.to_uint p)).
    assert (Hd : all_digits s = true) by apply string_of_uint_digits.
    destruct (digits_head s Hd) as (c & r & Hs & Hc).
    { apply string_of_uint_nonempty, Unsigned.to_uint_nonnil. }
    unfold int_of_str. rewrite (strip_digits _ Hd), Hs.
    destruct (Ascii.eqb_spec c "-") as [->|_]; [discriminate|].
    destruct (Ascii.eqb_spec c "+") as [->|_]; [discriminate|].
    rewrite <- Hs. apply digits_value_to_uint.
  - rewrite str_int_neg_digits.
    set (s := NilEmpty.string_of_uint (Pos.to_uint p)).
    assert (Hd : all_digits s = true) by apply string_of_uint_digits.
    unfold int_of_str, strip. simpl lstrip.
    assert (Hr : rstrip (String "-" s) = String "-" s).
    { simpl. rewrite (rstrip_digits _ Hd). now destruct s. }
    rewrite Hr. simpl.
    unfold s. now rewrite digits_value_to_uint.
Qed.

Lemma str_int_nonempty z : str_int z <> EmptyString.
Proof.
  destruct z as [|p|p].
  - discriminate.
  - rewrite str_int_pos. apply string_of_uint_nonempty, Unsigned.to_uint_nonnil.
  - rewrite str_int_neg_digits. discriminate.
Qed.

(** ** Dictionaries *)

Section DictFacts.
Context {V : Type}.
Implicit Types (d : dict V) (k : string) (v : V).

Lemma dict_get_set_eq d k v : dict_get (dict_set d k v) k = Some v.
Proof.
  induction d as [|[k' v'] d IH]; simpl.
  - now rewrite String.eqb_refl.
  - destruct (String.eqb k' k) eqn:E; simpl; rewrite E; auto.
Qed.

Lemma dict_get_set_neq d k k' v :
  k <> k' -> dict_get (dict_set d k v) k' = dict_get d k'.
Proof.
  intros Hne. induction d as [|[k0 v0] d IH]; simpl.
  - destruct (String.eqb_spec k k'); congruence.
  - destruct (String.eqb_spec k0 k) as [->|]; simpl.
    + destruct (String.eqb_spec k k'); congruence.
    + destruct (String.eqb_spec k0 k'); auto.
Qed.

Lemma dict_keys_set_in d k v k' :
  In k' (dict_keys (dict_set d k v)) <-> k' = k \/ In k' (dict_keys d).
Proof.
  induction d as [|[k0 v0] d IH]; simpl.
  - intuition.
  - destruct (String.eqb_spec k0 k) as [->|]; simpl.
    + intuition.
    + rewrite IH. intuition.
Qed.

Lemma dict_set_wf d k v : dict_wf d -> dict_wf (dict_set d k v).
Proof.
  unfold dict_wf. induction d as [|[k0 v0] d IH]; simpl; intros Hnd.
  - constructor; [intros []|constructor].
  - inversion Hnd as [|? ? Hnotin Hnd']; subst.
    destruct (String.eqb_spec k0 k) as [->|Hne]; simpl.
    + now constructor.
    + constructor; [|now apply IH].
      intros Hin. apply dict_keys_set_in in Hin as [->|Hin]; eauto.
Qed.

Lemma dict_get_in d k : In k (dict_keys d) <-> exists v, dict_get d k = Some v.
Proof.
  induction d as [|[k0 v0] d IH]; simpl.
  - split; [intros []|intros [? [=]]].
  - destruct (String.eqb_spec k0 k) as [->|Hne].
    + split; eauto.
    + rewrite <- IH. intuition.
Qed.

(** On a key that is new, [d[k] = v] appends. *)
Lemma dict_set_fresh d k v :
  ~ In k (dict_keys d) -> dict_set d k v = (d ++ [(k, v)])%list.
Proof.
  induction d as [|[k0 v0] d IH]; simpl; intros Hnotin; [reflexivity|].
  destruct (String.eqb_spec k0 k) as [->|Hne]; [intuition|].
  f_equal. apply IH. intuition.
Qed.

End DictFacts.

(** ** A concrete runtime to run the model on

    Cells that hold whole numbers only, written and read as integers; a
    scripted random source, which replays a tape of draws. *)

#[local] Instance whole_cells : Float Z := {
  float_zero := 0;
  float_str := str_int;
  float_of_str := int_of_str
}.

Lemma whole_cells_round_trip (x : Z) : float_of_str (float_str x) = Some x.
Proof. apply int_of_str_str_int. Qed.

(** ** The reconciliation cycle *)

Module cycle.
Import poller store http.

(** How the specification names the result of a cycle. [Aborted] is a
    cycle left by an exception that is no [Exception] (cancellation). *)
Inductive outcome : Type :=
  | Unchanged
  | Updated
  | Failed
  | Aborted.

Section Classify.
Context {V : Type} `{Float V}.

(** Following the specification's words: not modified is [Unchanged]; a
    payload that is fetched and parsed is [Updated]; a transport error, a
    status that is no success, or a parse error is [Failed]. *)
Definition classify (fetch : result Response) : outcome :=
  match fetch with
  | Raise e => if is_Exception e then Failed else Aborted
  | Ok r =>
      if status_code r =? 304 then Unchanged
      else if status_code r =? 200 then
        match _parse_csv (V := V) (text r) (headers r) with
        | Ok _ => Updated
        | Raise _ => Failed
        end
      else Failed
  end.

Lemma parse_error_is_Exception text h e :
  _parse_csv (V := V) text h = Raise e -> is_Exception e = true.
Proof.
  unfold _parse_csv.
  destruct (int_of_str _); [|now intros [= <-]].
  destruct (Csv.reader_rows text) as [rows en].
  destruct rows as [|first rest].
  - destruct en; now intros [= <-].
  - destruct (match first with [] => true | _ => _ end); [now intros [= <-]|].
    destruct en; [discriminate|now intros [= <-]].
Qed.

(** A failed cycle is caught, leaves store and token alone and counts
    once. *)
Lemma failed_cycle (p : Poller V) fetch tm :
  classify fetch = Failed ->
  exists p' log,
    run_cycle p fetch tm = Ok (p', log) /\
    poller.store p' = poller.store p /\
    _etag p' = _etag p /\
    fail_count p' = fail_count p + 1 /\
    log_retry log = fail_count p + 1.
Proof.
  unfold classify, run_cycle, try_block.
  destruct fetch as [r|e].
  - destruct (status_code r =? 304); [discriminate|].
    destruct (status_code r =? 200).
    + destruct (_parse_csv (text r) (headers r)) as [snap|e] eqn:Hp;
        [discriminate|].
      intros _. rewrite (parse_error_is_Exception _ _ _ Hp).
      eexists _, _. repeat split.
    + intros _. eexists _, _. repeat split.
  - destruct (is_Exception e); [|discriminate].
    intros _. eexists _, _. repeat split.
Qed.

(** An updated cycle installs the parsed snapshot and resets the counter. *)
Lemma updated_cycle (p : Poller V) fetch tm :
  classify fetch = Updated ->
  exists r snap p' log,
    fetch = Ok r /\
    _parse_csv (text r) (headers r) = Ok snap /\
    run_cycle p fetch tm = Ok (p', log) /\
    poller.store p' = mkStore (Some snap) /\
    _etag p' = get_opt (headers r) "ETag" /\
    fail_count p' = 0.
Proof.
  unfold classify, run_cycle, try_block.
  destruct fetch as [r|e].
  - destruct (status_code r =? 304); [discriminate|].
    destruct (status_code r =? 200); [|discriminate].
    destruct (_parse_csv (text r) (headers r)) as [snap|e] eqn:Hp;
      [|discriminate].
    intros _. eexists r, snap, _, _. repeat split. exact Hp.
  - destruct (is_Exception e); discriminate.
Qed.

(** What the code does on 304: nothing is assigned, the counter included;
    parse and apply times are logged as zero. *)
Lemma unchanged_cycle (p : Poller V) fetch tm :
  classify fetch = Unchanged ->
  exists p' log,
    run_cycle p fetch tm = Ok (p', log) /\
    poller.store p' = poller.store p /\
    _etag p' = _etag p /\
    fail_count p' = fail_count p /\
    log_parse_ms log = 0 /\ log_apply_ms log = 0.
Proof.
  unfold classify, run_cycle, try_block.
  destruct fetch as [r|e].
  - destruct (status_code r =? 304).
    + intros _. eexists _, _. repeat split.
    + destruct (status_code r =? 200); [|discriminate].
      destruct (_parse_csv (text r) (headers r)); discriminate.
  - destruct (is_Exception e); discriminate.
Qed.

End Classify.
End cycle.

(** *** Sample traffic *)

Definition sample_body : string :=
  Csv.writerow ["switch_id"; "cpu_util_pct"] ++ Csv.writerow ["sw-000"; "35"].

Definition sample_headers : http.Headers :=
  [ ("ETag", "7"); ("X-Snapshot-Ts", "1700000000000");
    ("Cache-Control", "no-store") ].

Definition ok_response : http.Response :=
  http.mkResponse 200 sample_body sample_headers.

Definition not_modified_response : http.Response :=
  http.mkResponse 304 EmptyString sample_headers.

Definition sample_timing : poller.Timing := poller.mkTiming 3 1 0 5.

Definition fresh_poller : poller.Poller Z :=
  poller.init "http://127.0.0.1:9001/counters" 1500 store.empty.

(** C1 (the code departs from the claim on a not-modified answer): a poller
    that fetched version 7, then met one transport error, then is answered
    304.  The failed cycle is caught and counted once, and the cycle that
    the specification classifies as Unchanged leaves the counter at 1: the
    304 branch of [_run] never assigns [fail_count], while the 200 branch
    resets it. *)
Theorem C1_unchanged_cycle_keeps_fail_count :
  cycle.classify (V := Z) (Ok not_modified_response) = cycle.Unchanged /\
  match poller._run fresh_poller
          [ (Ok ok_response, sample_timing);
            (Raise (TransportError "connection refused"), sample_timing);
            (Ok not_modified_response, sample_timing) ] with
  | Ok (p, logs) =>
      poller.fail_count p = 1 /\
      map poller.log_status logs = [200; 0; 304] /\
      map poller.log_retry logs = [0; 1; 1]
  | Raise _ => False
  end.
Proof. vm_compute. repeat split. Qed.

(** ** The conditional read of the producer *)

Section ConditionalRead.
Context {V : Type} `{Float V}.
Import simulator data_app http.

(** Every row holds a value for every field (the invariant of the data
    model). *)
Definition rows_complete (flds : list string) (rows : dict (dict V)) : Prop :=
  forall sw vals, In (sw, vals) rows ->
  forall k, In k flds -> exists v, dict_get vals k = Some v.

(** The cells [_to_csv] writes for a row that has all its fields. *)
Definition cells_of (vals : dict V) (flds : list string) : list string :=
  map (fun k => match dict_get vals k with
                | Some v => float_str v
                | None => EmptyString
                end) flds.

Lemma row_cells_complete vals flds :
  (forall k, In k flds -> exists v, dict_get vals k = Some v) ->
  row_cells vals flds = Ok (cells_of vals flds).
Proof.
  induction flds as [|k flds IH]; simpl; intros Hc; [reflexivity|].
  destruct (Hc k) as [v Hv]; [now left|].
  rewrite Hv, IH by (intros; apply Hc; now right). reflexivity.
Qed.

(** The data lines [_to_csv] writes. *)
Definition data_lines (flds : list string) (rows : dict (dict V))
  : list (list string) :=
  map (fun r => fst r :: cells_of (snd r) flds) rows.

(** The text of a table: its lines, one after the other. *)
Definition write_table (lines : list (list string)) : string :=
  fold_right (fun row rest => Csv.writerow row ++ rest) EmptyString lines.

Lemma write_rows_complete flds rows :
  rows_complete flds rows ->
  write_rows flds rows = Ok (write_table (data_lines flds rows)).
Proof.
  unfold rows_complete.
  induction rows as [|[sw vals] rows IH]; intros Hc; [reflexivity|].
  cbn [write_rows].
  rewrite (row_cells_complete vals flds) by (apply (Hc sw); now left).
  cbn [bind]. rewrite IH by (intros; eapply Hc; [right|]; eauto).
  reflexivity.
Qed.

Lemma to_csv_complete sid ts flds rows :
  rows_complete flds rows ->
  _to_csv (sid, ts, flds, rows)
  = Ok (write_table (("switch_id" :: flds) :: data_lines flds rows)).
Proof.
  intros Hc. unfold _to_csv. now rewrite (write_rows_complete _ _ Hc).
Qed.

End ConditionalRead.

(** *** Sample rows *)

Definition sample_rows : dict (dict Z) :=
  [ ("sw-000", [("cpu_util_pct", 35)]); ("sw-001", [("cpu_util_pct", 41)]) ].

Lemma sample_rows_complete : rows_complete ["cpu_util_pct"] sample_rows.
Proof.
  intros sw vals Hin k [<-|[]].
  destruct Hin as [E|[E|[]]]; inversion E; subst; eexists; reflexivity.
Defined.

(** ** Parsing the payload *)

Section ParseFacts.
Context {V : Type} `{Float V}.
Import poller store http.

Lemma get_absent h name default :
  header_values h name = [] -> get h name default = default.
Proof. unfold get. now intros ->. Qed.

Lemma get_opt_get h name :
  get h name EmptyString
  = match get_opt h name with Some v => v | None => EmptyString end.
Proof. unfold get, get_opt. now destruct (header_values h name). Qed.

(** What [_parse_csv] returns once the timestamp header is read and the
    reader has yielded a header row and the data rows. *)
Lemma parse_csv_rows text hdrs flds rest ts :
  Csv.reader_rows text = (("switch_id" :: flds) :: rest, Csv.Exhausted) ->
  int_of_str (get hdrs "X-Snapshot-Ts" "0") = Some ts ->
  _parse_csv (V := V) text hdrs
  = Ok (mkSnapshot
          (mkMeta (if String.eqb (get hdrs "ETag" EmptyString) EmptyString
                   then "0" else get hdrs "ETag" EmptyString) ts flds)
          (fold_left (add_row flds) rest [])).
Proof.
  intros Hr Hts. unfold _parse_csv. rewrite Hts, Hr. reflexivity.
Qed.

End ParseFacts.

(** C10. Missing response metadata never makes [_parse_csv] fail: on a
    payload whose header row is accepted, a response without
    [X-Snapshot-Ts] parses with [ts_ms = 0], and a response whose [ETag] is
    absent or empty parses with [snapshot_id = "0"]. *)
Theorem C10_missing_metadata_defaults
    {V : Type} `{Float V} (csv_text : string) (hdrs : http.Headers)
    (flds : list string) (rest : list (list string)) :
  Csv.reader_rows csv_text = (("switch_id" :: flds) :: rest, Csv.Exhausted) ->
  (http.header_values hdrs "X-Snapshot-Ts" = [] ->
     exists snap,
       poller._parse_csv (V := V) csv_text hdrs = Ok snap /\
       store.ts_ms (store.meta snap) = 0) /\
  (forall ts,
     int_of_str (http.get hdrs "X-Snapshot-Ts" "0") = Some ts ->
     http.get_opt hdrs "ETag" = None \/
     http.get_opt hdrs "ETag" = Some EmptyString ->
     exists snap,
       poller._parse_csv (V := V) csv_text hdrs = Ok snap /\
       store.snapshot_id (store.meta snap) = "0" /\
       store.ts_ms (store.meta snap) = ts).
Proof.
  intros Hr. split.
  - intros Habs.
    assert (Hts : int_of_str (http.get hdrs "X-Snapshot-Ts" "0") = Some 0).
    { now rewrite (get_absent _ _ _ Habs). }
    rewrite (parse_csv_rows _ _ _ _ _ Hr Hts). eexists. split; reflexivity.
  - intros ts Hts Hetag.
    rewrite (parse_csv_rows _ _ _ _ _ Hr Hts). eexists. split; [reflexivity|].
    cbn [store.meta store.snapshot_id store.ts_ms]. split; [|reflexivity].
    rewrite get_opt_get. now destruct Hetag as [-> | ->].
Qed.

(** A response that carries no metadata at all. *)
Lemma C10_missing_metadata_defaults_witness :
  exists snap,
    poller._parse_csv (V := Z) sample_body [("Content-Type", "text/csv")]
    = Ok snap /\
    store.snapshot_id (store.meta snap) = "0" /\
    store.ts_ms (store.meta snap) = 0.
Proof.
  destruct (C10_missing_metadata_defaults (V := Z) sample_body
              [("Content-Type", "text/csv")] ["cpu_util_pct"]
              [["sw-000"; "35"]] eq_refl) as [_ H2].
  apply (H2 0); [reflexivity | left; reflexivity].
Defined.

(** ** Rolling percentiles *)

Module stats_facts.
Import stats.

(** [clamp(x, lo, hi)] as the specification writes it. *)
Definition clamp (x lo hi : Z) : Z := Z.max lo (Z.min hi x).

(** The index rule of the specification:
    [clamp(ceil(p * n) - 1, 0, n - 1)]. *)
Definition percentile_index (n : Z) (p : Q) : Z :=
  clamp (Qceiling (p * inject_Z n) - 1) 0 (n - 1).

(** The samples the window of [key] holds. *)
Definition samples_of (rs : RollingStats) (key : string) : list Z :=
  match dict_get (map rs) key with
  | Some dq => dq
  | None => []
  end.

Lemma sorted_permutation l : Permutation l (sorted l).
Proof. apply ZSort.Permuted_sort. Qed.

Lemma sorted_ascending l : StronglySorted Z.le (sorted l).
Proof.
  assert (Hs : StronglySorted (fun x y => is_true (ZOrder.leb x y)) (sorted l)).
  { apply ZSort.StronglySorted_sort.
    intros x y z Hxy Hyz. unfold is_true, ZOrder.leb in *. lia. }
  induction Hs as [|a l' Hs IH Hall]; constructor; auto.
  eapply Forall_impl; [|exact Hall].
  intros b Hb. unfold is_true, ZOrder.leb in Hb. lia.
Qed.

Lemma ascending_nth (l : list Z) :
  StronglySorted Z.le l ->
  forall i j, (i <= j < List.length l)%nat -> nth i l 0 <= nth j l 0.
Proof.
  induction 1 as [|a l Hs IH Hall]; intros i j Hij; simpl in Hij; [lia|].
  destruct i as [|i], j as [|j]; simpl; try lia.
  - rewrite Forall_forall in Hall. apply Hall, nth_In. lia.
  - apply IH. lia.
Qed.

Lemma last_as_nth (l : list Z) :
  last l 0 = nth (List.length l - 1) l 0.
Proof.
  induction l as [|a l IH]; [reflexivity|].
  destruct l as [|b l]; [reflexivity|].
  change (last (a :: b :: l) 0) with (last (b :: l) 0). rewrite IH.
  simpl. now rewrite Nat.sub_0_r.
Qed.

Lemma percentile_index_range n p :
  0 < n -> 0 <= percentile_index n p <= n - 1.
Proof. unfold percentile_index, clamp. lia. Qed.

Lemma percentile_index_mono n p q :
  0 <= n -> (p <= q)%Q -> percentile_index n p <= percentile_index n q.
Proof.
  intros Hn Hpq. unfold percentile_index, clamp.
  assert (Qceiling (p * inject_Z n) <= Qceiling (q * inject_Z n)).
  { apply Qceiling_resp_le, Qmult_le_compat_r; [exact Hpq|].
    unfold Qle. simpl. lia. }
  lia.
Qed.

Lemma pick_index arr p :
  arr <> [] ->
  pick arr (Z.of_nat (List.length arr)) p
  = inject_Z (nth (Z.to_nat (percentile_index (Z.of_nat (List.length arr)) p))
                  arr 0).
Proof.
  intros Hne. unfold pick.
  destruct (Z.eqb_spec (Z.of_nat (List.length arr)) 0) as [E|_].
  - destruct arr; [congruence|simpl in E; lia].
  - reflexivity.
Qed.

Lemma inject_Z_le x y : x <= y -> (inject_Z x <= inject_Z y)%Q.
Proof. intros Hxy. unfold Qle. simpl. lia. Qed.

Lemma percentiles_nonempty rs key :
  samples_of rs key <> [] ->
  let arr := sorted (samples_of rs key) in
  let n := Z.of_nat (List.length arr) in
  percentiles rs key
  = mkPercentiles (pick arr n 0.50) (pick arr n 0.95) (pick arr n 0.99)
                  (inject_Z (last arr 0)) n.
Proof.
  unfold percentiles. fold (samples_of rs key).
  destruct (samples_of rs key); [congruence|reflexivity].
Qed.

Lemma percentiles_empty rs key :
  samples_of rs key = [] -> percentiles rs key = mkPercentiles 0 0 0 0 0.
Proof.
  unfold percentiles. fold (samples_of rs key). now intros ->.
Qed.

End stats_facts.

(** C5. [percentiles(key)]: all zero with [count = 0] for a key without
    samples; for [n >= 1] samples the percentiles are the elements of the
    ascending rearrangement [arr] of the samples at index
    [clamp(ceil(p * n) - 1, 0, n - 1)] for [p] in 0.50, 0.95, 0.99, [max]
    is the last element of [arr], which is the largest sample, and
    [count = n]; so [p50 <= p95 <= p99 <= max]; and with a single sample
    every percentile is that sample. *)
Theorem C5_percentiles (rs : stats.RollingStats) (key : string) :
  let samples := stats_facts.samples_of rs key in
  let n := Z.of_nat (List.length samples) in
  let r := stats.percentiles rs key in
  (samples = [] -> r = stats.mkPercentiles 0 0 0 0 0) /\
  (samples <> [] ->
     exists arr,
       Permutation samples arr /\ StronglySorted Z.le arr /\
       stats.p50 r
       = inject_Z (nth (Z.to_nat (stats_facts.percentile_index n 0.50)) arr 0) /\
       stats.p95 r
       = inject_Z (nth (Z.to_nat (stats_facts.percentile_index n 0.95)) arr 0) /\
       stats.p99 r
       = inject_Z (nth (Z.to_nat (stats_facts.percentile_index n 0.99)) arr 0) /\
       stats.max r = inject_Z (last arr 0) /\
       (forall x, In x samples -> x <= last arr 0) /\
       stats.count r = n /\
       (stats.p50 r <= stats.p95 r /\ stats.p95 r <= stats.p99 r /\
        stats.p99 r <= stats.max r)%Q) /\
  (forall x, samples = [x] ->
     r = stats.mkPercentiles (inject_Z x) (inject_Z x) (inject_Z x)
                             (inject_Z x) 1).
Proof.
  intros samples n r. unfold r. split; [|split].
  - apply stats_facts.percentiles_empty.
  - intros Hne. exists (stats.sorted samples).
    pose proof (stats_facts.sorted_permutation samples) as Hperm.
    pose proof (stats_facts.sorted_ascending samples) as Hasc.
    assert (Hlen : List.length (stats.sorted samples) = List.length samples)
      by (symmetry; now apply Permutation_length).
    assert (Harr : stats.sorted samples <> []).
    { intros E. rewrite E in Hperm.
      apply Permutation_sym, Permutation_nil in Hperm. contradiction. }
    assert (Hn : 0 < n).
    { unfold n. destruct samples; [congruence|simpl; lia]. }
    rewrite (stats_facts.percentiles_nonempty rs key Hne).
    fold samples.
    cbn [stats.p50 stats.p95 stats.p99 stats.max stats.count].
    rewrite !stats_facts.pick_index by exact Harr.
    rewrite Hlen. fold n.
    assert (Hidx : forall p q, (p <= q)%Q ->
      (inject_Z (nth (Z.to_nat (stats_facts.percentile_index n p))
                     (stats.sorted samples) 0%Z)
       <= inject_Z (nth (Z.to_nat (stats_facts.percentile_index n q))
                        (stats.sorted samples) 0%Z))%Q).
    { intros p q Hpq. apply stats_facts.inject_Z_le.
      apply stats_facts.ascending_nth; [exact Hasc|].
      pose proof (stats_facts.percentile_index_mono n p q ltac:(lia) Hpq).
      pose proof (stats_facts.percentile_index_range n p Hn).
      pose proof (stats_facts.percentile_index_range n q Hn).
      rewrite Hlen. unfold n in *. lia. }
    repeat split; try reflexivity; auto.
    + intros x Hx. rewrite stats_facts.last_as_nth.
      apply (Permutation_in _ Hperm) in Hx.
      destruct (In_nth _ _ 0 Hx) as (i & Hi & <-).
      apply stats_facts.ascending_nth; [exact Hasc|lia].
    + apply Hidx. unfold Qle. simpl. lia.
    + apply Hidx. unfold Qle. simpl. lia.
    + rewrite stats_facts.last_as_nth. apply stats_facts.inject_Z_le.
      apply stats_facts.ascending_nth; [exact Hasc|].
      pose proof (stats_facts.percentile_index_range n 0.99 Hn).
      rewrite Hlen. unfold n in *. lia.
  - intros x Hx.
    rewrite (stats_facts.percentiles_nonempty rs key)
      by (fold samples; rewrite Hx; discriminate).
    fold samples. rewrite Hx. reflexivity.
Qed.

(** The window after [add("q", v)] for [v] in 1..100. *)
Definition hundred_samples : stats.RollingStats :=
  fold_left (fun rs v => stats.add rs "q" (Z.of_nat v)) (seq 1 100)
            (stats.init 1000).

Example hundred_samples_percentiles :
  stats.percentiles hundred_samples "q"
  = stats.mkPercentiles (inject_Z 50) (inject_Z 95) (inject_Z 99)
                        (inject_Z 100) 100.
Proof. vm_compute. reflexivity. Qed.

Example full_window_evicts_oldest :
  stats_facts.samples_of
    (fold_left (fun rs v => stats.add rs "q" v) [1; 2; 3; 4] (stats.init 3)) "q"
  = [2; 3; 4].
Proof. reflexivity. Qed.

Lemma C5_percentiles_witness :
  let r := stats.percentiles hundred_samples "q" in
  stats.count r = 100 /\
  (stats.p50 r <= stats.p95 r /\ stats.p95 r <= stats.p99 r /\
   stats.p99 r <= stats.max r)%Q.
Proof.
  destruct (C5_percentiles hundred_samples "q") as (_ & H & _).
  destruct H as (arr & _ & _ & _ & _ & _ & _ & _ & Hcount & Hle).
  - vm_compute. discriminate.
  - split; [exact Hcount | exact Hle].
Defined.

(** ** The generator *)

Module simulator_facts.
Import simulator.

#[local] Open Scope Q_scope.

Lemma Qltb_true x y : Qltb x y = true <-> x < y.
Proof.
  unfold Qltb. rewrite negb_true_iff.
  destruct (Qle_bool y x) eqn:E.
  - apply Qle_bool_iff in E. split; [discriminate|lra].
  - split; [intros _|reflexivity].
    apply Qnot_le_lt. intros Hle. apply Qle_bool_iff in Hle. congruence.
Qed.

Lemma Qltb_false x y : Qltb x y = false <-> y <= x.
Proof.
  destruct (Qltb x y) eqn:E.
  - apply Qltb_true in E. split; [discriminate|lra].
  - split; [intros _|reflexivity].
    apply Qnot_lt_le. intros Hlt. apply Qltb_true in Hlt. congruence.
Qed.

Lemma py_max_lower a b : a <= py_max a b.
Proof.
  unfold py_max. destruct (Qltb a b) eqn:E; [apply Qltb_true in E|]; lra.
Qed.

Lemma py_max_upper a b hi : a <= hi -> b <= hi -> py_max a b <= hi.
Proof. unfold py_max. destruct (Qltb a b); auto. Qed.

Lemma py_min_upper a b : py_min a b <= a.
Proof.
  unfold py_min. destruct (Qltb b a) eqn:E; [apply Qltb_true in E|]; lra.
Qed.

Lemma clip_range x lo hi : lo <= hi -> lo <= _clip x lo hi <= hi.
Proof.
  intros Hle. unfold _clip. split.
  - apply py_max_lower.
  - apply py_max_upper; [exact Hle|apply py_min_upper].
Qed.

(** *** Rounding keeps whole bounds *)

Lemma round_half_even_floor x :
  (Qfloor x <= round_half_even x <= Qfloor x + 1)%Z.
Proof.
  unfold round_half_even.
  destruct (Qltb _ _); [lia|]. destruct (Qltb _ _); [lia|].
  destruct (Z.even _); lia.
Qed.

Lemma round_half_even_whole (m : Z) x :
  x == inject_Z m -> round_half_even x = m.
Proof.
  intros Hx. unfold round_half_even.
  assert (Hf : Qfloor x = m).
  { rewrite <- (Qfloor_Z m). apply Qfloor_comp. exact Hx. }
  rewrite Hf.
  assert (Hd : Qltb (x - inject_Z m) (1 # 2) = true).
  { apply Qltb_true. rewrite Hx. lra. }
  now rewrite Hd.
Qed.

Lemma round_half_even_ge (m : Z) x :
  inject_Z m <= x -> (m <= round_half_even x)%Z.
Proof.
  intros Hle. pose proof (round_half_even_floor x).
  apply Qfloor_resp_le in Hle. rewrite Qfloor_Z in Hle. lia.
Qed.

Lemma round_half_even_le (m : Z) x :
  x <= inject_Z m -> (round_half_even x <= m)%Z.
Proof.
  intros Hle. pose proof (round_half_even_floor x) as Hr.
  pose proof (Qfloor_resp_le _ _ Hle) as Hf. rewrite Qfloor_Z in Hf.
  destruct (Z.eq_dec (Qfloor x) m) as [E|Hne]; [|lia].
  rewrite (round_half_even_whole m x); [lia|].
  apply Qle_antisym; [exact Hle|].
  rewrite <- E. apply Qfloor_le.
Qed.

Lemma round2_hundredths x : round2 x = round_half_even (x * 100) # 100.
Proof.
  unfold round2, Qdiv, Qmult, Qinv, inject_Z. simpl.
  now rewrite Z.mul_1_r.
Qed.

Lemma round2_ge (m : Z) x : inject_Z m <= x -> inject_Z m <= round2 x.
Proof.
  intros Hle. rewrite round2_hundredths.
  assert (H100 : inject_Z (m * 100) <= x * 100).
  { rewrite inject_Z_mult. change (inject_Z 100) with 100. lra. }
  apply round_half_even_ge in H100.
  unfold Qle. simpl. lia.
Qed.

Lemma round2_le (m : Z) x : x <= inject_Z m -> round2 x <= inject_Z m.
Proof.
  intros Hle. rewrite round2_hundredths.
  assert (H100 : x * 100 <= inject_Z (m * 100)).
  { rewrite inject_Z_mult. change (inject_Z 100) with 100. lra. }
  apply round_half_even_le in H100.
  unfold Qle. simpl. lia.
Qed.

(** A value is a whole number, or has at most two decimals. *)
Definition is_whole (x : Q) : Prop := exists z : Z, x == inject_Z z.
Definition has_two_decimals (x : Q) : Prop := exists z : Z, x == z # 100.

Lemma round2_two_decimals x : has_two_decimals (round2 x).
Proof. eexists. rewrite round2_hundredths. reflexivity. Qed.

Lemma round2_whole (z : Z) : round2 (inject_Z z) == inject_Z z.
Proof.
  rewrite round2_hundredths.
  rewrite (round_half_even_whole (z * 100)).
  - unfold Qeq, inject_Z. simpl. lia.
  - rewrite inject_Z_mult. reflexivity.
Qed.

Lemma whole_two_decimals x : is_whole x -> has_two_decimals x.
Proof.
  intros [z Hz]. exists (z * 100)%Z. rewrite Hz.
  unfold Qeq, inject_Z. simpl. lia.
Qed.

End simulator_facts.

Module generator_facts.
Import simulator simulator_facts.

#[local] Open Scope Q_scope.

(** What one generated row looks like: the eight metrics in the order of
    the dictionary literal, each the rounding of a value that was clipped
    or drawn inside its range; packet errors a count; egress drops a count
    unless the burst drew from [[100, 1000]]. *)
Definition row_spec (row : MetricRow) : Prop :=
  exists (bw lat cpu mem buf drops temp : Q) (pkt_errs : Z),
    row = [ ("bandwidth_gbps", round2 bw);
            ("latency_us", round2 lat);
            ("packet_errors", inject_Z pkt_errs);
            ("cpu_util_pct", round2 cpu);
            ("mem_util_pct", round2 mem);
            ("buffer_occupancy_pct", round2 buf);
            ("egress_drops_per_s", round2 drops);
            ("temperature_c", round2 temp) ]%string /\
    0 <= bw /\ 1 <= lat /\ (0 <= pkt_errs)%Z /\
    (0 <= cpu /\ cpu <= 100) /\ (0 <= mem /\ mem <= 100) /\
    (0 <= buf /\ buf <= 100) /\
    ((exists k : Z, drops = inject_Z k /\ (0 <= k)%Z) \/
     (100 <= drops /\ drops <= 1000)) /\
    (30 <= temp /\ temp <= 90).

Section WithRandom.
Context {G : Type} `{Random G} `{MathLib}.
Hypothesis contract : random_contract G.

(** [post m P]: every result of [m] satisfies [P]. *)
Definition post {A} (m : M (G := G) A) (P : A -> Prop) : Prop :=
  forall g a g', m g = Some (a, g') -> P a.

Lemma mbind_inv {A B} (m : M (G := G) A) (k : A -> M B) g b g' :
  mbind m k g = Some (b, g') ->
  exists a g1, m g = Some (a, g1) /\ k a g1 = Some (b, g').
Proof.
  unfold mbind. destruct (m g) as [[a g1]|]; [eauto|discriminate].
Qed.

Lemma post_ret {A} (a : A) (P : A -> Prop) : P a -> post (ret a) P.
Proof. intros Ha g b g' [= <- _]. exact Ha. Qed.

Lemma post_bind {A B} (m : M (G := G) A) (k : A -> M B) P Q :
  post m P -> (forall a, P a -> post (k a) Q) -> post (mbind m k) Q.
Proof.
  intros Hm Hk g b g' Hrun.
  apply mbind_inv in Hrun as (a & g1 & Ha & Hb).
  eapply Hk; eauto.
Qed.

Lemma post_if {A} (c : bool) (m1 m2 : M (G := G) A) P :
  post m1 P -> post m2 P -> post (if c then m1 else m2) P.
Proof. now destruct c. Qed.

Lemma post_random : post (lift random) (fun u => 0 <= u /\ u < 1).
Proof.
  intros g u g' [= Hu]. destruct contract as [Hr _].
  specialize (Hr g). rewrite Hu in Hr. exact Hr.
Qed.

Lemma post_randint a b :
  (a <= b)%Z -> post (lift (randint a b)) (fun v => (a <= v <= b)%Z).
Proof.
  intros Hab g v g' [= Hv]. destruct contract as [_ Hr].
  specialize (Hr a b g Hab). rewrite Hv in Hr. exact Hr.
Qed.

Lemma post_any {A} (m : M (G := G) A) : post m (fun _ => True).
Proof. now intros g a g' _. Qed.

Lemma post_uniform a b :
  a <= b -> post (uniform a b) (fun v => a <= v /\ v <= b).
Proof.
  intros Hab. unfold uniform.
  eapply post_bind; [apply post_random|].
  intros u [Hu0 Hu1]. apply post_ret. split; nra.
Qed.

Lemma post_poisson_loop fuel L k p :
  post (poisson_loop fuel L k p) (fun z => (0 <= z)%Z).
Proof.
  revert k p. induction fuel as [|fuel IH]; intros k p; simpl.
  - destruct (Qltb L p); [intros g a g' [=]|apply post_ret; lia].
  - destruct (Qltb L p); [|apply post_ret; lia].
    eapply post_bind; [apply post_any|]. intros u _. apply IH.
Qed.

Lemma post_poisson_small fuel lam :
  post (_poisson_small fuel lam) (fun z => (0 <= z)%Z).
Proof. apply post_poisson_loop. Qed.

Lemma post_weaken {A} (m : M (G := G) A) (P Q : A -> Prop) :
  post m P -> (forall a, P a -> Q a) -> post m Q.
Proof. intros Hm HPQ g a g' Hrun. eapply HPQ, Hm, Hrun. Qed.

Theorem generate_row_spec fuel : post (generate_row fuel) row_spec.
Proof.
  unfold generate_row.
  eapply post_bind; [apply post_any|]. intros g1 _.
  eapply post_bind; [apply post_any|]. intros u2 _.
  eapply post_bind with (P := fun lat => 1 <= lat).
  { apply post_if.
    - eapply post_weaken; [apply post_uniform; lra|]. cbv beta. intros; lra.
    - eapply post_bind; [apply post_any|]. intros g2 _.
      apply post_ret, py_max_lower. }
  intros lat Hlat.
  eapply post_bind; [apply post_any|]. intros u3 _.
  eapply post_bind with (P := fun pe => (0 <= pe)%Z).
  { apply post_if.
    - eapply post_weaken; [apply post_randint; lia|]. cbv beta. intros; lia.
    - apply post_poisson_small. }
  intros pkt_errs Hpkt.
  eapply post_bind; [apply post_any|]. intros u4 _.
  eapply post_bind with (P := fun cpu => 0 <= cpu /\ cpu <= 100).
  { apply post_if.
    - eapply post_weaken; [apply post_uniform; lra|]. cbv beta. intros; lra.
    - eapply post_bind; [apply post_any|]. intros g4 _.
      apply post_ret, clip_range. lra. }
  intros cpu Hcpu.
  eapply post_bind; [apply post_any|]. intros g5 _.
  eapply post_bind; [apply post_any|]. intros u6 _.
  eapply post_bind with (P := fun buf => 0 <= buf /\ buf <= 100).
  { apply post_if.
    - eapply post_weaken; [apply post_uniform; lra|]. cbv beta. intros; lra.
    - eapply post_bind; [apply post_any|]. intros g6 _.
      apply post_ret, clip_range. lra. }
  intros buf Hbuf.
  eapply post_bind; [apply post_any|]. intros u7 _.
  eapply post_bind with
    (P := fun drops => (exists k : Z, drops = inject_Z k /\ (0 <= k)%Z) \/
                       (100 <= drops /\ drops <= 1000)).
  { apply post_if.
    - eapply post_weaken; [apply post_uniform; lra|]. cbv beta. intros; now right.
    - eapply post_bind; [apply post_poisson_small|]. intros k Hk.
      apply post_ret. left. eauto. }
  intros drops Hdrops.
  eapply post_bind; [apply post_any|]. intros g8 _.
  apply post_ret.
  exists (py_max 0 g1), lat, cpu, (_clip g5 0 100), buf, drops,
         (_clip (g8 + 0.06 * cpu) 30 90), pkt_errs.
  split; [reflexivity|].
  repeat split; try tauto; try apply py_max_lower; try (apply clip_range; lra).
Qed.

End WithRandom.
End generator_facts.

Module snapshot_facts.
Import simulator simulator_facts generator_facts.

#[local] Open Scope Q_scope.

(** The value of a metric lies in its declared clip range. *)
Definition metric_in (row : MetricRow) (name : string)
    (lo : Q) (hi : option Q) : Prop :=
  exists v, dict_get row name = Some v /\ lo <= v /\
            match hi with Some h => v <= h | None => True end.

(** The clip column of the table of metrics. *)
Definition row_in_clip_ranges (row : MetricRow) : Prop :=
  dict_keys row = fields /\
  metric_in row "bandwidth_gbps" 0 None /\
  metric_in row "latency_us" 1 None /\
  metric_in row "packet_errors" 0 None /\
  metric_in row "cpu_util_pct" 0 (Some 100) /\
  metric_in row "mem_util_pct" 0 (Some 100) /\
  metric_in row "buffer_occupancy_pct" 0 (Some 100) /\
  metric_in row "egress_drops_per_s" 0 None /\
  metric_in row "temperature_c" 30 (Some 90).

(** How the values are stored: packet errors as a whole number, egress
    drops as a whole number unless it is a burst value of [[100, 1000]],
    and nothing with more than two decimals. *)
Definition row_storage (row : MetricRow) : Prop :=
  (exists v, dict_get row "packet_errors" = Some v /\ is_whole v) /\
  (exists v, dict_get row "egress_drops_per_s" = Some v /\
             (is_whole v \/ (100 <= v /\ v <= 1000))) /\
  (forall name v, dict_get row name = Some v -> has_two_decimals v).

Lemma row_spec_clip_ranges row : row_spec row -> row_in_clip_ranges row.
Proof.
  intros (bw & lat & cpu & mem & buf & drops & temp & pe & -> & Hbw & Hlat
          & Hpe & [Hc0 Hc1] & [Hm0 Hm1] & [Hb0 Hb1] & Hdrops & [Ht0 Ht1]).
  split; [reflexivity|].
  repeat split; eexists; (split; [reflexivity|]).
  - split; [apply (round2_ge 0); exact Hbw|exact I].
  - split; [apply (round2_ge 1); exact Hlat|exact I].
  - split; [|exact I]. unfold Qle. simpl. lia.
  - split; [apply (round2_ge 0); exact Hc0|apply (round2_le 100); exact Hc1].
  - split; [apply (round2_ge 0); exact Hm0|apply (round2_le 100); exact Hm1].
  - split; [apply (round2_ge 0); exact Hb0|apply (round2_le 100); exact Hb1].
  - split; [|exact I]. apply (round2_ge 0).
    destruct Hdrops as [(k & -> & Hk)|[Hd _]].
    + unfold Qle. simpl. lia.
    + change (inject_Z 0) with 0. lra.
  - split; [apply (round2_ge 30); exact Ht0|apply (round2_le 90); exact Ht1].
Qed.

Lemma inject_Z_whole z : is_whole (inject_Z z).
Proof. exists z. reflexivity. Qed.

Lemma row_spec_storage row : row_spec row -> row_storage row.
Proof.
  intros (bw & lat & cpu & mem & buf & drops & temp & pe & -> & Hbw & Hlat
          & Hpe & [Hc0 Hc1] & [Hm0 Hm1] & [Hb0 Hb1] & Hdrops & [Ht0 Ht1]).
  split; [|split].
  - eexists. split; [reflexivity|apply inject_Z_whole].
  - eexists. split; [reflexivity|].
    destruct Hdrops as [(k & -> & Hk)|[Hd0 Hd1]].
    + left. exists k. apply round2_whole.
    + right. split; [apply (round2_ge 100); exact Hd0
                    |apply (round2_le 1000); exact Hd1].
  - intros name v. cbn [dict_get].
    repeat (destruct (String.eqb _ name);
            [intros [= <-];
             first [apply round2_two_decimals
                   |apply whole_two_decimals, inject_Z_whole]|]).
    discriminate.
Qed.

Section WithRandom.
Context {G : Type} `{Random G} `{MathLib}.

(** The rows after the loop: one generated row stored per index. *)
Definition store_rows (indices : list Z) (rs : list MetricRow)
    (rows : dict MetricRow) : dict MetricRow :=
  fold_left (fun d ir => dict_set d (_fmt_id (fst ir)) (snd ir))
            (combine indices rs) rows.

Lemma generate_rows_inv fuel indices :
  random_contract G ->
  forall rows0 (g : G) rows g',
  generate_rows fuel indices rows0 g = Some (rows, g') ->
  exists rs, List.length rs = List.length indices /\
             Forall row_spec rs /\
             rows = store_rows indices rs rows0.
Proof.
  intros contract.
  induction indices as [|i indices IH]; intros rows0 g rows g' Hrun.
  - injection Hrun as <- _. exists []. repeat split. constructor.
  - cbn [generate_rows] in Hrun.
    apply mbind_inv in Hrun as (row & g1 & Hrow & Hrest).
    apply (generate_row_spec contract) in Hrow.
    apply IH in Hrest as (rs & Hlen & Hall & ->).
    exists (row :: rs). repeat split.
    + simpl. now rewrite Hlen.
    + now constructor.
Qed.

Lemma dict_set_values {V} (P : V -> Prop) (d : dict V) k v :
  (forall k' v', In (k', v') d -> P v') -> P v ->
  forall k' v', In (k', v') (dict_set d k v) -> P v'.
Proof.
  induction d as [|[k0 v0] d IH]; simpl; intros Hd Hv k' v'.
  - intros [[= <- <-]|[]]. exact Hv.
  - destruct (String.eqb k0 k); simpl.
    + intros [[= <- <-]|Hin]; [exact Hv|eapply Hd; eauto].
    + intros [[= <- <-]|Hin]; [eapply Hd; eauto|].
      eapply IH; eauto.
Qed.

Lemma store_rows_values (P : MetricRow -> Prop) indices :
  forall rs rows0,
  Forall P rs ->
  (forall k v, In (k, v) rows0 -> P v) ->
  forall k v, In (k, v) (store_rows indices rs rows0) -> P v.
Proof.
  unfold store_rows.
  induction indices as [|i indices IH]; intros rs rows0 Hrs Hold; [exact Hold|].
  destruct rs as [|r rs]; [exact Hold|].
  inversion Hrs; subst. cbn [combine fold_left fst snd].
  apply IH; [assumption|].
  apply dict_set_values; assumption.
Qed.

(** *** Fuel only bounds the loops *)

Definition refines {A} (m m' : M (G := G) A) : Prop :=
  forall g r, m g = Some r -> m' g = Some r.

Lemma refines_refl {A} (m : M (G := G) A) : refines m m.
Proof. now intros g r. Qed.

Lemma refines_bind {A B} (m m' : M (G := G) A) (k k' : A -> M B) :
  refines m m' -> (forall a, refines (k a) (k' a)) ->
  refines (mbind m k) (mbind m' k').
Proof.
  intros Hm Hk g [b g'] Hrun.
  apply mbind_inv in Hrun as (a & g1 & Ha & Hb).
  unfold mbind. rewrite (Hm _ _ Ha). now apply Hk.
Qed.

Lemma refines_if {A} (c : bool) (m1 m1' m2 m2' : M (G := G) A) :
  refines m1 m1' -> refines m2 m2' ->
  refines (if c then m1 else m2) (if c then m1' else m2').
Proof. now destruct c. Qed.

Lemma poisson_loop_fuel fuel fuel' L :
  (fuel <= fuel')%nat ->
  forall k p, refines (poisson_loop fuel L k p) (poisson_loop fuel' L k p).
Proof.
  revert fuel'. induction fuel as [|fuel IH]; intros fuel' Hle k p.
  - destruct fuel'; simpl; destruct (Qltb L p);
      try apply refines_refl; now intros g r.
  - destruct fuel' as [|fuel']; [lia|]. simpl.
    destruct (Qltb L p); [|apply refines_refl].
    apply refines_bind; [apply refines_refl|].
    intros u. apply IH. lia.
Qed.

Lemma generate_row_fuel fuel fuel' :
  (fuel <= fuel')%nat -> refines (generate_row fuel) (generate_row fuel').
Proof.
  intros Hle. unfold generate_row, _poisson_small.
  repeat first
    [ apply refines_refl
    | apply poisson_loop_fuel; exact Hle
    | apply refines_if
    | apply refines_bind; [|intros ?] ].
Qed.

Lemma generate_rows_fuel fuel fuel' indices :
  (fuel <= fuel')%nat ->
  forall rows0,
  refines (generate_rows fuel indices rows0) (generate_rows fuel' indices rows0).
Proof.
  intros Hle. induction indices as [|i indices IH]; intros rows0; simpl.
  - apply refines_refl.
  - apply refines_bind; [now apply generate_row_fuel|]. intros row. apply IH.
Qed.

Lemma generate_snapshot_fuel fuel fuel' now_ms n prev :
  (fuel <= fuel')%nat ->
  refines (generate_snapshot fuel now_ms n prev)
          (generate_snapshot fuel' now_ms n prev).
Proof.
  intros Hle. unfold generate_snapshot.
  apply refines_bind; [now apply generate_rows_fuel|].
  intros rows. apply refines_refl.
Qed.

End WithRandom.
End snapshot_facts.

(** *** The burst branch of the egress drops *)

Module burst_facts.
Import simulator simulator_facts generator_facts snapshot_facts.

#[local] Open Scope Q_scope.

#[local] Notation "x <~ m ;; k" := (mbind m (fun x => k))
  (at level 61, m at next level, right associativity).

Section WithRandom.
Context {G : Type} `{Random G} `{MathLib}.

(** Steps 1 to 6 of the loop body (lines 52 to 80 of simulator.py) as
    [generate_row] runs them: everything that is drawn before the egress
    drops.  The result is [buf]. *)
Definition before_drops (fuel : nat) : M Q :=
  g1 <~ lift (gauss 120 15) ;;
  u2 <~ lift random ;;
  lat <~ (if Qltb u2 0.03 then uniform 50 150
          else g2 <~ lift (gauss 10 2) ;; ret (py_max 1 g2)) ;;
  u3 <~ lift random ;;
  pkt_errs <~ (if Qltb u3 0.01 then lift (randint 5 30)
               else _poisson_small fuel 0.6) ;;
  u4 <~ lift random ;;
  cpu <~ (if Qltb u4 0.05 then uniform 80 100
          else g4 <~ lift (gauss 35 10) ;; ret (_clip g4 0 100)) ;;
  g5 <~ lift (gauss 60 15) ;;
  u6 <~ lift random ;;
  buf <~ (if Qltb u6 0.08 then uniform 70 100
          else g6 <~ lift (gauss 30 15) ;; ret (_clip g6 0 100)) ;;
  ret buf.

(** How the egress drops of [row] came about in the run of [generate_row]
    that starts in state [g]: [u7] is the draw of line 83, and the burst
    branch is taken when [u7 < 0.02].  Then the stored value is the
    rounding of [uniform(100, 1000)], drawn next; otherwise it is the count
    [_poisson_small] returns, a whole number that the rounding keeps. *)
Definition drops_as_drawn (fuel : nat) (g : G) (row : MetricRow) : Prop :=
  exists (buf : Q) (g7 : G),
    before_drops fuel g = Some (buf, g7) /\
    let u7 := fst (random g7) in
    let g7' := snd (random g7) in
    if Qltb u7 0.02
    then
      dict_get row "egress_drops_per_s"
      = Some (round2 (100 + (1000 - 100) * fst (random g7')))
    else
      exists (k : Z) (g8 : G),
        _poisson_small fuel (1 + (buf / 100) * 0.5) g7' = Some (k, g8) /\
        (0 <= k)%Z /\
        dict_get row "egress_drops_per_s" = Some (round2 (inject_Z k)) /\
        round2 (inject_Z k) == inject_Z k.

Lemma lift_inv {A} (f : G -> A * G) g a g' :
  lift f g = Some (a, g') -> a = fst (f g) /\ g' = snd (f g).
Proof. unfold lift. intros [= E]. now rewrite E. Qed.

Lemma generate_row_drops fuel (g : G) row g' :
  generate_row fuel g = Some (row, g') -> drops_as_drawn fuel g row.
Proof.
  unfold generate_row, drops_as_drawn, before_drops. intros Hrun.
  apply mbind_inv in Hrun as (g1 & s1 & E1 & Hrun).
  apply mbind_inv in Hrun as (u2 & s2 & E2 & Hrun).
  apply mbind_inv in Hrun as (lat & s3 & E3 & Hrun).
  apply mbind_inv in Hrun as (u3 & s4 & E4 & Hrun).
  apply mbind_inv in Hrun as (pkt & s5 & E5 & Hrun).
  apply mbind_inv in Hrun as (u4 & s6 & E6 & Hrun).
  apply mbind_inv in Hrun as (cpu & s7 & E7 & Hrun).
  apply mbind_inv in Hrun as (g5 & s8 & E8 & Hrun).
  apply mbind_inv in Hrun as (u6 & s9 & E9 & Hrun).
  apply mbind_inv in Hrun as (buf & s10 & E10 & Hrun).
  apply mbind_inv in Hrun as (u7 & s11 & E11 & Hrun).
  apply mbind_inv in Hrun as (drops & s12 & E12 & Hrun).
  apply mbind_inv in Hrun as (g8 & s13 & E13 & Hrun).
  injection Hrun as <- _.
  exists buf, s10. split.
  - unfold mbind at 1. rewrite E1.
    unfold mbind at 1. rewrite E2.
    unfold mbind at 1. rewrite E3.
    unfold mbind at 1. rewrite E4.
    unfold mbind at 1. rewrite E5.
    unfold mbind at 1. rewrite E6.
    unfold mbind at 1. rewrite E7.
    unfold mbind at 1. rewrite E8.
    unfold mbind at 1. rewrite E9.
    unfold mbind at 1. rewrite E10. reflexivity.
  - apply lift_inv in E11 as [-> ->]. cbv zeta.
    destruct (Qltb (fst (random s10)) 0.02).
    + unfold uniform in E12.
      apply mbind_inv in E12 as (u & s & Eu & Er).
      apply lift_inv in Eu as [-> ->]. injection Er as <- _.
      reflexivity.
    + apply mbind_inv in E12 as (k & s & Ek & Er).
      injection Er as <- _.
      exists k, s. split; [exact Ek|].
      split; [exact (post_poisson_small _ _ _ _ _ Ek)|].
      split; [reflexivity|apply round2_whole].
Qed.

(** Every row a run of the loop stores was returned by a run of the loop
    body. *)
Lemma generate_rows_runs fuel indices :
  forall rows0 (g : G) rows g',
  generate_rows fuel indices rows0 g = Some (rows, g') ->
  exists rs, List.length rs = List.length indices /\
             Forall (fun row => exists g0 g0',
                       generate_row fuel g0 = Some (row, g0')) rs /\
             rows = store_rows indices rs rows0.
Proof.
  induction indices as [|i indices IH]; intros rows0 g rows g' Hrun.
  - injection Hrun as <- _. exists []. repeat split. constructor.
  - cbn [generate_rows] in Hrun.
    apply mbind_inv in Hrun as (row & g1 & Hrow & Hrest).
    apply IH in Hrest as (rs & Hlen & Hall & ->).
    exists (row :: rs). repeat split.
    + simpl. now rewrite Hlen.
    + constructor; [eauto|exact Hall].
Qed.

Lemma snapshot_rows_runs fuel now_ms n prev (g g' : G) sid ts flds rows :
  generate_snapshot fuel now_ms n prev g = Some ((sid, ts, flds, rows), g') ->
  forall sw row, In (sw, row) rows ->
  exists g0 g0', generate_row fuel g0 = Some (row, g0').
Proof.
  intros Hrun. unfold generate_snapshot in Hrun.
  apply mbind_inv in Hrun as (rs & g1 & Hrows & Hret).
  injection Hret as _ _ _ <- _.
  apply generate_rows_runs in Hrows as (l & _ & Hall & ->).
  apply (store_rows_values
           (fun row => exists g0 g0', generate_row fuel g0 = Some (row, g0'))).
  - exact Hall.
  - intros k v [].
Qed.

End WithRandom.
End burst_facts.

(** ** A scripted random source

    The tape holds the draws to come; each call takes the next one
    ([0] once the tape is used up).  [random()] takes it as it is when it
    lies in [[0, 1)], [gauss(mu, sigma)] as the standard deviate, and
    [randint(a, b)] as the offset from [a], cut to the range. *)

Definition tape_next (t : list Q) : Q * list Q :=
  match t with
  | [] => (0%Q, [])
  | q :: t' => (q, t')
  end.

#[local] Instance tape_random : Random (list Q) := {
  random t :=
    let (q, t') := tape_next t in
    ((if Qle_bool 0 q && simulator.Qltb q 1 then q else 0)%Q, t');
  gauss mu sigma t :=
    let (q, t') := tape_next t in ((mu + sigma * q)%Q, t');
  randint a b t :=
    let (q, t') := tape_next t in (Z.max a (Z.min b (a + Qfloor q)), t')
}.

(** A rational stand-in for [math.exp] on arguments below zero. *)
#[local] Instance rational_exp : MathLib := {
  math_exp x := (1 / (1 - x + x * x / 2))%Q
}.

Lemma tape_random_contract : random_contract (list Q).
Proof.
  split.
  - intros g. unfold random, tape_random.
    destruct (tape_next g) as [q t']. cbn [fst].
    destruct (Qle_bool 0 q) eqn:E0; cbn [andb]; [|split; reflexivity || lra].
    destruct (simulator.Qltb q 1) eqn:E1; [|split; reflexivity || lra].
    apply Qle_bool_iff in E0. apply simulator_facts.Qltb_true in E1. tauto.
  - intros a b g Hab. unfold randint, tape_random.
    destruct (tape_next g) as [q t']. cbn [fst]. lia.
Defined.

(** One quiet row, and one whose egress drops are a burst: the draw
    [1/100] is below the burst probability and the next draw [1/1800]
    gives [uniform(100, 1000) = 100.5]. *)
Definition quiet_tape : list Q :=
  [ 0; 1 # 2; 0; 1 # 2; 0; 1 # 2; 0; 0; 1 # 2; 0; 1 # 2; 0; 0 ]%Q.

Definition burst_tape : list Q :=
  [ 0; 1 # 2; 0; 1 # 2; 0; 1 # 2; 0; 0; 1 # 2; 0; 1 # 100; 1 # 1800; 0 ]%Q.

(** C4. Whatever the random source returns (within the contract of the
    [random] module), a snapshot that [generate_snapshot] returns has
    version [prev_id + 1], and every value of every row lies in the clip
    range of its metric: bandwidth >= 0, latency >= 1, packet errors >= 0,
    cpu, memory and buffer occupancy in [[0, 100]], egress drops >= 0,
    temperature in [[30, 90]].  The fuel only bounds the loop of
    [_poisson_small]: more fuel gives the same snapshot. *)
Theorem C4_generated_values_in_range
    {G : Type} `{Random G} `{MathLib}
    (fuel : nat) (now_ms n_switches prev_id : Z) (g g' : G)
    (snapshot_id ts_ms : Z) (flds : list string)
    (rows : dict simulator.MetricRow) :
  random_contract G ->
  simulator.generate_snapshot fuel now_ms n_switches prev_id g
  = Some ((snapshot_id, ts_ms, flds, rows), g') ->
  snapshot_id = prev_id + 1 /\
  flds = simulator.fields /\
  (forall sw row, In (sw, row) rows -> snapshot_facts.row_in_clip_ranges row) /\
  (forall fuel', (fuel <= fuel')%nat ->
     simulator.generate_snapshot fuel' now_ms n_switches prev_id g
     = Some ((snapshot_id, ts_ms, flds, rows), g')).
Proof.
  intros contract Hrun. split; [|split; [|split]].
  - unfold simulator.generate_snapshot in Hrun.
    apply generator_facts.mbind_inv in Hrun as (rs & g1 & _ & Hret).
    now injection Hret as <- _ _ _ _.
  - unfold simulator.generate_snapshot in Hrun.
    apply generator_facts.mbind_inv in Hrun as (rs & g1 & _ & Hret).
    now injection Hret as _ _ <- _ _.
  - unfold simulator.generate_snapshot in Hrun.
    apply generator_facts.mbind_inv in Hrun as (rs & g1 & Hrows & Hret).
    injection Hret as _ _ _ <- _.
    apply (snapshot_facts.generate_rows_inv _ _ contract) in Hrows
      as (l & _ & Hall & ->).
    intros sw row Hin.
    apply snapshot_facts.row_spec_clip_ranges.
    revert sw row Hin. apply snapshot_facts.store_rows_values.
    + exact Hall.
    + intros k v [].
  - intros fuel' Hle.
    now apply (snapshot_facts.generate_snapshot_fuel fuel fuel').
Qed.

Lemma C4_generated_values_in_range_witness :
  exists rows,
    simulator.generate_snapshot 5 1700000000000 1 6 burst_tape
    = Some ((7, 1700000000000, simulator.fields, rows), []) /\
    forall sw row, In (sw, row) rows -> snapshot_facts.row_in_clip_ranges row.
Proof.
  eexists. split.
  - vm_compute. reflexivity.
  - eapply (C4_generated_values_in_range 5 1700000000000 1 6 burst_tape []).
    + exact tape_random_contract.
    + vm_compute. reflexivity.
Defined.

(** C6, as the code has it.  Packet errors are stored as a whole number.
    Egress drops depend on the draw of line 83 in the run of the loop
    body that returned the row: when it is below 0.02 (the burst branch)
    the stored value is [uniform(100, 1000)], drawn next, rounded to two
    decimals, a value in [[100, 1000]]; otherwise it is the count that
    [_poisson_small] returned, a whole number.  And every value, egress
    drops included, has at most two decimals. *)
Theorem C6_storage_of_values
    {G : Type} `{Random G} `{MathLib}
    (fuel : nat) (now_ms n_switches prev_id : Z) (g g' : G)
    (snapshot_id ts_ms : Z) (flds : list string)
    (rows : dict simulator.MetricRow) :
  random_contract G ->
  simulator.generate_snapshot fuel now_ms n_switches prev_id g
  = Some ((snapshot_id, ts_ms, flds, rows), g') ->
  forall sw row, In (sw, row) rows ->
    snapshot_facts.row_storage row /\
    exists g0 g0',
      simulator.generate_row fuel g0 = Some (row, g0') /\
      burst_facts.drops_as_drawn fuel g0 row.
Proof.
  intros contract Hrun sw row Hin. split.
  - unfold simulator.generate_snapshot in Hrun.
    apply generator_facts.mbind_inv in Hrun as (rs & g1 & Hrows & Hret).
    injection Hret as _ _ _ <- _.
    apply (snapshot_facts.generate_rows_inv _ _ contract) in Hrows
      as (l & _ & Hall & ->).
    apply snapshot_facts.row_spec_storage.
    revert sw row Hin. apply snapshot_facts.store_rows_values.
    + exact Hall.
    + intros k v [].
  - destruct (burst_facts.snapshot_rows_runs _ _ _ _ _ _ _ _ _ _ Hrun
                sw row Hin) as (g0 & g0' & Hrow).
    exists g0, g0'. split; [exact Hrow|].
    exact (burst_facts.generate_row_drops _ _ _ _ Hrow).
Qed.

(** A row without a burst, then one whose egress drops are a burst. *)
Lemma C6_storage_of_values_witness :
  exists rows,
    simulator.generate_snapshot 5 1700000000000 2 6
      (quiet_tape ++ burst_tape)%list
    = Some ((7, 1700000000000, simulator.fields, rows), []) /\
    forall sw row, In (sw, row) rows ->
      snapshot_facts.row_storage row /\
      exists g0 g0',
        simulator.generate_row 5 g0 = Some (row, g0') /\
        burst_facts.drops_as_drawn 5 g0 row.
Proof.
  eexists. split.
  - vm_compute. reflexivity.
  - eapply (C6_storage_of_values 5 1700000000000 2 6
              (quiet_tape ++ burst_tape)%list []).
    + exact tape_random_contract.
    + vm_compute. reflexivity.
Defined.

(** C6 as stated fails: with a random outcome that takes the burst branch
    of the egress drops, the stored value is 100.5, no whole number. *)
Lemma C6_burst_value_is_not_whole :
  random_contract (list Q) /\
  exists rows row v,
    simulator.generate_snapshot 5 1700000000000 1 6 burst_tape
    = Some ((7, 1700000000000, simulator.fields, rows), []) /\
    In ("sw-000", row) rows /\
    dict_get row "egress_drops_per_s" = Some v /\
    (v == 201 # 2)%Q /\
    ~ simulator_facts.is_whole v.
Proof.
  split; [exact tape_random_contract|].
  eexists _, _, _. split; [vm_compute; reflexivity|].
  split; [left; reflexivity|].
  split; [reflexivity|].
  split; [reflexivity|].
  intros [z Hz]. unfold Qeq in Hz. simpl in Hz. lia.
Qed.

(** ** The reader reads back what the writer wrote *)

Module csv_facts.
Import Csv.

Lemma append_nil_r (s : string) : s ++ EmptyString = s.
Proof. induction s; simpl; congruence. Qed.

Lemma append_assoc (s t u : string) : (s ++ t) ++ u = s ++ t ++ u.
Proof. induction s; simpl; congruence. Qed.

Lemma append_snoc (p : string) (c : ascii) (f : string) :
  (p ++ String c EmptyString) ++ f = p ++ String c f.
Proof. now rewrite append_assoc. Qed.

(** A record in front of the records that follow. *)
Definition cons_row (row : list string) (res : list (list string) * ending)
  : list (list string) * ending :=
  (row :: fst res, snd res).

Lemma read_rows_step r m c text :
  read_rows r m (String c text)
  = match parse_process_char r (Ch c) with
    | None => ([], Failed)
    | Some r1 =>
        if Ascii.eqb c LF then
          match parse_process_char r1 EOL with
          | None => ([], Failed)
          | Some r2 =>
              if is_START_RECORD (state r2)
              then cons_row (fields r2) (read_rows parse_reset false text)
              else read_rows r2 false text
          end
        else read_rows r1 true text
    end.
Proof.
  cbn [read_rows]. destruct (parse_process_char r (Ch c)); [|reflexivity].
  destruct (Ascii.eqb c LF); [|reflexivity].
  destruct (parse_process_char _ EOL); [|reflexivity].
  destruct (is_START_RECORD _); [|reflexivity].
  unfold cons_row. now destruct (read_rows parse_reset false text).
Qed.

(** Inside a line the flag is of no use. *)
Lemma read_rows_midline r m m' c text :
  read_rows r m (String c text) = read_rows r m' (String c text).
Proof. now rewrite !read_rows_step. Qed.

(** *** Character classes *)

Lemma special_false c :
  special c = false ->
  Ascii.eqb c comma = false /\ Ascii.eqb c dquote = false /\
  is_nl c = false /\ Ascii.eqb c LF = false.
Proof.
  unfold special, is_nl. intros Hs.
  apply orb_false_iff in Hs as [Hs Hnl].
  apply orb_false_iff in Hs as [Hc Hq].
  pose proof Hnl as Hnl'. apply orb_false_iff in Hnl' as [Hlf _].
  auto.
Qed.

Lemma needs_quote_cons c f :
  needs_quote (String c f) = false -> special c = false /\ needs_quote f = false.
Proof. simpl. apply orb_false_iff. Qed.

(** *** Single steps of the automaton *)

Definition is_start (s : pstate) : Prop := s = START_RECORD \/ s = START_FIELD.

Lemma step_start_plain s0 fs c :
  is_start s0 -> special c = false ->
  parse_process_char (mkReader s0 EmptyString fs) (Ch c)
  = Some (mkReader IN_FIELD (String c EmptyString) fs).
Proof.
  intros [-> | ->] Hc; apply special_false in Hc as (Hco & Hq & Hnl & _);
    unfold parse_process_char, start_field; cbn [state];
    now rewrite Hnl, Hq, Hco.
Qed.

Lemma step_start_dquote s0 fs :
  is_start s0 ->
  parse_process_char (mkReader s0 EmptyString fs) (Ch dquote)
  = Some (mkReader IN_QUOTED_FIELD EmptyString fs).
Proof. now intros [-> | ->]. Qed.

Lemma step_start_comma s0 fs :
  is_start s0 ->
  parse_process_char (mkReader s0 EmptyString fs) (Ch comma)
  = Some (mkReader START_FIELD EmptyString (fs ++ [EmptyString])).
Proof. now intros [-> | ->]. Qed.

Lemma step_start_field_cr fs :
  parse_process_char (mkReader START_FIELD EmptyString fs) (Ch CR)
  = Some (mkReader EAT_CRNL EmptyString (fs ++ [EmptyString])).
Proof. reflexivity. Qed.

Lemma step_in_field_plain p fs c :
  special c = false ->
  parse_process_char (mkReader IN_FIELD p fs) (Ch c)
  = Some (mkReader IN_FIELD (p ++ String c EmptyString) fs).
Proof.
  intros Hc. apply special_false in Hc as (Hco & Hq & Hnl & _).
  unfold parse_process_char. cbn [state]. now rewrite Hnl, Hco.
Qed.

Lemma step_in_field_comma p fs :
  parse_process_char (mkReader IN_FIELD p fs) (Ch comma)
  = Some (mkReader START_FIELD EmptyString (fs ++ [p])).
Proof. reflexivity. Qed.

Lemma step_in_field_cr p fs :
  parse_process_char (mkReader IN_FIELD p fs) (Ch CR)
  = Some (mkReader EAT_CRNL EmptyString (fs ++ [p])).
Proof. reflexivity. Qed.

Lemma step_quoted_other p fs c :
  Ascii.eqb c dquote = false ->
  parse_process_char (mkReader IN_QUOTED_FIELD p fs) (Ch c)
  = Some (mkReader IN_QUOTED_FIELD (p ++ String c EmptyString) fs).
Proof. intros Hq. unfold parse_process_char. cbn [state]. now rewrite Hq. Qed.

Lemma step_quoted_dquote p fs :
  parse_process_char (mkReader IN_QUOTED_FIELD p fs) (Ch dquote)
  = Some (mkReader QUOTE_IN_QUOTED_FIELD p fs).
Proof. reflexivity. Qed.

Lemma step_quote_dquote p fs :
  parse_process_char (mkReader QUOTE_IN_QUOTED_FIELD p fs) (Ch dquote)
  = Some (mkReader IN_QUOTED_FIELD (p ++ String dquote EmptyString) fs).
Proof. reflexivity. Qed.

Lemma step_quote_comma p fs :
  parse_process_char (mkReader QUOTE_IN_QUOTED_FIELD p fs) (Ch comma)
  = Some (mkReader START_FIELD EmptyString (fs ++ [p])).
Proof. reflexivity. Qed.

Lemma step_quote_cr p fs :
  parse_process_char (mkReader QUOTE_IN_QUOTED_FIELD p fs) (Ch CR)
  = Some (mkReader EAT_CRNL EmptyString (fs ++ [p])).
Proof. reflexivity. Qed.

(** The line feed that ends a record, after the carriage return. *)
Lemma read_rows_eat_lf fs m rest :
  read_rows (mkReader EAT_CRNL EmptyString fs) m (String LF rest)
  = cons_row fs (read_rows parse_reset false rest).
Proof. now rewrite read_rows_step. Qed.

(** *** Fields *)

Lemma in_field_plain f : forall p fs m c rest,
  needs_quote f = false ->
  read_rows (mkReader IN_FIELD p fs) m (f ++ String c rest)
  = read_rows (mkReader IN_FIELD (p ++ f) fs) true (String c rest).
Proof.
  induction f as [|a f IH]; intros p fs m c rest Hq.
  - rewrite append_nil_r. apply read_rows_midline.
  - apply needs_quote_cons in Hq as [Ha Hf].
    change (String a f ++ String c rest) with (String a (f ++ String c rest)).
    rewrite read_rows_step, (step_in_field_plain _ _ _ Ha).
    destruct (special_false _ Ha) as (_ & _ & _ & Hlf). rewrite Hlf.
    rewrite IH by exact Hf. now rewrite append_snoc.
Qed.

Lemma in_quoted_field f : forall p fs m c rest,
  read_rows (mkReader IN_QUOTED_FIELD p fs) m
            (double_quotes f ++ String dquote (String c rest))
  = read_rows (mkReader QUOTE_IN_QUOTED_FIELD (p ++ f) fs) true
              (String c rest).
Proof.
  induction f as [|a f IH]; intros p fs m c rest.
  - cbn [double_quotes append].
    rewrite read_rows_step, step_quoted_dquote, append_nil_r. reflexivity.
  - cbn [double_quotes].
    destruct (Ascii.eqb_spec a dquote) as [->|Hne].
    + cbn [append].
      rewrite read_rows_step, step_quoted_dquote.
      change (Ascii.eqb dquote LF) with false. cbv iota.
      rewrite read_rows_step, step_quote_dquote.
      change (Ascii.eqb dquote LF) with false. cbv iota.
      rewrite IH. now rewrite append_snoc.
    + cbn [append].
      assert (Hq : Ascii.eqb a dquote = false)
        by (now apply Ascii.eqb_neq).
      rewrite read_rows_step, (step_quoted_other _ _ _ Hq).
      destruct (Ascii.eqb a LF).
      * cbn [parse_process_char state is_START_RECORD].
        rewrite IH. now rewrite append_snoc.
      * rewrite IH. now rewrite append_snoc.
Qed.

(** Where the reader stands once it has read the text of field [f],
    started in state [s0] with the fields [fs] before it. *)
Definition after_field (s0 : pstate) (fs : list string) (f : string)
    (r : reader) : Prop :=
  (f = EmptyString /\ r = mkReader s0 EmptyString fs) \/
  (f <> EmptyString /\ r = mkReader IN_FIELD f fs) \/
  r = mkReader QUOTE_IN_QUOTED_FIELD f fs.

Lemma read_field s0 fs f m c rest :
  is_start s0 ->
  exists r1,
    after_field s0 fs f r1 /\
    (write_field f = EmptyString -> r1 = mkReader s0 EmptyString fs) /\
    (write_field f <> EmptyString -> r1 <> mkReader s0 EmptyString fs) /\
    read_rows (mkReader s0 EmptyString fs) m (write_field f ++ String c rest)
    = read_rows r1 true (String c rest).
Proof.
  intros Hs0. unfold write_field.
  destruct (needs_quote f) eqn:Hq.
  - exists (mkReader QUOTE_IN_QUOTED_FIELD f fs).
    split; [right; right; reflexivity|].
    split; [discriminate|].
    split; [destruct Hs0 as [-> | ->]; discriminate|].
    cbn [append]. rewrite append_assoc. cbn [append].
    rewrite read_rows_step, (step_start_dquote _ _ Hs0).
    change (Ascii.eqb dquote LF) with false. cbv iota.
    now rewrite in_quoted_field.
  - destruct f as [|a f].
    + exists (mkReader s0 EmptyString fs).
      split; [left; split; reflexivity|].
      split; [reflexivity|]. split; [congruence|].
      cbn [append]. apply read_rows_midline.
    + exists (mkReader IN_FIELD (String a f) fs).
      split; [right; left; split; [discriminate|reflexivity]|].
      split; [discriminate|].
      split; [destruct Hs0 as [-> | ->]; discriminate|].
      apply needs_quote_cons in Hq as [Ha Hf].
      cbn [append].
      rewrite read_rows_step, (step_start_plain _ _ _ Hs0 Ha).
      destruct (special_false _ Ha) as (_ & _ & _ & Hlf). rewrite Hlf.
      now rewrite in_field_plain.
Qed.

Lemma after_field_comma s0 fs f r1 m rest :
  is_start s0 -> after_field s0 fs f r1 ->
  read_rows r1 m (String comma rest)
  = read_rows (mkReader START_FIELD EmptyString (fs ++ [f])) true rest.
Proof.
  intros Hs0 [[-> ->]|[[_ ->]| ->]]; rewrite read_rows_step.
  - now rewrite (step_start_comma _ _ Hs0).
  - now rewrite step_in_field_comma.
  - now rewrite step_quote_comma.
Qed.

Lemma after_field_crlf s0 fs f r1 m rest :
  after_field s0 fs f r1 ->
  r1 <> mkReader START_RECORD EmptyString fs ->
  is_start s0 ->
  read_rows r1 m (lineterminator ++ rest)
  = cons_row (fs ++ [f]) (read_rows parse_reset false rest).
Proof.
  intros Hafter Hne Hs0. unfold lineterminator. cbn [append].
  destruct Hafter as [[-> ->]|[[_ ->]| ->]]; rewrite read_rows_step.
  - destruct Hs0 as [-> | ->]; [congruence|].
    rewrite step_start_field_cr.
    change (Ascii.eqb CR LF) with false. cbv iota.
    apply read_rows_eat_lf.
  - rewrite step_in_field_cr.
    change (Ascii.eqb CR LF) with false. cbv iota.
    apply read_rows_eat_lf.
  - rewrite step_quote_cr.
    change (Ascii.eqb CR LF) with false. cbv iota.
    apply read_rows_eat_lf.
Qed.

End csv_facts.

Module csv_round_trip.
Import Csv csv_facts.

(** The text of the fields of a record, before the line terminator. *)
Definition row_text (l : list string) : string :=
  join (String comma EmptyString) (map write_field l).

Lemma row_text_cons2 f f2 l :
  row_text (f :: f2 :: l)
  = write_field f ++ String comma (row_text (f2 :: l)).
Proof. reflexivity. Qed.

Lemma append_not_empty (s : string) c t : s ++ String c t <> EmptyString.
Proof. destruct s; discriminate. Qed.

Lemma write_field_empty f : write_field f = EmptyString -> f = EmptyString.
Proof.
  unfold write_field. destruct (needs_quote f); [discriminate|auto].
Qed.

Lemma writerow_rec row :
  row_text row <> EmptyString ->
  writerow row = row_text row ++ lineterminator.
Proof.
  unfold writerow. fold (row_text row). intros Hne.
  destruct row; destruct (row_text _); congruence.
Qed.

Lemma after_field_started fs f r1 :
  after_field START_FIELD fs f r1 -> r1 <> mkReader START_RECORD EmptyString fs.
Proof. intros [[_ ->]|[[_ ->]| ->]]; discriminate. Qed.

Lemma start_field_is_start : is_start START_FIELD.
Proof. now right. Qed.

Lemma start_record_is_start : is_start START_RECORD.
Proof. now left. Qed.

(** The fields of a record, read from the start of a field. *)
Lemma read_record_fields l : forall fs m rest,
  l <> [] ->
  read_rows (mkReader START_FIELD EmptyString fs) m
            (row_text l ++ lineterminator ++ rest)
  = cons_row (fs ++ l) (read_rows parse_reset false rest).
Proof.
  induction l as [|f l IH]; intros fs m rest Hne; [congruence|].
  destruct l as [|f2 l].
  - change (row_text [f]) with (write_field f).
    change (lineterminator ++ rest) with (String CR (String LF rest)).
    destruct (read_field START_FIELD fs f m CR (String LF rest)
                start_field_is_start) as (r1 & Hafter & _ & _ & ->).
    apply (after_field_crlf START_FIELD fs f r1 true rest Hafter).
    + exact (after_field_started fs f r1 Hafter).
    + exact start_field_is_start.
  - rewrite row_text_cons2, append_assoc.
    change (String comma (row_text (f2 :: l)) ++ lineterminator ++ rest)
      with (String comma (row_text (f2 :: l) ++ lineterminator ++ rest)).
    destruct (read_field START_FIELD fs f m comma
                (row_text (f2 :: l) ++ lineterminator ++ rest)
                start_field_is_start) as (r1 & Hafter & _ & _ & ->).
    rewrite (after_field_comma START_FIELD fs f r1 true _
               start_field_is_start Hafter).
    rewrite IH by discriminate.
    now rewrite <- app_assoc.
Qed.

(** One record written, then read. *)
Lemma read_writerow row rest :
  read_rows parse_reset false (writerow row ++ rest)
  = cons_row row (read_rows parse_reset false rest).
Proof.
  destruct row as [|f l].
  - change (writerow [] ++ rest) with (String CR (String LF rest)).
    rewrite read_rows_step.
    change (parse_process_char parse_reset (Ch CR))
      with (Some (mkReader EAT_CRNL EmptyString [])).
    change (Ascii.eqb CR LF) with false. cbv iota.
    apply read_rows_eat_lf.
  - destruct l as [|f2 l].
    + destruct (write_field f) eqn:Hw.
      * apply write_field_empty in Hw as ->.
        change (writerow [EmptyString] ++ rest)
          with (String dquote (String dquote (String CR (String LF rest)))).
        rewrite read_rows_step.
        change (parse_process_char parse_reset (Ch dquote))
          with (Some (mkReader IN_QUOTED_FIELD EmptyString [])).
        change (Ascii.eqb dquote LF) with false. cbv iota.
        rewrite read_rows_step, step_quoted_dquote.
        change (Ascii.eqb dquote LF) with false. cbv iota.
        rewrite read_rows_step, step_quote_cr.
        change (Ascii.eqb CR LF) with false. cbv iota.
        apply read_rows_eat_lf.
      * rewrite writerow_rec
          by (change (row_text [f]) with (write_field f); rewrite Hw;
              discriminate).
        change (row_text [f]) with (write_field f).
        rewrite append_assoc.
        change (lineterminator ++ rest) with (String CR (String LF rest)).
        destruct (read_field START_RECORD [] f false CR (String LF rest)
                    start_record_is_start) as (r1 & Hafter & _ & Hne & Hr).
        unfold parse_reset. rewrite Hr.
        apply (after_field_crlf START_RECORD [] f r1 true rest Hafter).
        -- apply Hne. rewrite Hw. discriminate.
        -- exact start_record_is_start.
    + rewrite writerow_rec
        by (rewrite row_text_cons2; apply append_not_empty).
      rewrite row_text_cons2, !append_assoc.
      change (String comma (row_text (f2 :: l)) ++ lineterminator ++ rest)
        with (String comma (row_text (f2 :: l) ++ lineterminator ++ rest)).
      destruct (read_field START_RECORD [] f false comma
                  (row_text (f2 :: l) ++ lineterminator ++ rest)
                  start_record_is_start) as (r1 & Hafter & _ & _ & Hr).
      unfold parse_reset. rewrite Hr.
      rewrite (after_field_comma START_RECORD [] f r1 true _
                 start_record_is_start Hafter).
      now rewrite read_record_fields by discriminate.
Qed.

(** The reader yields the rows the writer was given, and ends without
    error. *)
Theorem reader_writer (rows : list (list string)) :
  reader_rows (write_table rows) = (rows, Exhausted).
Proof.
  unfold reader_rows.
  induction rows as [|row rows IH]; [reflexivity|].
  cbn [write_table fold_right].
  fold (write_table rows).
  now rewrite read_writerow, IH.
Qed.

End csv_round_trip.

(** ** Dictionaries filled by a loop *)

Section DictLoop.
Context {V : Type}.

(** [for k, v in l: d[k] = v] *)
Definition set_all (l : list (string * V)) (d : dict V) : dict V :=
  fold_left (fun d kv => dict_set d (fst kv) (snd kv)) l d.

Lemma set_all_app l1 l2 d : set_all (l1 ++ l2) d = set_all l2 (set_all l1 d).
Proof. apply fold_left_app. Qed.

Lemma set_all_get_other l : forall d k,
  ~ In k (map fst l) -> dict_get (set_all l d) k = dict_get d k.
Proof.
  induction l as [|[k0 v0] l IH]; intros d k Hnotin; [reflexivity|].
  cbn [set_all fold_left fst snd]. fold (set_all l (dict_set d k0 v0)).
  rewrite IH by (simpl in Hnotin; tauto).
  apply dict_get_set_neq. simpl in Hnotin. tauto.
Qed.

(** The last assignment to a key is the one that stays. *)
Lemma set_all_get_last l1 k v l2 d :
  ~ In k (map fst l2) ->
  dict_get (set_all (l1 ++ (k, v) :: l2) d) k = Some v.
Proof.
  intros Hnotin. rewrite set_all_app.
  cbn [set_all fold_left fst snd]. fold (set_all l2 (dict_set (set_all l1 d) k v)).
  rewrite set_all_get_other by exact Hnotin.
  apply dict_get_set_eq.
Qed.

Lemma set_all_keys l : forall d k,
  In k (dict_keys (set_all l d)) <-> In k (map fst l) \/ In k (dict_keys d).
Proof.
  induction l as [|[k0 v0] l IH]; intros d k.
  - simpl. tauto.
  - cbn [set_all fold_left fst snd]. fold (set_all l (dict_set d k0 v0)).
    rewrite IH, dict_keys_set_in. simpl. intuition.
Qed.

Lemma set_all_wf l : forall d, dict_wf d -> dict_wf (set_all l d).
Proof.
  induction l as [|[k0 v0] l IH]; intros d Hd; [exact Hd|].
  cbn [set_all fold_left fst snd]. apply IH. now apply dict_set_wf.
Qed.

(** Distinct new keys are appended in order. *)
Lemma set_all_fresh l : forall d,
  NoDup (map fst l) ->
  (forall k, In k (map fst l) -> ~ In k (dict_keys d)) ->
  set_all l d = (d ++ l)%list.
Proof.
  induction l as [|[k0 v0] l IH]; intros d Hnd Hfresh.
  - now rewrite app_nil_r.
  - cbn [set_all fold_left fst snd]. fold (set_all l (dict_set d k0 v0)).
    inversion Hnd as [|? ? Hk0 Hnd']; subst.
    rewrite (dict_set_fresh d k0 v0) by (apply Hfresh; now left).
    rewrite IH.
    + now rewrite <- app_assoc.
    + exact Hnd'.
    + intros k Hk Hin. unfold dict_keys in Hin. rewrite map_app in Hin.
      apply in_app_or in Hin as [Hin|[<-|[]]].
      * apply (Hfresh k); [now right|exact Hin].
      * contradiction.
Qed.

End DictLoop.

(** ** The loops of [_parse_csv] *)


Section ParseLoops.
Context {V : Type} `{Float V}.
Import poller.

(** The assignments [data[sw] = vals] the loop over the rows makes. *)
Definition row_entries (flds : list string) (rest : list (list string))
  : list (string * dict V) :=
  flat_map (fun row => match row with
                       | [] => []
                       | sw :: _ => [(sw, row_values flds row)]
                       end) rest.

(** The assignments [vals[name] = ...] the loop over the fields makes. *)
Definition cell_entries (flds : list string) (row : list string)
  : list (string * V) :=
  map (fun ix => (snd ix, cell_value row (fst ix))) (enumerate flds).

Lemma parse_loop flds rest : forall data,
  fold_left (add_row flds) rest data = set_all (row_entries flds rest) data.
Proof.
  induction rest as [|row rest IH]; intros data; [reflexivity|].
  cbn [fold_left row_entries flat_map]. rewrite IH.
  destruct row as [|sw cells]; reflexivity.
Qed.

Lemma row_values_set_all flds row :
  row_values flds row = set_all (cell_entries flds row) [].
Proof.
  unfold row_values, cell_entries, set_all.
  generalize (@nil (string * V)) as d. generalize (enumerate flds) as l.
  induction l as [|[idx name] l IH]; intros d; [reflexivity|].
  cbn [fold_left map fst snd]. apply IH.
Qed.

Lemma row_entries_app flds r1 r2 :
  row_entries flds (r1 ++ r2) = (row_entries flds r1 ++ row_entries flds r2)%list.
Proof. apply flat_map_app. Qed.

Lemma row_entries_keys flds rest k :
  In k (map fst (row_entries flds rest)) <-> exists cells, In (k :: cells) rest.
Proof.
  induction rest as [|row rest IH].
  - simpl. split; [intros []|intros [? []]].
  - cbn [row_entries flat_map]. fold (row_entries flds rest).
    rewrite map_app, in_app_iff, IH.
    destruct row as [|sw cells]; simpl.
    + split.
      * intros [[]|[c Hc]]. eauto.
      * intros [c [Hc|Hc]]; [discriminate|eauto].
    + split.
      * intros [[<-|[]]|[c Hc]]; eauto.
      * intros [c [[= -> ->]|Hc]]; eauto.
Qed.


Lemma enumerate_from_app {A} (l1 : list A) : forall s x l2,
  combine (seq s (List.length (l1 ++ x :: l2))) (l1 ++ x :: l2)
  = (combine (seq s (List.length l1)) l1
     ++ (s + List.length l1, x)%nat
        :: combine (seq (S (s + List.length l1)) (List.length l2)) l2)%list.
Proof.
  induction l1 as [|a l1 IH]; intros s x l2.
  - cbn. now rewrite Nat.add_0_r.
  - simpl. rewrite IH. simpl. now rewrite Nat.add_succ_r.
Qed.

Lemma combine_seq_snd {A} (l : list A) : forall s,
  map snd (combine (seq s (List.length l)) l) = l.
Proof. induction l; intros s; cbn; [reflexivity|now rewrite IHl]. Qed.

(** The value of a field is read from the cell in its column; when a name
    occurs twice in the header the last column stays. *)
Lemma row_values_get l1 name l2 row :
  ~ In name l2 ->
  dict_get (row_values (l1 ++ name :: l2) row) name
  = Some (cell_value row (List.length l1)).
Proof.
  intros Hnotin. rewrite row_values_set_all.
  unfold cell_entries, enumerate. rewrite enumerate_from_app, map_app.
  cbn [map fst snd]. apply set_all_get_last.
  rewrite map_map. cbn [fst snd].
  now rewrite combine_seq_snd.
Qed.

(** The entry of an id is made from the last row that carries it. *)
Lemma parse_loop_get flds before id cells after :
  (forall cells', ~ In (id :: cells') after) ->
  dict_get (fold_left (add_row flds) (before ++ (id :: cells) :: after) []) id
  = Some (row_values flds (id :: cells)).
Proof.
  intros Hlast. rewrite parse_loop, row_entries_app.
  cbn [row_entries flat_map]. fold (row_entries flds after).
  cbn [app]. apply set_all_get_last.
  intros Hin. apply row_entries_keys in Hin as [c Hc]. eapply Hlast, Hc.
Qed.

Lemma parse_loop_keys flds rest id :
  In id (dict_keys (fold_left (add_row flds) rest []))
  <-> exists cells, In (id :: cells) rest.
Proof.
  rewrite parse_loop, set_all_keys, row_entries_keys. simpl. tauto.
Qed.

Lemma parse_loop_wf flds rest : dict_wf (fold_left (add_row flds) rest []).
Proof. rewrite parse_loop. apply set_all_wf. constructor. Qed.

End ParseLoops.


(** A payload with a cell that is no number, a row that is too short and a
    blank row. *)
Definition ragged_rows : list (list string) :=
  [ ["switch_id"; "latency_us"; "packet_errors"];
    ["sw-000"; "NaNtext"; "4"];
    [];
    ["sw-001"; "12"] ].



(** C9. Rows with the same id raise no error: the parsed data has no id
    twice, has an entry for exactly the ids that head a data row, and the
    entry of an id holds the values of the last row that carries it. *)
Theorem C9_duplicate_ids_last_wins
    {V : Type} `{Float V} (csv_text : string) (hdrs : http.Headers)
    (flds : list string) (rest : list (list string)) (ts : Z) :
  Csv.reader_rows csv_text = (("switch_id" :: flds) :: rest, Csv.Exhausted) ->
  int_of_str (http.get hdrs "X-Snapshot-Ts" "0") = Some ts ->
  exists snap,
    poller._parse_csv (V := V) csv_text hdrs = Ok snap /\
    NoDup (dict_keys (store.data snap)) /\
    (forall id, In id (dict_keys (store.data snap))
                <-> exists cells, In (id :: cells) rest) /\
    (forall before id cells after,
       rest = (before ++ (id :: cells) :: after)%list ->
       (forall cells', ~ In (id :: cells') after) ->
       dict_get (store.data snap) id
       = Some (poller.row_values flds (id :: cells))).
Proof.
  intros Hr Hts. rewrite (parse_csv_rows _ _ _ _ _ Hr Hts).
  eexists. split; [reflexivity|].
  cbn [store.meta store.data].
  split; [apply parse_loop_wf|]. split.
  - intros id. apply parse_loop_keys.
  - intros before id cells after -> Hlast. now apply parse_loop_get.
Qed.

Definition repeated_id_rows : list (list string) :=
  [ ["switch_id"; "latency_us"];
    ["sw-000"; "10"];
    ["sw-001"; "11"];
    ["sw-000"; "99"] ].

Lemma C9_duplicate_ids_last_wins_witness :
  exists snap,
    poller._parse_csv (V := Z) (write_table repeated_id_rows) sample_headers
    = Ok snap /\
    NoDup (dict_keys (store.data snap)) /\
    dict_get (store.data snap) "sw-000" = Some [("latency_us", 99)].
Proof.
  destruct (C9_duplicate_ids_last_wins (V := Z) (write_table repeated_id_rows)
              sample_headers ["latency_us"] (tl repeated_id_rows)
              1700000000000)
    as (snap & Hparse & Hnodup & _ & Hlast).
  - apply (csv_round_trip.reader_writer repeated_id_rows).
  - reflexivity.
  - exists snap. split; [exact Hparse|]. split; [exact Hnodup|].
    apply (Hlast [["sw-000"; "10"]; ["sw-001"; "11"]] "sw-000" ["99"] []).
    + reflexivity.
    + intros cells' [].
Defined.

(** ** The conditional read, with the body it sends *)

Section TableLines.
Context {V : Type} `{Float V}.

Lemma data_lines_nth flds (rows : dict (dict V)) i sw vals :
  nth_error rows i = Some (sw, vals) ->
  nth_error (data_lines flds rows) i = Some (sw :: cells_of vals flds).
Proof. intros Hi. unfold data_lines. now rewrite nth_error_map, Hi. Qed.

Lemma cells_of_nth (vals : dict V) flds j k v :
  nth_error flds j = Some k -> dict_get vals k = Some v ->
  nth_error (cells_of vals flds) j = Some (float_str v).
Proof.
  intros Hj Hv. unfold cells_of. rewrite nth_error_map, Hj. cbn.
  now rewrite Hv.
Qed.

End TableLines.

(** C3. A read of a published snapshot of version [sid] with client token
    [inm] answers 304 with no body and [ETag = str(sid)] when the token
    equals [str(sid)], and otherwise (another, an empty or no token) 200
    with the same [ETag] and the full current snapshot as body: the text
    of the header line [switch_id] and the field names followed by one
    line per row, in the order of the rows, each the id of the row and
    the text of its values in the order of the fields, which the csv
    reader cuts into exactly these lines.  This is the answer of
    [counters] when no failure is injected (the default); and a poller
    that is answered 304 leaves its store as it was. *)
Theorem C3_conditional_read
    {V : Type} `{Float V} (sid ts : Z) (flds : list string)
    (rows : dict (dict V)) (inm : option string) :
  rows_complete flds rows ->
  let snapshot : simulator.Snapshot V := (sid, ts, flds, rows) in
  let hdrs := [ ("ETag", str_int sid); ("X-Snapshot-Ts", str_int ts);
                ("Cache-Control", "no-store") ] in
  let table := ("switch_id" :: flds) :: data_lines flds rows in
  (inm = Some (str_int sid) ->
     data_app.conditional_read snapshot inm
     = Ok (http.mkResponse 304 EmptyString hdrs)) /\
  (inm <> Some (str_int sid) ->
     data_app._to_csv snapshot = Ok (write_table table) /\
     data_app.conditional_read snapshot inm
     = Ok (http.mkResponse 200 (write_table table) hdrs)) /\
  Csv.reader_rows (write_table table) = (table, Csv.Exhausted) /\
  List.length (data_lines flds rows) = List.length rows /\
  (forall i sw vals,
     nth_error rows i = Some (sw, vals) ->
     exists cells,
       nth_error (data_lines flds rows) i = Some (sw :: cells) /\
       List.length cells = List.length flds /\
       forall j k,
         nth_error flds j = Some k ->
         exists v, dict_get vals k = Some v /\
                   nth_error cells j = Some (float_str v)) /\
  http.get hdrs "ETag" EmptyString = str_int sid /\
  (forall (G : Type) (R : Random G) (cfg : data_app.Config) (g : G),
     data_app.FAULT_500_PCT cfg = 0 ->
     fst (data_app.counters cfg snapshot inm g)
     = data_app.conditional_read snapshot inm) /\
  (forall (p : poller.Poller V) r tm,
     http.status_code r = 304 ->
     exists p' log,
       poller.run_cycle p (Ok r) tm = Ok (p', log) /\
       poller.store p' = poller.store p).
Proof.
  intros Hc snapshot hdrs table.
  split; [|split; [|split; [|split; [|split; [|split; [reflexivity|split]]]]]].
  - intros ->. unfold data_app.conditional_read, snapshot.
    rewrite String.eqb_refl.
    destruct (String.eqb_spec (str_int sid) EmptyString) as [E|_].
    + now apply str_int_nonempty in E.
    + reflexivity.
  - intros Hne. split.
    + apply (to_csv_complete sid ts flds rows Hc).
    + unfold data_app.conditional_read, snapshot.
      rewrite (to_csv_complete sid ts flds rows Hc).
      destruct inm as [t|]; [|reflexivity].
      destruct (String.eqb_spec t (str_int sid)) as [->|_];
        [congruence|].
      now rewrite andb_false_r.
  - apply csv_round_trip.reader_writer.
  - unfold data_lines. apply length_map.
  - intros i sw vals Hi. exists (cells_of vals flds).
    split; [now apply data_lines_nth|].
    split; [unfold cells_of; apply length_map|].
    intros j k Hj.
    destruct (Hc sw vals (nth_error_In _ _ Hi) k (nth_error_In _ _ Hj))
      as [v Hv].
    exists v. split; [exact Hv|now apply (cells_of_nth vals flds j k v)].
  - intros G R cfg g Hoff. unfold data_app.counters. now rewrite Hoff.
  - intros p r tm H304.
    destruct (cycle.unchanged_cycle p (Ok r) tm) as (p' & log & Hr & Hs & _).
    { unfold cycle.classify. now rewrite H304. }
    eauto.
Qed.

(** The scenario of the specification: the cache is at version 7; token 7
    is answered 304, token 6 the full payload with token 7: a header line
    and the lines of the two switches. *)
Lemma C3_conditional_read_witness :
  data_app.conditional_read (7, 1700000000000, ["cpu_util_pct"], sample_rows)
    (Some "7")
  = Ok (http.mkResponse 304 EmptyString
          [ ("ETag", "7"); ("X-Snapshot-Ts", "1700000000000");
            ("Cache-Control", "no-store") ]) /\
  exists csv_text,
    data_app.conditional_read (7, 1700000000000, ["cpu_util_pct"], sample_rows)
      (Some "6")
    = Ok (http.mkResponse 200 csv_text
            [ ("ETag", "7"); ("X-Snapshot-Ts", "1700000000000");
              ("Cache-Control", "no-store") ]) /\
    csv_text
    = Csv.writerow ["switch_id"; "cpu_util_pct"]
      ++ Csv.writerow ["sw-000"; "35"] ++ Csv.writerow ["sw-001"; "41"] /\
    Csv.reader_rows csv_text
    = ([ ["switch_id"; "cpu_util_pct"]; ["sw-000"; "35"]; ["sw-001"; "41"] ],
       Csv.Exhausted).
Proof.
  split.
  - apply (C3_conditional_read 7 1700000000000 ["cpu_util_pct"] sample_rows
             (Some "7") sample_rows_complete). reflexivity.
  - destruct (C3_conditional_read 7 1700000000000 ["cpu_util_pct"] sample_rows
                (Some "6") sample_rows_complete) as (_ & H6 & Hread & _).
    destruct H6 as [_ Hr]; [discriminate|].
    eexists. split; [exact Hr|]. split; [vm_compute; reflexivity|exact Hread].
Defined.

(** ** Serializing, then parsing *)

Section RoundTrip.
Context {V : Type} `{Float V}.
Import poller.

(** The runtime reads back the float it printed. *)
Hypothesis float_round_trip : forall x : V, float_of_str (float_str x) = Some x.

Lemma in_split_last (k : string) (l : list string) :
  In k l -> exists l1 l2, l = (l1 ++ k :: l2)%list /\ ~ In k l2.
Proof.
  induction l as [|a l IH]; [intros []|].
  intros Hin. destruct (in_dec string_dec k l) as [Hl|Hl].
  - destruct (IH Hl) as (l1 & l2 & -> & Hnot).
    exists (a :: l1), l2. split; [reflexivity|exact Hnot].
  - destruct Hin as [->|Hin]; [|contradiction].
    exists [], l. split; [reflexivity|exact Hl].
Qed.

(** A written row read again: each field gets back its value. *)
Lemma row_values_cells (sw : string) (vals : dict V) (flds : list string) k v :
  In k flds -> dict_get vals k = Some v ->
  dict_get (row_values flds (sw :: cells_of vals flds)) k = Some v.
Proof.
  intros Hin Hv.
  destruct (in_split_last k flds Hin) as (l1 & l2 & -> & Hnot).
  rewrite row_values_get by exact Hnot. f_equal.
  unfold cell_value. cbn [Nat.add nth_error].
  unfold cells_of. rewrite map_app. cbn [map].
  rewrite nth_error_app2 by (rewrite length_map; lia).
  rewrite length_map, Nat.sub_diag. cbn [nth_error].
  now rewrite Hv, float_round_trip.
Qed.

(** The entries the parser makes from the data lines of a snapshot. *)
Lemma row_entries_data_lines flds (rows : dict (dict V)) :
  row_entries flds (data_lines flds rows)
  = map (fun r => (fst r, row_values flds (fst r :: cells_of (snd r) flds)))
        rows.
Proof.
  induction rows as [|[sw vals] rows IH]; [reflexivity|].
  change (row_entries flds (data_lines flds ((sw, vals) :: rows)))
    with ((sw, row_values flds (sw :: cells_of vals flds))
          :: row_entries flds (data_lines flds rows)).
  now rewrite IH.
Qed.

Lemma dict_get_map_rows {A B} (g : string -> A -> B) (rows : dict A) id a :
  dict_get rows id = Some a ->
  dict_get (map (fun r => (fst r, g (fst r) (snd r))) rows) id = Some (g id a).
Proof.
  induction rows as [|[k0 a0] rows IH]; [discriminate|].
  cbn [dict_get map fst snd].
  destruct (String.eqb_spec k0 id) as [->|_]; [now intros [= ->]|exact IH].
Qed.

Lemma parse_data_lines flds (rows : dict (dict V)) :
  dict_wf rows ->
  fold_left (add_row flds) (data_lines flds rows) []
  = map (fun r => (fst r, row_values flds (fst r :: cells_of (snd r) flds)))
        rows.
Proof.
  intros Hwf. rewrite parse_loop, row_entries_data_lines.
  rewrite set_all_fresh; [reflexivity| |intros k _ []].
  rewrite map_map. cbn [fst]. exact Hwf.
Qed.

End RoundTrip.

(** C2. Round trip.  A snapshot whose rows hold a value for every field is
    serialized by [_to_csv]; parsing that text with the response headers
    [counters] sends along gives a snapshot with the same [fields] in the
    same order, the same ids, and for every id and field the value that
    was written (equal, so within any rounding tolerance), provided the
    runtime reads back the floats it prints. *)
Theorem C2_round_trip
    {V : Type} `{Float V} (sid ts : Z) (flds : list string)
    (rows : dict (dict V)) :
  (forall x : V, float_of_str (float_str x) = Some x) ->
  dict_wf rows ->
  rows_complete flds rows ->
  exists csv_text snap,
    data_app._to_csv (sid, ts, flds, rows) = Ok csv_text /\
    poller._parse_csv csv_text
      [ ("ETag", str_int sid); ("X-Snapshot-Ts", str_int ts);
        ("Cache-Control", "no-store") ] = Ok snap /\
    store.fields (store.meta snap) = flds /\
    dict_keys (store.data snap) = dict_keys rows /\
    store.snapshot_id (store.meta snap) = str_int sid /\
    store.ts_ms (store.meta snap) = ts /\
    (forall id vals k v,
       dict_get rows id = Some vals -> In k flds -> dict_get vals k = Some v ->
       exists vals',
         dict_get (store.data snap) id = Some vals' /\
         dict_get vals' k = Some v).
Proof.
  intros Hfloat Hwf Hcomplete.
  set (hdrs := [ ("ETag", str_int sid); ("X-Snapshot-Ts", str_int ts);
                 ("Cache-Control", "no-store") ]).
  eexists _, _. split; [apply (to_csv_complete sid ts flds rows Hcomplete)|].
  assert (Hts : int_of_str (http.get hdrs "X-Snapshot-Ts" "0") = Some ts).
  { change (http.get hdrs "X-Snapshot-Ts" "0") with (str_int ts).
    apply int_of_str_str_int. }
  rewrite (parse_csv_rows _ hdrs flds (data_lines flds rows) ts
             (csv_round_trip.reader_writer _) Hts).
  split; [reflexivity|].
  cbn [store.meta store.data store.fields store.snapshot_id store.ts_ms].
  rewrite (parse_data_lines flds rows Hwf).
  split; [reflexivity|]. split; [|split; [|split; [reflexivity|]]].
  - unfold dict_keys. rewrite map_map. reflexivity.
  - change (http.get hdrs "ETag" EmptyString) with (str_int sid).
    destruct (String.eqb_spec (str_int sid) EmptyString) as [E|_];
      [|reflexivity].
    now apply str_int_nonempty in E.
  - intros id vals k v Hid Hk Hv.
    exists (poller.row_values flds (id :: cells_of vals flds)).
    split.
    + apply (dict_get_map_rows
               (fun sw vals => poller.row_values flds (sw :: cells_of vals flds))
               rows id vals Hid).
    + now apply row_values_cells.
Qed.

(** The sample snapshot goes through the wire unchanged. *)
Lemma C2_round_trip_witness :
  exists csv_text snap,
    data_app._to_csv (7, 1700000000000, ["cpu_util_pct"], sample_rows)
    = Ok csv_text /\
    poller._parse_csv (V := Z) csv_text sample_headers = Ok snap /\
    store.fields (store.meta snap) = ["cpu_util_pct"] /\
    dict_keys (store.data snap) = ["sw-000"; "sw-001"].
Proof.
  destruct (C2_round_trip (V := Z) 7 1700000000000 ["cpu_util_pct"]
              sample_rows whole_cells_round_trip)
    as (csv_text & snap & Hcsv & Hparse & Hfields & Hkeys & _).
  - repeat constructor; simpl; intuition discriminate.
  - exact sample_rows_complete.
  - exists csv_text, snap. repeat split; assumption.
Defined.

(** ** Generated tables *)

(** Cells with two decimals for the scripted runs: printed in the shortest
    form that [repr] gives such a float ([120.0], [100.5], [47.12]), read
    from plain decimal notation (sign, digits, point, digits). *)
Definition str_two_decimals (q : Q) : string :=
  let h := simulator.round_half_even (q * 100) in
  let a := Z.abs h in
  let frac := a mod 100 in
  (if h <? 0 then "-" else EmptyString)
  ++ str_int (a / 100) ++ "."
  ++ (if frac mod 10 =? 0 then str_int (frac / 10)
      else simulator.zero_pad 2 (str_int frac)).

Fixpoint split_point (s : string) : string * option string :=
  match s with
  | EmptyString => (EmptyString, None)
  | String c s' =>
      if Ascii.eqb c "." then (EmptyString, Some s')
      else let (a, b) := split_point s' in (String c a, b)
  end.

Definition decimal_of_str (s : string) : option Q :=
  let t := Py.strip s in
  let (negative, body) :=
    match t with
    | String c r =>
        if Ascii.eqb c "-" then (true, r)
        else if Ascii.eqb c "+" then (false, r) else (false, t)
    | EmptyString => (false, t)
    end in
  let (whole, frac) := split_point body in
  let magnitude :=
    match frac with
    | None => option_map inject_Z (Py.digits_value whole)
    | Some f =>
        match Py.digits_value whole, Py.digits_value f with
        | Some a, Some b =>
            Some (inject_Z a + inject_Z b / inject_Z (10 ^ Z.of_nat (String.length f)))%Q
        | _, _ => None
        end
    end in
  option_map (fun m => if negative then (- m)%Q else m) magnitude.

#[local] Instance decimal_cells : Float Q := {
  float_zero := 0%Q;
  float_str := str_two_decimals;
  float_of_str := decimal_of_str
}.

Example str_two_decimals_samples :
  map str_two_decimals [120; 201 # 2; 4712 # 100; - (5 # 100); 0]%Q
  = ["120.0"; "100.5"; "47.12"; "-0.05"; "0.0"].
Proof. vm_compute. reflexivity. Qed.

Example decimal_of_str_samples :
  map (option_map Qred) (map decimal_of_str ["100.5"; "-0.05"; "12"; "NaNtext"])
  = [Some (201 # 2); Some (- (1 # 20)); Some 12; None]%Q.
Proof. vm_compute. reflexivity. Qed.

Module table_facts.
Import simulator generator_facts snapshot_facts.








Section WithRandom.
Context {G : Type} `{Random G} `{MathLib}.


End WithRandom.
End table_facts.




(** ** When the generator returns

    The loop of [_poisson_small] ends as soon as the product of the draws
    is at most [exp(-lam)].  For [lam] between 0.6 and 1.5 that bound is
    above one eighth; with a source whose draws never exceed one half,
    three turns suffice, so any fuel from 3 on gives a snapshot. *)

Module returns.
Import simulator simulator_facts generator_facts.

#[local] Open Scope Q_scope.

Fixpoint reach (fuel : nat) : Q :=
  match fuel with
  | O => 1 # 8
  | S fuel' => 2 * reach fuel'
  end.

Lemma reach_three fuel : (3 <= fuel)%nat -> 1 <= reach fuel.
Proof.
  induction 1 as [|fuel Hle IH]; [vm_compute; discriminate|].
  cbn [reach]. lra.
Qed.

Section WithRandom.
Context {G : Type} `{Random G} `{MathLib}.
Hypothesis contract : random_contract G.
Hypothesis small_draws : forall g, fst (random g) <= 1 # 2.
Hypothesis exp_bound : forall x, - (3 # 2) <= x -> x <= 0 -> 1 # 8 <= math_exp x.

Definition total {A} (m : M (G := G) A) : Prop :=
  forall g, exists a g', m g = Some (a, g').

Lemma total_ret {A} (a : A) : total (ret a).
Proof. intros g. now exists a, g. Qed.

Lemma total_lift {A} (f : G -> A * G) : total (lift f).
Proof. intros g. exists (fst (f g)), (snd (f g)). unfold lift. now destruct (f g). Qed.

Lemma total_bind {A B} (m : M (G := G) A) (k : A -> M B) (P : A -> Prop) :
  total m -> post m P -> (forall a, P a -> total (k a)) -> total (mbind m k).
Proof.
  intros Hm Hp Hk g. destruct (Hm g) as (a & g1 & Ha).
  destruct (Hk a (Hp _ _ _ Ha) g1) as (b & g2 & Hb).
  exists b, g2. unfold mbind. now rewrite Ha.
Qed.

Lemma total_if {A} (c : bool) (m1 m2 : M (G := G) A) :
  total m1 -> total m2 -> total (if c then m1 else m2).
Proof. now destruct c. Qed.

Lemma post_small_draw :
  post (lift random) (fun u => 0 <= u /\ u <= 1 # 2).
Proof.
  intros g u g' [= Hu]. destruct contract as [Hr _].
  specialize (Hr g). specialize (small_draws g). rewrite Hu in *.
  cbn [fst] in *. tauto.
Qed.

Lemma total_uniform a b : total (uniform a b).
Proof.
  unfold uniform. eapply total_bind;
    [apply total_lift|apply post_any|intros; apply total_ret].
Qed.

Lemma total_poisson_loop fuel : forall L k p,
  1 # 8 <= L -> p <= reach fuel -> total (poisson_loop fuel L k p).
Proof.
  induction fuel as [|fuel IH]; intros L k p HL Hp; cbn [poisson_loop reach] in *.
  - destruct (Qltb L p) eqn:E; [|apply total_ret].
    apply Qltb_true in E. lra.
  - destruct (Qltb L p) eqn:E; [|apply total_ret].
    apply Qltb_true in E.
    eapply total_bind; [apply total_lift|apply post_small_draw|].
    intros u [Hu0 Hu1]. apply IH; [exact HL|]. nra.
Qed.

Lemma total_poisson_small fuel lam :
  (3 <= fuel)%nat -> 0 <= lam -> lam <= 3 # 2 ->
  total (_poisson_small fuel lam).
Proof.
  intros Hfuel Hlam0 Hlam1. unfold _poisson_small.
  apply total_poisson_loop.
  - apply exp_bound; lra.
  - now apply reach_three.
Qed.

Theorem generate_row_returns fuel :
  (3 <= fuel)%nat -> total (generate_row fuel).
Proof.
  intros Hfuel. unfold generate_row.
  eapply total_bind; [apply total_lift|apply post_any|]. intros g1 _.
  eapply total_bind; [apply total_lift|apply post_any|]. intros u2 _.
  eapply total_bind; [|apply post_any|].
  { apply total_if; [apply total_uniform|].
    eapply total_bind; [apply total_lift|apply post_any|].
    intros; apply total_ret. }
  intros lat _.
  eapply total_bind; [apply total_lift|apply post_any|]. intros u3 _.
  eapply total_bind; [|apply post_any|].
  { apply total_if; [apply total_lift|].
    apply total_poisson_small; [exact Hfuel|lra|lra]. }
  intros pkt_errs _.
  eapply total_bind; [apply total_lift|apply post_any|]. intros u4 _.
  eapply total_bind; [|apply post_any|].
  { apply total_if; [apply total_uniform|].
    eapply total_bind; [apply total_lift|apply post_any|].
    intros; apply total_ret. }
  intros cpu _.
  eapply total_bind; [apply total_lift|apply post_any|]. intros g5 _.
  eapply total_bind; [apply total_lift|apply post_any|]. intros u6 _.
  eapply total_bind with (P := fun buf => 0 <= buf /\ buf <= 100).
  { apply total_if; [apply total_uniform|].
    eapply total_bind; [apply total_lift|apply post_any|].
    intros; apply total_ret. }
  { apply post_if.
    - eapply post_weaken; [apply (post_uniform contract); lra|].
      cbv beta. intros; lra.
    - eapply post_bind; [apply post_any|]. intros g6 _.
      apply post_ret, clip_range. lra. }
  intros buf [Hb0 Hb1].
  eapply total_bind; [apply total_lift|apply post_any|]. intros u7 _.
  eapply total_bind; [|apply post_any|].
  { apply total_if; [apply total_uniform|].
    eapply total_bind; [|apply post_any|intros; apply total_ret].
    apply total_poisson_small; [exact Hfuel| |].
    - assert (0 <= buf / 100) by (apply Qle_shift_div_l; lra). lra.
    - assert (buf / 100 <= 1) by (apply Qle_shift_div_r; lra). lra. }
  intros drops _.
  eapply total_bind; [apply total_lift|apply post_any|]. intros g8 _.
  apply total_ret.
Qed.

Lemma generate_rows_returns fuel indices :
  (3 <= fuel)%nat -> forall rows, total (generate_rows fuel indices rows).
Proof.
  intros Hfuel. induction indices as [|i indices IH]; intros rows.
  - apply total_ret.
  - cbn [generate_rows].
    eapply total_bind; [now apply generate_row_returns|apply post_any|].
    intros row _. apply IH.
Qed.

(** With such a source every call returns a snapshot. *)
Theorem generate_snapshot_returns fuel now_ms n_switches prev_id :
  (3 <= fuel)%nat -> total (generate_snapshot fuel now_ms n_switches prev_id).
Proof.
  intros Hfuel. unfold generate_snapshot.
  eapply total_bind; [now apply generate_rows_returns|apply post_any|].
  intros rows _. apply total_ret.
Qed.

End WithRandom.
End returns.

(** A source that always draws one half, the mean and the lower end. *)
#[local] Instance steady_random : Random unit := {
  random _ := ((1 # 2)%Q, tt);
  gauss mu sigma _ := (mu, tt);
  randint a b _ := (a, tt)
}.

Lemma steady_random_contract : random_contract unit.
Proof.
  split.
  - intros g. cbn. split; [discriminate|reflexivity].
  - intros a b g Hab. cbn. lia.
Qed.

Lemma rational_exp_bound (x : Q) :
  (- (3 # 2) <= x -> x <= 0 -> 1 # 8 <= math_exp x)%Q.
Proof.
  intros Hlo Hhi. cbn [math_exp rational_exp].
  assert (Hsq0 : (0 <= x * x)%Q) by nra.
  assert (Hsq1 : (x * x <= 9 # 4)%Q) by nra.
  set (y := (x * x)%Q) in *. clearbody y.
  assert (Hh0 : (0 <= y / 2)%Q) by (apply Qle_shift_div_l; lra).
  assert (Hh1 : (y / 2 <= 9 # 8)%Q) by (apply Qle_shift_div_r; lra).
  apply Qle_shift_div_l; lra.
Qed.

(** With the steady source the default fleet of 64 switches is generated
    with fuel 3. *)
Example steady_source_returns :
  exists snap g',
    simulator.generate_snapshot 3 1700000000000 64 0 tt = Some (snap, g').
Proof.
  apply (returns.generate_snapshot_returns steady_random_contract).
  - intros g. cbn. discriminate.
  - exact rational_exp_bound.
  - lia.
Qed.

(* ================================================================== *)
(** * The rest of the services

    The functions around the ones above: configuration, the generator
    loop, the query handlers. *)

(* ------------------------------------------------------------------ *)
(** ** src/data_server/config.py and the settings of
       src/metrics_server/app.py *)

Module config.

(** The environment: [os.getenv(name)] is [env name]. *)
Definition Env : Type := string -> option string.

(** The digits of a piece of text, counted as [int] counts them. *)
Definition count_digits (s : string) : nat :=
  List.length (filter is_digit (list_ascii_of_string s)).

(** [sys.get_int_max_str_digits()], as shipped. *)
Definition int_max_str_digits : nat := 4300.

(** [int(raw)] on the text of a variable: [int] refuses text with more
    digits than the limit, whatever the digits are.  The text is taken to
    be ASCII ([int_of_str]). *)
Definition int_text (raw : string) : option Z :=
  if (int_max_str_digits <? count_digits raw)%nat then None
  else int_of_str raw.

(** [int_env(name, default, min_value=..., max_value=...)] of the data
    server.  An unset variable gives [int(default)]; text that [int]
    refuses gives the default as well; then the value is raised to
    [min_value] and lowered to [max_value], in this order. *)
Definition int_env (env : Env) (name : string) (default : Z)
    (min_value max_value : option Z) : Z :=
  let value :=
    match env name with
    | Some raw =>
        match int_text raw with
        | Some v => v
        | None => default
        end
    | None => default
    end in
  let value :=
    match min_value with
    | Some m => if value <? m then m else value
    | None => value
    end in
  match max_value with
  | Some m => if m <? value then m else value
  | None => value
  end.

(** Simulator settings, fault injection and port of the data server. *)
Definition DATA_SWITCHES (env : Env) : Z :=
  int_env env "DATA_SWITCHES" 64 (Some 1) None.
Definition DATA_INTERVAL_SEC (env : Env) : Z :=
  int_env env "DATA_INTERVAL_SEC" 10 (Some 1) None.
Definition FAULT_500_PCT (env : Env) : Z :=
  int_env env "FAULT_500_PCT" 0 (Some 0) (Some 100).
Definition FAULT_SLOW_MS (env : Env) : Z :=
  int_env env "FAULT_SLOW_MS" 0 (Some 0) None.
Definition PORT (env : Env) : Z :=
  int_env env "PORT" 9001 (Some 1) (Some 65535).

(** What [counters] reads of it. *)
Definition faults (env : Env) : data_app.Config :=
  data_app.mkConfig (FAULT_500_PCT env) (FAULT_SLOW_MS env).

(** [int_env(name, default)] of the metrics server: no bounds. *)
Definition metrics_int_env (env : Env) (name : string) (default : Z) : Z :=
  match env name with
  | Some raw =>
      match int_text raw with
      | Some v => v
      | None => default
      end
  | None => default
  end.

Definition POLL_MS (env : Env) : Z := metrics_int_env env "POLL_MS" 1500.
Definition metrics_PORT (env : Env) : Z := metrics_int_env env "PORT" 8080.

End config.

(* ------------------------------------------------------------------ *)
(** ** The producer's state: [create_app] and [_generator_loop] *)

Module producer.
Import simulator.


Section WithRandom.
Context {G : Type} `{Random G} `{MathLib}.



End WithRandom.
End producer.

(* ------------------------------------------------------------------ *)
(** ** src/metrics_server/app.py: the query handlers *)

Module metrics_app.
Import store.

(** What an [HTTPException] tells: the status code and what its detail
    text is made from. *)
Inductive detail : Type :=
  | NoDataYet
  | UnknownSwitch (switch_id : string)
  | UnknownMetric (metric : string) (available : list string).

Record HTTPException : Type := mkHTTPException {
  exc_status : Z;
  exc_detail : detail
}.

Section Handlers.
Context {V : Type}.

(** [_current_snapshot] *)
Definition _current_snapshot (st : SnapshotStore V)
  : HTTPException + Snapshot V :=
  match get st with
  | None => inl (mkHTTPException 503 NoDataYet)
  | Some s => inr s
  end.

(** [_staleness], [now_ms] being [int(time.time() * 1000)]. *)
Definition _staleness (now_ms ts_ms : Z) : Z := now_ms - ts_ms.

(** The JSON object and the headers of [get_metric]. *)
Record MetricReply : Type := mkMetricReply {
  r_switch_id : string;
  r_metric : string;
  r_value : option V;         (* [None] is JSON [null] *)
  r_snapshot_id : string;
  r_age_ms : Z;
  r_headers : http.Headers
}.

Definition reply_headers (age_ms : Z) (snapshot_id : string) : http.Headers :=
  [ ("X-Data-Age-Ms", str_int age_ms); ("ETag", snapshot_id) ].

(** [k in d] *)
Definition dict_mem {A} (d : dict A) (k : string) : bool :=
  match dict_get d k with
  | Some _ => true
  | None => false
  end.

(** [x in l] on a list of strings *)
Definition list_mem (l : list string) (x : string) : bool :=
  existsb (String.eqb x) l.

(** [get_metric] up to the dictionary [resp] and the headers it hands to
    [JSONResponse]; [GetMetric] below adds the rendering. *)
Definition get_metric (st : SnapshotStore V) (now_ms : Z)
    (switch_id metric : string) : HTTPException + MetricReply :=
  match _current_snapshot st with
  | inl e => inl e
  | inr s =>
      if negb (dict_mem (data s) switch_id)
      then inl (mkHTTPException 404 (UnknownSwitch switch_id))
      else if negb (list_mem (fields (meta s)) metric)
      then inl (mkHTTPException 404 (UnknownMetric metric (fields (meta s))))
      else
        let value :=
          match dict_get (data s) switch_id with
          | Some vals => dict_get vals metric
          | None => None
          end in
        let age_ms := _staleness now_ms (ts_ms (meta s)) in
        inr (mkMetricReply switch_id metric value (snapshot_id (meta s))
                           age_ms
                           (reply_headers age_ms (snapshot_id (meta s))))
  end.

(** An item of [list_metrics]: [{"switch_id": sw}] updated with the
    values of the row; a value is the id text or a number. *)
Definition item (sw : string) (vals : dict V) : dict (string + V) :=
  fold_left (fun obj kv => dict_set obj (fst kv) (inr (snd kv))) vals
            [("switch_id", inl sw)].

Record ListReply : Type := mkListReply {
  l_snapshot_id : string;
  l_age_ms : Z;
  l_fields : list string;
  l_items : list (dict (string + V));
  l_headers : http.Headers
}.

(** [list_metrics] up to the dictionary [resp] and the headers it hands
    to [JSONResponse]; [ListMetrics] below adds the rendering. *)
Definition list_metrics (st : SnapshotStore V) (now_ms : Z)
  : HTTPException + ListReply :=
  match _current_snapshot st with
  | inl e => inl e
  | inr s =>
      let age_ms := _staleness now_ms (ts_ms (meta s)) in
      let items := map (fun kv => item (fst kv) (snd kv)) (data s) in
      inr (mkListReply (snapshot_id (meta s)) age_ms (fields (meta s)) items
                       (reply_headers age_ms (snapshot_id (meta s))))
  end.

End Handlers.

(** What the JSON encoder asks of a float: [math.isfinite]. *)
Class JsonFloat (V : Type) : Type := { isfinite : V -> bool }.

Section Rendering.
Context {V : Type} `{JsonFloat V}.

(** [JSONResponse(resp, headers=...)] renders its content when it is
    built, with [json.dumps(..., allow_nan=False)]: a [nan] or an infinity
    anywhere in the content raises [ValueError] in the handler. *)
Definition json_error : exn :=
  ValueError "Out of range float values are not JSON compliant".

Definition render_metric (r : MetricReply (V := V))
  : result (MetricReply (V := V)) :=
  match r_value r with
  | Some v => if isfinite v then Ok r else Raise json_error
  | None => Ok r
  end.

Definition renders (obj : dict (string + V)) : bool :=
  forallb (fun kv => match snd kv with
                     | inl _ => true
                     | inr v => isfinite v
                     end) obj.

Definition render_list (r : ListReply (V := V))
  : result (ListReply (V := V)) :=
  if forallb renders (l_items r) then Ok r else Raise json_error.

(** The two endpoints as they answer: the handler up to its dictionary,
    then the rendering.  An [HTTPException] is an answer (the framework
    turns it into the error response); [Raise] is an exception that
    leaves the handler. *)
Definition GetMetric (st : SnapshotStore V) (now_ms : Z)
    (switch_id metric : string)
  : result (HTTPException + MetricReply (V := V)) :=
  match get_metric st now_ms switch_id metric with
  | inl e => Ok (inl e)
  | inr r => r' <- render_metric r ;; Ok (inr r')
  end.

Definition ListMetrics (st : SnapshotStore V) (now_ms : Z)
  : result (HTTPException + ListReply (V := V)) :=
  match list_metrics st now_ms with
  | inl e => Ok (inl e)
  | inr r => r' <- render_list r ;; Ok (inr r')
  end.

End Rendering.

(** The middleware [access_logger]: whatever the handler did, the latency
    of the request is added to the window of its path. *)
Definition access_logger (rs : stats.RollingStats) (path : string)
    (latency_ms : Z) : stats.RollingStats :=
  stats.add rs path latency_ms.

End metrics_app.

(* ------------------------------------------------------------------ *)
(** ** src/metrics_server/poller.py: the sleep between two cycles *)

Module pacing.
Import poller store http.

(** [n / 1000.0] first turns the integer [n] into a float, which raises
    [OverflowError] when [n] rounds to [2^1024] or beyond. *)
Definition float_overflows (n : Z) : bool :=
  2 ^ 1024 - 2 ^ 970 <=? Z.abs n.

Section WithFloat.
Context {V : Type} `{Float V}.

(** [await asyncio.sleep(self.poll_ms / 1000.0)], the last statement of
    the [finally] clause: the exception it raises, if any.  It stands
    outside the [try] block, so no handler catches it. *)
Definition nap (p : Poller V) : option exn :=
  if float_overflows (poll_ms p)
  then Some (OverflowError "int too large to convert to float")
  else None.

(** A whole turn of the loop of [_run]: [run_cycle], then the sleep.  An
    exception raised in the [finally] clause takes the place of the one
    that was leaving the [try] statement; the period is the same before
    and after the cycle. *)
Definition turn (p : Poller V) (fetch : result Response) (tm : Timing)
  : result (Poller V * PollLog) :=
  match run_cycle p fetch tm with
  | Ok (p', log) =>
      match nap p' with
      | Some o => Raise o
      | None => Ok (p', log)
      end
  | Raise e =>
      match nap p with
      | Some o => Raise o
      | None => Raise e
      end
  end.

(** [_run] with its sleeps. *)
Fixpoint loop (p : Poller V) (cycles : list (result Response * Timing))
  : result (Poller V * list PollLog) :=
  match cycles with
  | [] => Ok (p, [])
  | (fetch, tm) :: cycles' =>
      step <- turn p fetch tm ;;
      rest <- loop (fst step) cycles' ;;
      Ok (fst rest, snd step :: snd rest)
  end.

End WithFloat.
End pacing.

(* ================================================================== *)
(** * Further properties *)

(** ** The rolling window *)

Module stats_window.
Import stats stats_facts.

(** The last [n] elements of a list. *)
Definition lastn {A} (n : nat) (l : list A) : list A :=
  skipn (List.length l - n) l.

(** A run of [add] calls, in the order of the requests. *)
Definition record (rs : RollingStats) (events : list (string * Z))
  : RollingStats :=
  fold_left (fun rs e => add rs (fst e) (snd e)) events rs.

(** The latencies recorded under [key], in arrival order. *)
Definition latencies_of (key : string) (events : list (string * Z)) : list Z :=
  List.map snd (filter (fun e => String.eqb (fst e) key) events).

Lemma skipn_tl {A} (n : nat) (l : list A) : tl (skipn n l) = skipn (S n) l.
Proof.
  revert l. induction n as [|n IH]; intros l.
  - now destruct l.
  - destruct l as [|a l]; [reflexivity|]. cbn [skipn]. rewrite IH.
    now destruct l.
Qed.

Lemma deque_append_lastn cap (l : list Z) x :
  deque_append cap (lastn cap l) x = lastn cap (l ++ [x])%list.
Proof.
  unfold deque_append, lastn.
  rewrite !length_app, length_skipn. cbn [List.length].
  destruct (Nat.ltb_spec cap (List.length l - (List.length l - cap) + 1)) as [Hlt|Hge].
  - assert (Hcap : (cap <= List.length l)%nat) by lia.
    replace (List.length l + 1 - cap)%nat with (S (List.length l - cap))
      by lia.
    rewrite <- skipn_tl.
    rewrite (skipn_app (List.length l - cap) l [x]).
    replace (List.length l - cap - List.length l)%nat with 0%nat by lia.
    reflexivity.
  - assert (Hcap : (List.length l < cap)%nat) by lia.
    replace (List.length l - cap)%nat with 0%nat by lia.
    replace (List.length l + 1 - cap)%nat with 0%nat by lia.
    reflexivity.
Qed.

Lemma samples_of_add rs k x key :
  samples_of (add rs k x) key
  = if String.eqb k key
    then deque_append (capacity rs) (samples_of rs k) x
    else samples_of rs key.
Proof.
  unfold samples_of, add. cbn [map].
  destruct (String.eqb_spec k key) as [->|Hne].
  - now rewrite dict_get_set_eq.
  - now rewrite dict_get_set_neq.
Qed.

Lemma capacity_record rs events : capacity (record rs events) = capacity rs.
Proof.
  revert rs. induction events as [|e events IH]; intros rs; [reflexivity|].
  cbn [record fold_left]. fold (record (add rs (fst e) (snd e)) events).
  now rewrite IH.
Qed.

Lemma record_snoc rs events e :
  record rs (events ++ [e]) = add (record rs events) (fst e) (snd e).
Proof. unfold record. now rewrite fold_left_app. Qed.

Lemma latencies_of_snoc key events e :
  latencies_of key (events ++ [e])
  = if String.eqb (fst e) key
    then (latencies_of key events ++ [snd e])%list
    else latencies_of key events.
Proof.
  unfold latencies_of. rewrite filter_app, map_app. cbn [filter].
  destruct (String.eqb (fst e) key); cbn [List.map]; [reflexivity|].
  now rewrite app_nil_r.
Qed.

(** A window that is resumed: what it held, then what was recorded. *)
Lemma samples_of_record (rs : RollingStats) (events : list (string * Z))
    (key : string) :
  (List.length (samples_of rs key) <= capacity rs)%nat ->
  samples_of (record rs events) key
  = lastn (capacity rs) (samples_of rs key ++ latencies_of key events)%list.
Proof.
  intros Hfit. induction events as [|e events IH] using rev_ind.
  - cbn [record fold_left latencies_of filter List.map].
    rewrite app_nil_r. unfold lastn.
    now replace (List.length (samples_of rs key) - capacity rs)%nat
      with 0%nat by lia.
  - rewrite record_snoc, samples_of_add, latencies_of_snoc.
    rewrite capacity_record.
    destruct (String.eqb_spec (fst e) key) as [->|Hne]; [|exact IH].
    rewrite IH, app_assoc. apply deque_append_lastn.
Qed.

(** X1. The window of a key holds the most recent [capacity] latencies
    recorded under that key, in arrival order, whatever was recorded under
    other keys in between. *)
Theorem window_holds_most_recent (cap : nat) (events : list (string * Z))
    (key : string) :
  samples_of (record (init cap) events) key
  = lastn cap (latencies_of key events).
Proof.
  rewrite samples_of_record by (cbn; lia). reflexivity.
Qed.

(** X2. The count [percentiles] reports is the number of latencies
    recorded under the key, capped at the capacity. *)
Theorem count_is_capped (cap : nat) (events : list (string * Z))
    (key : string) :
  count (percentiles (record (init cap) events) key)
  = Z.of_nat (Nat.min cap (List.length (latencies_of key events))).
Proof.
  assert (Hw : samples_of (record (init cap) events) key
               = lastn cap (latencies_of key events))
    by (rewrite samples_of_record by (cbn; lia); reflexivity).
  set (rs := record (init cap) events) in *.
  assert (Hlen : List.length (samples_of rs key)
                 = Nat.min cap (List.length (latencies_of key events))).
  { rewrite Hw. unfold lastn. rewrite length_skipn. lia. }
  destruct (samples_of rs key) as [|s0 ss] eqn:Es.
  - rewrite percentiles_empty by exact Es. cbn [count].
    cbn [List.length] in Hlen. lia.
  - rewrite percentiles_nonempty by (rewrite Es; discriminate).
    cbn [count]. rewrite <- Hlen, <- Es.
    f_equal. symmetry. apply Permutation_length, sorted_permutation.
Qed.

(** Two ascending lists with the same elements are the same list. *)
Lemma ascending_unique (l1 l2 : list Z) :
  StronglySorted Z.le l1 -> StronglySorted Z.le l2 ->
  Permutation l1 l2 -> l1 = l2.
Proof.
  intros H1. revert l2. induction H1 as [|a l1 Hs1 IH Ha]; intros l2 H2 Hp.
  - now apply Permutation_nil in Hp.
  - destruct H2 as [|b l2 Hs2 Hb].
    + apply Permutation_sym, Permutation_nil in Hp. discriminate.
    + assert (Hab : a = b).
      { rewrite Forall_forall in Ha, Hb.
        assert (Hbin : In b (a :: l1))
          by (apply (Permutation_in _ (Permutation_sym Hp)); now left).
        assert (Hain : In a (b :: l2))
          by (apply (Permutation_in _ Hp); now left).
        destruct Hbin as [E|Hbin]; [auto|].
        destruct Hain as [E|Hain]; [auto|].
        specialize (Ha _ Hbin). specialize (Hb _ Hain). lia. }
      subst b. f_equal. apply IH; [exact Hs2|].
      now apply Permutation_cons_inv in Hp.
Qed.

Lemma sorted_permutation_eq (l1 l2 : list Z) :
  Permutation l1 l2 -> sorted l1 = sorted l2.
Proof.
  intros Hp. apply ascending_unique; try apply sorted_ascending.
  eapply Permutation_trans; [apply Permutation_sym, sorted_permutation|].
  eapply Permutation_trans; [exact Hp|apply sorted_permutation].
Qed.

(** X3. The percentiles depend on the samples of the window only, not on
    the order in which they arrived. *)
Theorem percentiles_ignore_arrival_order (rs1 rs2 : RollingStats)
    (key : string) :
  Permutation (samples_of rs1 key) (samples_of rs2 key) ->
  percentiles rs1 key = percentiles rs2 key.
Proof.
  intros Hp.
  destruct (samples_of rs1 key) as [|a l] eqn:E1.
  - apply Permutation_nil in Hp.
    now rewrite !percentiles_empty.
  - assert (E2 : samples_of rs2 key <> []).
    { intros E. rewrite E in Hp.
      apply Permutation_sym, Permutation_nil in Hp. discriminate. }
    rewrite !percentiles_nonempty by (congruence || exact E2).
    rewrite E1. now rewrite (sorted_permutation_eq _ _ Hp).
Qed.

(** X4. Every percentile of a window with samples, and its maximum, is
    one of the samples of the window. *)
Theorem percentiles_are_samples (rs : RollingStats) (key : string) :
  samples_of rs key <> [] ->
  let r := percentiles rs key in
  forall q, In q [p50 r; p95 r; p99 r; max r] ->
  exists x, q = inject_Z x /\ In x (samples_of rs key).
Proof.
  intros Hne r q Hq. unfold r in Hq.
  rewrite (percentiles_nonempty rs key Hne) in Hq.
  set (samples := samples_of rs key) in *.
  pose proof (sorted_permutation samples) as Hperm.
  assert (Harr : sorted samples <> []).
  { intros E. rewrite E in Hperm.
    apply Permutation_sym, Permutation_nil in Hperm. contradiction. }
  assert (Hpos : (0 < List.length (sorted samples))%nat)
    by (destruct (sorted samples); [congruence|simpl; lia]).
  assert (Hat : forall i, (i < List.length (sorted samples))%nat ->
            exists x, inject_Z (nth i (sorted samples) 0) = inject_Z x /\
                      In x samples).
  { intros i Hi. exists (nth i (sorted samples) 0).
    split; [reflexivity|].
    apply (Permutation_in _ (Permutation_sym Hperm)), nth_In, Hi. }
  cbn [p50 p95 p99 max] in Hq.
  rewrite !pick_index in Hq by exact Harr.
  assert (Hidx : forall p,
            (Z.to_nat (percentile_index
                         (Z.of_nat (List.length (sorted samples))) p)
             < List.length (sorted samples))%nat).
  { intros p.
    pose proof (percentile_index_range
                  (Z.of_nat (List.length (sorted samples))) p ltac:(lia)).
    lia. }
  destruct Hq as [<-|[<-|[<-|[<-|[]]]]].
  - apply Hat, Hidx.
  - apply Hat, Hidx.
  - apply Hat, Hidx.
  - rewrite last_as_nth. apply Hat. lia.
Qed.

Lemma percentiles_are_samples_witness :
  exists x, stats.p95 (percentiles hundred_samples "q") = inject_Z x /\
            In x (samples_of hundred_samples "q").
Proof.
  apply (percentiles_are_samples hundred_samples "q").
  - vm_compute. discriminate.
  - right. left. reflexivity.
Defined.

Lemma percentiles_ignore_arrival_order_witness :
  percentiles (record (init 10) [("q", 3); ("q", 1); ("q", 2)]) "q"
  = percentiles (record (init 10) [("q", 1); ("q", 2); ("q", 3)]) "q".
Proof.
  apply percentiles_ignore_arrival_order.
  change (Permutation [3; 1; 2] [1; 2; 3]).
  apply (Permutation_cons_app [1; 2] [] 3). apply Permutation_refl.
Defined.

End stats_window.

(** ** Switch ids *)

Module id_facts.
Import simulator.

Definition zeros (n : nat) : string :=
  string_of_list_ascii (repeat "0"%char n).

Lemma zero_pad_zeros w s : zero_pad w s = zeros (w - String.length s) ++ s.
Proof. reflexivity. Qed.

Lemma zeros_digits n s : all_digits s = true -> all_digits (zeros n ++ s) = true.
Proof. intros Hs. induction n as [|n IH]; [exact Hs|]. cbn. exact IH. Qed.

Lemma digits_value_leading_zero t :
  all_digits t = true -> t <> EmptyString ->
  digits_value (String "0" t) = digits_value t.
Proof.
  intros Hd Hne. unfold digits_value.
  rewrite (drop_us_digits (String "0" t)) by (cbn; exact Hd).
  rewrite (drop_us_digits t) by exact Hd.
  destruct t as [|c t]; [congruence|].
  cbn [NilZero.uint_of_string NilEmpty.uint_of_string].
  destruct (uint_of_char c (NilEmpty.uint_of_string t)); reflexivity.
Qed.

Lemma append_nonempty_r (s t : string) : t <> EmptyString -> s ++ t <> EmptyString.
Proof. destruct s; [now cbn|discriminate]. Qed.

Lemma digits_value_zeros n t :
  all_digits t = true -> t <> EmptyString ->
  digits_value (zeros n ++ t) = digits_value t.
Proof.
  intros Hd Hne. induction n as [|n IH]; [reflexivity|].
  change (zeros (S n) ++ t) with (String "0" (zeros n ++ t)).
  rewrite digits_value_leading_zero; [exact IH|now apply zeros_digits|].
  now apply append_nonempty_r.
Qed.

(** The decimal digits of a number that is not negative. *)
Lemma str_int_digits i :
  0 <= i ->
  all_digits (str_int i) = true /\ str_int i <> EmptyString /\
  digits_value (str_int i) = Some i.
Proof.
  intros Hi. destruct i as [|p|p]; [repeat split; discriminate| |lia].
  rewrite str_int_pos. split; [apply string_of_uint_digits|].
  split; [apply string_of_uint_nonempty, Unsigned.to_uint_nonnil|].
  apply digits_value_to_uint.
Qed.

Lemma int_of_str_digits s z :
  all_digits s = true -> s <> EmptyString -> digits_value s = Some z ->
  int_of_str s = Some z.
Proof.
  intros Hd Hne Hv. unfold int_of_str. rewrite (strip_digits _ Hd).
  destruct (digits_head s Hd Hne) as (c & r & -> & Hc).
  destruct (Ascii.eqb_spec c "-") as [->|_]; [discriminate|].
  destruct (Ascii.eqb_spec c "+") as [->|_]; [discriminate|].
  exact Hv.
Qed.

Lemma int_of_str_minus s z :
  all_digits s = true -> digits_value s = Some z ->
  int_of_str (String "-" s) = Some (- z).
Proof.
  intros Hd Hv. unfold int_of_str, strip. cbn [lstrip].
  change (is_space "-") with false. cbv iota.
  assert (Hr : rstrip (String "-" s) = String "-" s).
  { cbn [rstrip]. rewrite (rstrip_digits _ Hd). now destruct s. }
  rewrite Hr. cbn. now rewrite Hv.
Qed.

(** The number in an id reads back as the index. *)
Lemma int_of_fmt_03d i : int_of_str (fmt_03d i) = Some i.
Proof.
  unfold fmt_03d. destruct (Z.ltb_spec i 0) as [Hneg|Hpos].
  - destruct (str_int_digits (- i)) as (Hd & Hne & Hv); [lia|].
    rewrite zero_pad_zeros.
    replace i with (- - i) at 3 by lia.
    apply int_of_str_minus; [now apply zeros_digits|].
    now rewrite digits_value_zeros.
  - destruct (str_int_digits i Hpos) as (Hd & Hne & Hv).
    rewrite zero_pad_zeros.
    apply int_of_str_digits.
    + now apply zeros_digits.
    + now apply append_nonempty_r.
    + now rewrite digits_value_zeros.
Qed.

Lemma fmt_id_injective i j : _fmt_id i = _fmt_id j -> i = j.
Proof.
  unfold _fmt_id. intros E. injection E as E.
  pose proof (int_of_fmt_03d i) as Hi. rewrite E, int_of_fmt_03d in Hi.
  now injection Hi.
Qed.

(** X5. The number after [sw-] in an id reads back, with [int], as the
    index the id was made from; so different indices have different
    ids. *)
Theorem fmt_id_reads_back (i j : Z) :
  (exists digits, _fmt_id i = "sw-" ++ digits /\ int_of_str digits = Some i) /\
  (i <> j -> _fmt_id i <> _fmt_id j).
Proof.
  split.
  - exists (fmt_03d i). split; [reflexivity|apply int_of_fmt_03d].
  - intros Hne E. now apply fmt_id_injective in E.
Qed.

Lemma fmt_id_reads_back_witness : _fmt_id 101 <> _fmt_id 1000.
Proof. apply (fmt_id_reads_back 101 1000). lia. Defined.

Lemma range_nodup n : NoDup (range n).
Proof.
  unfold range. apply Finite.Injective_map_NoDup; [|apply seq_NoDup].
  intros a b. apply Nat2Z.inj.
Qed.

Lemma fmt_ids_nodup n : NoDup (map _fmt_id (range n)).
Proof.
  apply Finite.Injective_map_NoDup; [|apply range_nodup].
  intros i j. apply fmt_id_injective.
Qed.

End id_facts.

(** ** What a generated snapshot holds *)

Module generated.
Import simulator simulator_facts generator_facts snapshot_facts id_facts.

Lemma fold_dict_set_as_set_all {A V} (f : A -> string) (h : A -> V)
    (l : list A) : forall d,
  fold_left (fun d x => dict_set d (f x) (h x)) l d
  = set_all (map (fun x => (f x, h x)) l) d.
Proof.
  induction l as [|x l IH]; intros d; [reflexivity|]. cbn. apply IH.
Qed.

Lemma combine_map_fst {A B} (l1 : list A) : forall (l2 : list B),
  List.length l2 = List.length l1 -> map fst (combine l1 l2) = l1.
Proof.
  induction l1 as [|a l1 IH]; intros [|b l2] Hlen; try discriminate;
    [reflexivity|].
  cbn. f_equal. apply IH. now injection Hlen.
Qed.

Lemma store_rows_keys indices (rs : list MetricRow) :
  List.length rs = List.length indices ->
  NoDup (map _fmt_id indices) ->
  dict_keys (store_rows indices rs []) = map _fmt_id indices /\
  dict_wf (store_rows indices rs []).
Proof.
  intros Hlen Hnd. unfold store_rows.
  rewrite (fold_dict_set_as_set_all (fun ir => _fmt_id (fst ir)) snd).
  cbv beta.
  assert (Hkeys : map fst (map (fun ir : Z * MetricRow => (_fmt_id (fst ir), snd ir))
                             (combine indices rs)) = map _fmt_id indices).
  { rewrite map_map. cbn [fst].
    rewrite <- (map_map fst _fmt_id). now rewrite combine_map_fst. }
  rewrite set_all_fresh; [|now rewrite Hkeys|intros k _ []].
  rewrite app_nil_l. unfold dict_wf, dict_keys. rewrite Hkeys. auto.
Qed.

Section WithRandom.
Context {G : Type} `{Random G} `{MathLib}.

(** Everything the generator fixes about its result. *)
Lemma generate_snapshot_inv fuel now_ms n prev (g g' : G) sid ts flds rows :
  random_contract G ->
  generate_snapshot fuel now_ms n prev g = Some ((sid, ts, flds, rows), g') ->
  sid = prev + 1 /\ ts = now_ms /\ flds = fields /\
  dict_keys rows = map _fmt_id (range n) /\ dict_wf rows /\
  (forall sw row, In (sw, row) rows -> row_spec row).
Proof.
  intros contract Hrun. unfold generate_snapshot in Hrun.
  apply mbind_inv in Hrun as (rs & g1 & Hrows & Hret).
  injection Hret as <- <- <- <- _.
  apply (generate_rows_inv _ _ contract) in Hrows as (l & Hlen & Hall & ->).
  destruct (store_rows_keys (range n) l Hlen (fmt_ids_nodup n)) as [Hk Hwf].
  repeat split; try assumption.
  apply store_rows_values; [exact Hall|intros k v []].
Qed.

Lemma row_spec_keys row : row_spec row -> dict_keys row = fields.
Proof.
  now intros (bw & lat & cpu & mem & buf & drops & temp & pe & -> & _).
Qed.

(** X6. A generated snapshot has one row per switch, under the ids of the
    indices [0 .. n_switches - 1] in order (none for a count that is not
    positive); it carries the clock reading and the eight field names, and
    every row has exactly these eight fields. *)
Theorem generated_rows_are_indexed
    fuel now_ms n prev (g g' : G) sid ts flds rows :
  random_contract G ->
  generate_snapshot fuel now_ms n prev g = Some ((sid, ts, flds, rows), g') ->
  dict_keys rows = map _fmt_id (range n) /\
  List.length rows = Z.to_nat n /\
  ts = now_ms /\ flds = fields /\
  (forall sw row, In (sw, row) rows -> dict_keys row = fields).
Proof.
  intros contract Hrun.
  destruct (generate_snapshot_inv _ _ _ _ _ _ _ _ _ _ contract Hrun)
    as (_ & Hts & Hf & Hk & _ & Hrows).
  repeat split; try assumption.
  - rewrite <- (length_map fst). fold (dict_keys rows). rewrite Hk.
    unfold range. now rewrite !length_map, length_seq.
  - intros sw row Hin. eapply row_spec_keys, Hrows, Hin.
Qed.

End WithRandom.

Lemma generated_rows_are_indexed_witness :
  exists rows,
    generate_snapshot 5 1700000000000 2 6 (quiet_tape ++ burst_tape)%list
    = Some ((7, 1700000000000, fields, rows), []) /\
    dict_keys rows = ["sw-000"; "sw-001"] /\ List.length rows = 2%nat.
Proof.
  assert (Hrun : exists rows,
            generate_snapshot 5 1700000000000 2 6
              (quiet_tape ++ burst_tape)%list
            = Some ((7, 1700000000000, fields, rows), []))
    by (eexists; vm_compute; reflexivity).
  destruct Hrun as [rows Hrun]. exists rows. split; [exact Hrun|].
  destruct (generated_rows_are_indexed _ _ _ _ _ _ _ _ _ _
              tape_random_contract Hrun) as (Hk & Hlen & _).
  split; [exact Hk|exact Hlen].
Defined.

#[local] Open Scope Q_scope.

(** X7. [_clip] returns its argument when it lies between the bounds, the
    lower bound for an argument below it, the upper bound for an argument
    above it; with crossed bounds it returns the lower bound. *)
Theorem clip_cases (x lo hi : Q) :
  (lo <= x -> x <= hi -> _clip x lo hi == x) /\
  (x < lo -> _clip x lo hi == lo) /\
  (lo <= hi -> hi < x -> _clip x lo hi == hi) /\
  (hi < lo -> _clip x lo hi == lo).
Proof.
  unfold _clip, py_max, py_min.
  repeat split; intros;
    (destruct (Qltb x hi) eqn:E1;
     [apply Qltb_true in E1|apply Qltb_false in E1]);
    match goal with
    | |- (if Qltb ?a ?b then _ else _) == _ =>
        (destruct (Qltb a b) eqn:E2;
         [apply Qltb_true in E2|apply Qltb_false in E2])
    end; lra.
Qed.

Lemma clip_cases_witness :
  _clip 35 0 100 == 35 /\ _clip (-3) 0 100 == 0 /\ _clip 130 0 100 == 100.
Proof.
  destruct (clip_cases 35 0 100) as (H1 & _).
  destruct (clip_cases (-3) 0 100) as (_ & H2 & _).
  destruct (clip_cases 130 0 100) as (_ & _ & H3 & _).
  split; [apply H1; discriminate|].
  split; [apply H2; reflexivity|apply H3; [discriminate|reflexivity]].
Defined.

End generated.

(** ** The producer *)

Module producer_facts.
Import simulator generator_facts generated data_app.

Section Serialize.
Context {V : Type} `{Float V}.

Lemma row_cells_missing (vals : dict V) flds k :
  In k flds -> dict_get vals k = None ->
  exists k', row_cells vals flds = Raise (KeyError k').
Proof.
  induction flds as [|f flds IH]; [intros []|].
  intros Hin Hk. cbn [row_cells].
  destruct (dict_get vals f) as [v|] eqn:Ef; [|eauto].
  destruct Hin as [->|Hin]; [congruence|].
  destruct (IH Hin Hk) as [k' ->]. cbn [bind]. eauto.
Qed.

Lemma row_cells_raises (vals : dict V) flds e :
  row_cells vals flds = Raise e -> exists k, e = KeyError k.
Proof.
  revert e. induction flds as [|f flds IH]; intros e; [discriminate|].
  cbn [row_cells]. destruct (dict_get vals f); [|intros [= <-]; eauto].
  destruct (row_cells vals flds) as [c|e0]; [discriminate|].
  cbn [bind]. intros [= <-]. now apply IH.
Qed.

Lemma write_rows_missing flds (rows : dict (dict V)) sw vals k :
  In (sw, vals) rows -> In k flds -> dict_get vals k = None ->
  exists k', write_rows flds rows = Raise (KeyError k').
Proof.
  induction rows as [|[sw0 vals0] rows IH]; [intros []|].
  intros Hin Hk Hnone. cbn [write_rows].
  destruct (row_cells vals0 flds) as [cells|e] eqn:Ec.
  - destruct Hin as [[= -> ->]|Hin].
    + destruct (row_cells_missing vals flds k Hk Hnone) as [k' Hr]. congruence.
    + destruct (IH Hin Hk Hnone) as [k' ->]. cbn [bind]. eauto.
  - cbn [bind]. destruct (row_cells_raises _ _ _ Ec) as [k' ->]. eauto.
Qed.

(** X8. When every row holds a value for every field, the text [_to_csv]
    writes is cut by the reader into the header row, [switch_id] and the
    field names, followed by one row per switch, its id and its values in
    field order, whatever characters ids and names contain; when a row
    lacks a field, [_to_csv] raises [KeyError]. *)
Theorem to_csv_reads_back (sid ts : Z) (flds : list string)
    (rows : dict (dict V)) :
  (rows_complete flds rows ->
   exists csv_text,
     _to_csv (sid, ts, flds, rows) = Ok csv_text /\
     Csv.reader_rows csv_text
     = (("switch_id" :: flds) :: data_lines flds rows, Csv.Exhausted)) /\
  (forall sw vals k,
     In (sw, vals) rows -> In k flds -> dict_get vals k = None ->
     exists k', _to_csv (sid, ts, flds, rows) = Raise (KeyError k')).
Proof.
  split.
  - intros Hc. eexists. split; [apply (to_csv_complete _ _ _ _ Hc)|].
    apply csv_round_trip.reader_writer.
  - intros sw vals k Hin Hk Hnone. unfold _to_csv.
    destruct (write_rows_missing flds rows sw vals k Hin Hk Hnone) as [k' ->].
    cbn [bind]. eauto.
Qed.

End Serialize.

Lemma to_csv_reads_back_witness :
  (exists csv_text,
     _to_csv (7, 1700000000000, ["cpu_util_pct"], sample_rows) = Ok csv_text /\
     Csv.reader_rows csv_text
     = ([ ["switch_id"; "cpu_util_pct"]; ["sw-000"; "35"]; ["sw-001"; "41"] ],
        Csv.Exhausted)) /\
  (exists k',
     _to_csv (V := Z) (7, 1700000000000, ["cpu_util_pct"; "mem_util_pct"],
                       sample_rows) = Raise (KeyError k')).
Proof.
  split.
  - exact (proj1 (to_csv_reads_back (V := Z) 7 1700000000000
                    ["cpu_util_pct"] sample_rows) sample_rows_complete).
  - apply (proj2 (to_csv_reads_back (V := Z) 7 1700000000000
                    ["cpu_util_pct"; "mem_util_pct"] sample_rows)
             "sw-000" [("cpu_util_pct", 35)] "mem_util_pct").
    + left. reflexivity.
    + right. left. reflexivity.
    + reflexivity.
Defined.

End producer_facts.

Module publish_facts.
Import simulator generator_facts generated data_app producer.


Section WithRandom.
Context {G : Type} {R : Random G} {ML : MathLib} {F : Float Q}.



End WithRandom.


End publish_facts.

(** ** What the parser accepts *)

Section ParseResults.
Context {V : Type} {F : Float V}.
Import poller store http.

(** A snapshot that was parsed, spelled out. *)
Lemma parse_ok_inv csv_text hdrs (snap : Snapshot V) :
  _parse_csv csv_text hdrs = Ok snap ->
  exists flds rest,
    fields (meta snap) = flds /\
    data snap = fold_left (add_row flds) rest [] /\
    Csv.reader_rows csv_text = (("switch_id" :: flds) :: rest, Csv.Exhausted).
Proof.
  unfold _parse_csv.
  destruct (int_of_str (get hdrs "X-Snapshot-Ts" "0")) as [ts|];
    [|discriminate].
  destruct (Csv.reader_rows csv_text) as [rows e].
  destruct rows as [|first rest]; [destruct e; discriminate|].
  destruct first as [|c flds]; [discriminate|].
  destruct (String.eqb_spec c "switch_id") as [->|Hne]; cbn [negb];
    [|discriminate].
  destruct e; [|discriminate].
  intros [= <-]. exists flds, rest. repeat split.
Qed.

Lemma set_all_get_in {A} (l : list (string * A)) : forall d k v,
  dict_get (set_all l d) k = Some v ->
  In (k, v) l \/ dict_get d k = Some v.
Proof.
  induction l as [|[k0 v0] l IH]; intros d k v Hget; [now right|].
  cbn [set_all fold_left fst snd] in Hget.
  fold (set_all l (dict_set d k0 v0)) in Hget.
  apply IH in Hget as [Hin|Hget]; [left; now right|].
  destruct (String.eqb_spec k0 k) as [->|Hne].
  - rewrite dict_get_set_eq in Hget. injection Hget as <-. left. now left.
  - rewrite dict_get_set_neq in Hget by exact Hne. now right.
Qed.

Lemma row_entries_in flds rest k (vals : dict V) :
  In (k, vals) (row_entries flds rest) ->
  exists cells, In (k :: cells) rest /\ vals = row_values flds (k :: cells).
Proof.
  induction rest as [|row rest IH]; [intros []|].
  cbn [row_entries flat_map]. fold (row_entries flds rest).
  intros Hin. apply in_app_or in Hin as [Hin|Hin].
  - destruct row as [|sw cells]; [destruct Hin|].
    destruct Hin as [[= <- <-]|[]]. exists cells. split; [now left|reflexivity].
  - destruct (IH Hin) as (cells & Hc & ->). exists cells. split; [now right|].
    reflexivity.
Qed.

Lemma row_values_keys flds row k :
  In k (dict_keys (row_values flds row)) <-> In k flds.
Proof.
  rewrite row_values_set_all, set_all_keys.
  unfold cell_entries, enumerate. rewrite map_map. cbn [fst snd].
  rewrite combine_seq_snd. simpl. tauto.
Qed.

Lemma row_values_wf flds row : dict_wf (row_values flds row).
Proof. rewrite row_values_set_all. apply set_all_wf. constructor. Qed.

Lemma parsed_row_has_metric csv_text hdrs (snap : Snapshot V) id vals k :
  _parse_csv csv_text hdrs = Ok snap ->
  dict_get (data snap) id = Some vals ->
  In k (fields (meta snap)) ->
  exists v, dict_get vals k = Some v.
Proof.
  intros Hp Hget Hk.
  destruct (parse_ok_inv _ _ _ Hp) as (flds & rest & <- & Hd & _).
  rewrite Hd, parse_loop in Hget.
  apply set_all_get_in in Hget as [Hin|Hget]; [|discriminate].
  apply row_entries_in in Hin as (cells & _ & ->).
  apply dict_get_in, row_values_keys, Hk.
Qed.

(** X12. In a parsed snapshot no id occurs twice, and every row has a
    value for exactly the field names of the header, each once: a lookup
    of a known switch and a known metric always finds a number. *)
Theorem parsed_rows_are_complete csv_text hdrs (snap : Snapshot V) :
  _parse_csv csv_text hdrs = Ok snap ->
  dict_wf (data snap) /\
  forall id vals,
    dict_get (data snap) id = Some vals ->
    dict_wf vals /\
    (forall k, In k (dict_keys vals) <-> In k (fields (meta snap))) /\
    (forall k, In k (fields (meta snap)) -> exists v, dict_get vals k = Some v).
Proof.
  intros Hp. destruct (parse_ok_inv _ _ _ Hp) as (flds & rest & -> & -> & _).
  split; [apply parse_loop_wf|].
  intros id vals Hget. rewrite parse_loop in Hget.
  apply set_all_get_in in Hget as [Hin|Hget]; [|discriminate].
  apply row_entries_in in Hin as (cells & _ & ->).
  split; [apply row_values_wf|]. split.
  - intros k. apply row_values_keys.
  - intros k Hk. apply dict_get_in, row_values_keys, Hk.
Qed.

End ParseResults.

Lemma parsed_rows_are_complete_witness :
  exists snap,
    poller._parse_csv (V := Z) (write_table ragged_rows) sample_headers
    = Ok snap /\
    forall id vals,
      dict_get (store.data snap) id = Some vals ->
      exists v, dict_get vals "packet_errors" = Some v.
Proof.
  assert (Hp : exists snap,
            poller._parse_csv (V := Z) (write_table ragged_rows) sample_headers
            = Ok snap) by (eexists; vm_compute; reflexivity).
  destruct Hp as [snap Hp]. exists snap. split; [exact Hp|].
  intros id vals Hget.
  destruct (parsed_rows_are_complete _ _ snap Hp) as [_ Hrows].
  destruct (Hrows id vals Hget) as (_ & _ & Hall).
  apply Hall.
  destruct (parse_ok_inv _ _ _ Hp) as (flds & rest & <- & _ & Hrd).
  rewrite (csv_round_trip.reader_writer ragged_rows) in Hrd.
  injection Hrd as <- _. right. left. reflexivity.
Defined.

(** ** Runs of the poller *)

Module run_facts.
Import poller store http cycle pacing.

Section Runs.
Context {V : Type} {F : Float V}.

Definition outcome_of (c : result Response * Timing) : outcome :=
  classify (V := V) (fst c).




(** A run that is not cancelled. *)
Definition uncancelled (cycles : list (result Response * Timing)) : Prop :=
  forall c, In c cycles -> outcome_of c <> Aborted.



Lemma aborted_cycle (p : Poller V) fetch tm :
  classify (V := V) fetch = Aborted ->
  exists e, run_cycle p fetch tm = Raise e /\ is_Exception e = false.
Proof.
  unfold classify, run_cycle, try_block.
  destruct fetch as [r|e].
  - destruct (status_code r =? 304); [discriminate|].
    destruct (status_code r =? 200); [|discriminate].
    destruct (_parse_csv (text r) (headers r)); discriminate.
  - destruct (is_Exception e) eqn:E; [discriminate|].
    intros _. exists e. now rewrite E.
Qed.

Lemma cycle_returns (p : Poller V) fetch tm :
  classify (V := V) fetch <> Aborted ->
  exists p' log, run_cycle p fetch tm = Ok (p', log).
Proof.
  intros Hna. destruct (classify (V := V) fetch) eqn:Ec; [| | |congruence].
  - destruct (unchanged_cycle p fetch tm Ec) as (p' & log & Hr & _). eauto.
  - destruct (updated_cycle p fetch tm Ec) as (r & s & p' & log & _ & _ & Hr & _).
    eauto.
  - destruct (failed_cycle p fetch tm Ec) as (p' & log & Hr & _). eauto.
Qed.

Lemma uncancelled_run (cycles : list (result Response * Timing)) :
  forall p : Poller V,
  uncancelled cycles ->
  exists p' logs,
    _run p cycles = Ok (p', logs) /\
    List.length logs = List.length cycles.
Proof.
  induction cycles as [|[fetch tm] cycles IH]; intros p Hun.
  - now exists p, [].
  - cbn [_run].
    destruct (cycle_returns p fetch tm) as (p1 & log & ->).
    { apply (Hun (fetch, tm)). now left. }
    cbn [bind fst snd].
    destruct (IH p1) as (p2 & logs & -> & Hlen).
    { intros c Hc. apply Hun. now right. }
    cbn [bind fst snd]. exists p2, (log :: logs).
    split; [reflexivity|]. cbn. now rewrite Hlen.
Qed.



Lemma run_cycle_poll_ms (p : Poller V) fetch tm p' log :
  run_cycle p fetch tm = Ok (p', log) -> poll_ms p' = poll_ms p.
Proof.
  unfold run_cycle, try_block.
  destruct fetch as [r|e].
  - destruct (status_code r =? 304); [now intros [= <- _]|].
    destruct (status_code r =? 200).
    + destruct (_parse_csv (text r) (headers r)) as [snap|e];
        [now intros [= <- _]|].
      destruct (is_Exception e); [now intros [= <- _]|discriminate].
    + now intros [= <- _].
  - destruct (is_Exception e); [now intros [= <- _]|discriminate].
Qed.

(** While the period can be turned into a float the sleeps return, and
    the loop is [_run]. *)
Lemma loop_is_run (cycles : list (result Response * Timing)) :
  forall p : Poller V,
  float_overflows (poll_ms p) = false ->
  loop p cycles = _run p cycles.
Proof.
  induction cycles as [|[fetch tm] cycles IH]; intros p Hfit; [reflexivity|].
  cbn [loop _run]. unfold turn, nap. rewrite Hfit.
  destruct (run_cycle p fetch tm) as [[p1 log]|e] eqn:Hc; [|reflexivity].
  rewrite (run_cycle_poll_ms _ _ _ _ _ Hc), Hfit.
  cbn [bind fst snd]. rewrite IH; [reflexivity|].
  now rewrite (run_cycle_poll_ms _ _ _ _ _ Hc).
Qed.

Lemma run_raises (cycles : list (result Response * Timing)) :
  forall (p : Poller V) e,
  _run p cycles = Raise e -> is_Exception e = false.
Proof.
  induction cycles as [|[fetch tm] cycles IH]; intros p e; [discriminate|].
  cbn [_run].
  destruct (classify (V := V) fetch) eqn:Ec.
  - destruct (unchanged_cycle p fetch tm Ec) as (p' & log & -> & _).
    cbn [bind fst snd].
    destruct (_run p' cycles) as [[p2 l]|e0] eqn:Er; [discriminate|].
    intros [= <-]. now apply (IH p').
  - destruct (updated_cycle p fetch tm Ec)
      as (r & s & p' & log & _ & _ & -> & _).
    cbn [bind fst snd].
    destruct (_run p' cycles) as [[p2 l]|e0] eqn:Er; [discriminate|].
    intros [= <-]. now apply (IH p').
  - destruct (failed_cycle p fetch tm Ec) as (p' & log & -> & _).
    cbn [bind fst snd].
    destruct (_run p' cycles) as [[p2 l]|e0] eqn:Er; [discriminate|].
    intros [= <-]. now apply (IH p').
  - destruct (aborted_cycle p fetch tm Ec) as (e0 & -> & He).
    cbn [bind]. now intros [= <-].
Qed.

(** X13. What ends the polling loop, sleeps included.  While the period
    can be turned into a float (below about 1.8e308 ms), no failure ends
    the loop: a run whose cycles are not cancelled completes, with one log
    record per cycle, whatever the upstream answers, and only an
    exception that is no [Exception] (a cancellation) leaves it.  With a
    larger period, which nothing in the reading of [POLL_MS] excludes,
    the sleep of the first cycle raises [OverflowError] outside the
    [try] block, and the loop ends there whatever was fetched. *)
Theorem run_survives_failures (cycles : list (result Response * Timing))
    (p : Poller V) :
  (float_overflows (poll_ms p) = false ->
   (uncancelled cycles ->
    exists p' logs,
      loop p cycles = Ok (p', logs) /\
      List.length logs = List.length cycles) /\
   (forall e, loop p cycles = Raise e -> is_Exception e = false)) /\
  (float_overflows (poll_ms p) = true ->
   cycles <> [] ->
   loop p cycles = Raise (OverflowError "int too large to convert to float")).
Proof.
  split.
  - intros Hfit. rewrite (loop_is_run cycles p Hfit). split.
    + apply uncancelled_run.
    + apply run_raises.
  - intros Hbig Hne. destruct cycles as [|[fetch tm] cycles]; [congruence|].
    cbn [loop]. unfold turn, nap. rewrite Hbig.
    destruct (run_cycle p fetch tm) as [[p1 log]|e] eqn:Hc; [|reflexivity].
    now rewrite (run_cycle_poll_ms _ _ _ _ _ Hc), Hbig.
Qed.



End Runs.

Definition mixed_cycles : list (result Response * Timing) :=
  [ (Raise (TransportError "connection refused"), sample_timing);
    (Ok (mkResponse 500 data_app.injected_failure_body []), sample_timing);
    (Ok ok_response, sample_timing);
    (Ok not_modified_response, sample_timing);
    (Ok (mkResponse 200 "no header row" sample_headers), sample_timing) ].


(** Five cycles of mixed fortunes give five log records at a period of
    1500 ms; at a period of [10^310] ms, which [POLL_MS] reads from the
    environment as it stands, the first sleep ends the loop. *)
Definition idle_poller : Poller Z :=
  poller.init "http://127.0.0.1:9001/counters"
    (config.POLL_MS (fun name => if String.eqb name "POLL_MS"
                                 then Some (str_int (10 ^ 310)) else None))
    store.empty.

Lemma run_survives_failures_witness :
  (uncancelled (V := Z) mixed_cycles /\
   exists p' logs,
     loop fresh_poller mixed_cycles = Ok (p', logs) /\
     List.length logs = List.length mixed_cycles) /\
  poll_ms idle_poller = 10 ^ 310 /\
  loop idle_poller mixed_cycles
  = Raise (OverflowError "int too large to convert to float").
Proof.
  assert (Hun : uncancelled (V := Z) mixed_cycles).
  { intros c [<-|[<-|[<-|[<-|[<-|[]]]]]]; vm_compute; discriminate. }
  split; [split; [exact Hun|]|split].
  - apply (proj1 (run_survives_failures mixed_cycles fresh_poller));
      [vm_compute; reflexivity|exact Hun].
  - vm_compute. reflexivity.
  - apply (proj2 (run_survives_failures mixed_cycles idle_poller));
      [vm_compute; reflexivity|discriminate].
Defined.



End run_facts.

(** ** A poller in front of the producer *)

Module wire.
Import simulator poller store http.

Section Polling.
Context {V : Type} {F : Float V}.

(** What [client.get(upstream_url, headers=headers)] gives when the
    producer holds [snapshot] and injects no failure: the request headers
    of the cycle reach [counters], which reads [If-None-Match]. *)
Definition fetch (snapshot : simulator.Snapshot V) (p : Poller V)
  : result Response :=
  data_app.conditional_read snapshot
    (get_opt (request_headers p) "If-None-Match").

(** One cycle of the poller against the producer. *)
Definition poll (snapshot : simulator.Snapshot V) (p : Poller V)
    (tm : Timing) : result (Poller V * PollLog) :=
  run_cycle p (fetch snapshot p) tm.

(** The token of a poller names the snapshot in its store. *)
Definition token_names_store (p : Poller V) : Prop :=
  match _etag p with
  | None => True
  | Some t =>
      exists snap,
        poller.store p = mkStore (Some snap) /\ snapshot_id (meta snap) = t
  end.

Lemma sent_token (p : Poller V) :
  get_opt (request_headers p) "If-None-Match"
  = match _etag p with
    | Some t => if String.eqb t EmptyString then None else Some t
    | None => None
    end.
Proof.
  unfold request_headers. destruct (_etag p) as [t|]; [|reflexivity].
  destruct (String.eqb t EmptyString); [reflexivity|].
  unfold get_opt, header_values. cbn. reflexivity.
Qed.

Lemma fetch_held_version sid ts flds rows (p : Poller V) :
  _etag p = Some (str_int sid) ->
  fetch (sid, ts, flds, rows) p
  = Ok (mkResponse 304 EmptyString
          [ ("ETag", str_int sid); ("X-Snapshot-Ts", str_int ts);
            ("Cache-Control", "no-store") ]).
Proof.
  intros He. unfold fetch. rewrite sent_token, He.
  destruct (String.eqb_spec (str_int sid) EmptyString) as [E|Hne];
    [now apply str_int_nonempty in E|].
  unfold data_app.conditional_read.
  rewrite String.eqb_refl.
  destruct (String.eqb_spec (str_int sid) EmptyString) as [E|_];
    [contradiction|reflexivity].
Qed.

Lemma fetch_other_version sid ts flds rows (p : Poller V) :
  rows_complete flds rows ->
  _etag p <> Some (str_int sid) ->
  fetch (sid, ts, flds, rows) p
  = Ok (mkResponse 200
          (write_table (("switch_id" :: flds) :: data_lines flds rows))
          [ ("ETag", str_int sid); ("X-Snapshot-Ts", str_int ts);
            ("Cache-Control", "no-store") ]).
Proof.
  intros Hc He. unfold fetch. rewrite sent_token.
  unfold data_app.conditional_read.
  rewrite (to_csv_complete sid ts flds rows Hc). cbn [Py.bind].
  destruct (_etag p) as [t|]; [|reflexivity].
  destruct (String.eqb_spec t EmptyString) as [->|Hne]; [reflexivity|].
  destruct (String.eqb_spec t (str_int sid)) as [->|_]; [congruence|].
  now rewrite andb_false_r.
Qed.

(** What the poller makes of the table of a producer's snapshot. *)
Definition received (sid ts : Z) (flds : list string) (rows : dict (dict V))
  : Snapshot V :=
  mkSnapshot (mkMeta (str_int sid) ts flds)
             (fold_left (add_row flds) (data_lines flds rows) []).

Lemma poll_other_version sid ts flds rows (p : Poller V) tm :
  rows_complete flds rows ->
  _etag p <> Some (str_int sid) ->
  exists p' log,
    poll (sid, ts, flds, rows) p tm = Ok (p', log) /\
    poller.store p' = mkStore (Some (received sid ts flds rows)) /\
    _etag p' = Some (str_int sid) /\
    fail_count p' = 0 /\
    log_status log = 200.
Proof.
  intros Hc He. unfold poll.
  rewrite (fetch_other_version sid ts flds rows p Hc He).
  set (hdrs := [ ("ETag", str_int sid); ("X-Snapshot-Ts", str_int ts);
                 ("Cache-Control", "no-store") ]).
  assert (Hts : int_of_str (get hdrs "X-Snapshot-Ts" "0") = Some ts).
  { change (get hdrs "X-Snapshot-Ts" "0") with (str_int ts).
    apply int_of_str_str_int. }
  pose proof (parse_csv_rows (V := V) _ hdrs flds (data_lines flds rows) ts
                (csv_round_trip.reader_writer _) Hts) as Hp.
  change (get hdrs "ETag" EmptyString) with (str_int sid) in Hp.
  destruct (String.eqb_spec (str_int sid) EmptyString) as [E|_];
    [now apply str_int_nonempty in E|].
  unfold run_cycle, try_block.
  cbn [status_code text headers]. change (200 =? 304) with false.
  change (200 =? 200) with true. cbv iota.
  rewrite Hp. eexists _, _. split; [reflexivity|].
  cbn [poller.store _etag fail_count log_status store.set
       upstream_url poll_ms last_cycle_ms].
  change (get_opt hdrs "ETag") with (Some (str_int sid)).
  repeat split.
Qed.

(** X16. A cycle against the producer leaves the poller holding the
    producer's version.  If the poller's token is the producer's version
    the answer is 304 and store, token and failure counter stay; with any
    other token (or none) the answer is 200, the parsed snapshot is
    installed with the producer's id, timestamp and fields, and the
    counter is reset.  Either way token and store agree afterwards. *)
Theorem poll_tracks_the_producer
    (sid ts : Z) (flds : list string) (rows : dict (dict V))
    (p : Poller V) (tm : Timing) :
  rows_complete flds rows ->
  token_names_store p ->
  exists p' log snap,
    poll (sid, ts, flds, rows) p tm = Ok (p', log) /\
    poller.store p' = mkStore (Some snap) /\
    snapshot_id (meta snap) = str_int sid /\
    _etag p' = Some (str_int sid) /\
    token_names_store p' /\
    (_etag p = Some (str_int sid) ->
       log_status log = 304 /\ poller.store p' = poller.store p /\
       fail_count p' = fail_count p) /\
    (_etag p <> Some (str_int sid) ->
       log_status log = 200 /\ ts_ms (meta snap) = ts /\
       fields (meta snap) = flds /\ fail_count p' = 0).
Proof.
  intros Hc Hinv. unfold poll.
  assert (Hd : {_etag p = Some (str_int sid)}
               + {_etag p <> Some (str_int sid)}).
  { destruct (_etag p) as [t|]; [|right; discriminate].
    destruct (string_dec t (str_int sid)) as [->|Hn];
      [now left|right; congruence]. }
  destruct Hd as [He|He].
  - rewrite (fetch_held_version sid ts flds rows p He).
    unfold token_names_store in Hinv. rewrite He in Hinv.
    destruct Hinv as (snap & Hs & Hid).
    eexists _, _, snap. split; [reflexivity|].
    cbn [poller.store _etag fail_count log_status].
    repeat split; try assumption; try congruence.
    unfold token_names_store. cbn [_etag poller.store].
    rewrite He. now exists snap.
  - destruct (poll_other_version sid ts flds rows p tm Hc He)
      as (p' & log & Hr & Hs & Het & Hfc & Hst).
    fold (poll (sid, ts, flds, rows) p tm). rewrite Hr.
    exists p', log, (received sid ts flds rows).
    split; [reflexivity|]. split; [exact Hs|]. split; [reflexivity|].
    split; [exact Het|]. split; [|split; [contradiction|]].
    + unfold token_names_store. rewrite Het, Hs. eexists.
      split; reflexivity.
    + intros _. repeat split; assumption.
Qed.

End Polling.

(** A fresh poller in front of version 7 of the sample table. *)
Lemma poll_tracks_the_producer_witness :
  rows_complete ["cpu_util_pct"] sample_rows /\
  token_names_store fresh_poller /\
  exists p' log snap,
    poll (7, 1700000000000, ["cpu_util_pct"], sample_rows) fresh_poller
         sample_timing = Ok (p', log) /\
    poller.store p' = mkStore (Some snap) /\
    snapshot_id (meta snap) = "7" /\
    _etag p' = Some "7" /\
    token_names_store p'.
Proof.
  split; [exact sample_rows_complete|]. split; [exact I|].
  destruct (poll_tracks_the_producer 7 1700000000000 ["cpu_util_pct"]
              sample_rows fresh_poller sample_timing
              sample_rows_complete I)
    as (p' & log & snap & Hr & Hs & Hid & He & Hinv & _).
  exists p', log, snap. repeat split; assumption.
Defined.

End wire.

(** ** The query handlers *)

Module query_facts.
Import poller store http metrics_app.

Section Queries.
Context {V : Type} {F : Float V}.

Lemma dict_mem_in {A} (d : dict A) k :
  dict_mem d k = true <-> In k (dict_keys d).
Proof.
  unfold dict_mem. rewrite dict_get_in.
  destruct (dict_get d k) as [v|]; split; eauto; try discriminate.
  intros [v [=]].
Qed.

Lemma list_mem_in l x : list_mem l x = true <-> In x l.
Proof.
  unfold list_mem. rewrite existsb_exists. split.
  - intros (y & Hy & E). apply String.eqb_eq in E. now subst.
  - intros Hx. exists x. split; [exact Hx|apply String.eqb_refl].
Qed.

Lemma get_metric_lookup (st : SnapshotStore V) (now : Z)
    (switch_id metric : string) (s : Snapshot V) (vals : dict V) :
  store.get st = Some s ->
  dict_get (data s) switch_id = Some vals ->
  In metric (fields (meta s)) ->
  get_metric st now switch_id metric
  = inr (mkMetricReply switch_id metric (dict_get vals metric)
           (snapshot_id (meta s)) (now - ts_ms (meta s))
           [ ("X-Data-Age-Ms", str_int (now - ts_ms (meta s)));
             ("ETag", snapshot_id (meta s)) ]).
Proof.
  intros Hst Hget Hm. unfold get_metric, _current_snapshot. rewrite Hst.
  assert (Hsw : dict_mem (data s) switch_id = true)
    by (unfold dict_mem; now rewrite Hget).
  apply list_mem_in in Hm. rewrite Hsw, Hm, Hget. reflexivity.
Qed.

Lemma set_all_get_wf {A} (l : list (string * A)) : forall d k v,
  NoDup (map fst l) ->
  dict_get l k = Some v ->
  dict_get (set_all l d) k = Some v.
Proof.
  induction l as [|[k0 v0] l IH]; intros d k v Hnd Hget; [discriminate|].
  cbn [map fst] in Hnd. inversion Hnd as [|? ? Hk0 Hnd']; subst.
  cbn [set_all fold_left fst snd]. fold (set_all l (dict_set d k0 v0)).
  cbn [dict_get] in Hget.
  destruct (String.eqb_spec k0 k) as [->|Hne].
  - injection Hget as <-.
    rewrite set_all_get_other by exact Hk0. apply dict_get_set_eq.
  - now apply IH.
Qed.

Lemma dict_get_map_snd {A B} (h : A -> B) (d : dict A) k :
  dict_get (map (fun kv => (fst kv, h (snd kv))) d) k
  = option_map h (dict_get d k).
Proof.
  induction d as [|[k0 v0] d IH]; [reflexivity|].
  cbn [map dict_get fst snd]. now destruct (String.eqb k0 k).
Qed.

Lemma item_as_set_all (sw : string) (vals : dict V) :
  item sw vals
  = set_all (map (fun kv => (fst kv, inr (snd kv))) vals)
            [("switch_id", inl sw)].
Proof.
  unfold item.
  apply (generated.fold_dict_set_as_set_all fst (fun kv => inr (snd kv))).
Qed.

Lemma item_metric (sw : string) (vals : dict V) k v :
  dict_wf vals ->
  dict_get vals k = Some v ->
  dict_get (item sw vals) k = Some (inr v).
Proof.
  intros Hwf Hget. rewrite item_as_set_all. apply set_all_get_wf.
  - rewrite map_map. exact Hwf.
  - rewrite dict_get_map_snd, Hget. reflexivity.
Qed.

Lemma item_other (sw : string) (vals : dict V) k :
  dict_get vals k = None ->
  dict_get (item sw vals) k
  = if String.eqb k "switch_id" then Some (inl sw) else None.
Proof.
  intros Hget. rewrite item_as_set_all, set_all_get_other.
  - cbn [dict_get]. now rewrite String.eqb_sym.
  - rewrite map_map. cbn [fst]. intros Hin.
    apply (dict_get_in vals k) in Hin as [v Hv]. congruence.
Qed.

Lemma dict_get_In {A} (d : dict A) k v : dict_get d k = Some v -> In (k, v) d.
Proof.
  induction d as [|[k0 v0] d IH]; [discriminate|]. cbn [dict_get].
  destruct (String.eqb_spec k0 k) as [->|_].
  - intros [= ->]. now left.
  - intros Hget. right. now apply IH.
Qed.

Lemma dict_wf_get {A} (d : dict A) k v :
  dict_wf d -> In (k, v) d -> dict_get d k = Some v.
Proof.
  unfold dict_wf. induction d as [|[k0 v0] d IH]; [intros _ []|].
  cbn [dict_keys map fst dict_get]. intros Hnd Hin.
  inversion Hnd as [|? ? Hk0 Hnd']; subst.
  destruct Hin as [[= -> ->]|Hin]; [now rewrite String.eqb_refl|].
  destruct (String.eqb_spec k0 k) as [->|_]; [|now apply IH].
  exfalso. apply Hk0. apply (in_map fst) in Hin. exact Hin.
Qed.

Lemma dict_set_In {A} (d : dict A) k v k' x :
  In (k', x) (dict_set d k v) -> (k' = k /\ x = v) \/ In (k', x) d.
Proof.
  induction d as [|[k0 v0] d IH]; cbn [dict_set].
  - intros [[= <- <-]|[]]. now left.
  - destruct (String.eqb_spec k0 k) as [->|_].
    + intros [[= <- <-]|Hin]; [now left|right; now right].
    + intros [E|Hin]; [right; now left|].
      destruct (IH Hin) as [Hnew|Hold]; [now left|right; now right].
Qed.

Lemma set_all_In {A} (l : list (string * A)) : forall d k x,
  In (k, x) (set_all l d) -> In (k, x) l \/ In (k, x) d.
Proof.
  induction l as [|[k0 v0] l IH]; intros d k x Hin; [now right|].
  cbn [set_all fold_left fst snd] in Hin.
  fold (set_all l (dict_set d k0 v0)) in Hin.
  apply IH in Hin as [Hin|Hin]; [left; now right|].
  apply dict_set_In in Hin as [[-> ->]|Hin]; [left; now left|now right].
Qed.

Section Rendered.
Context {J : JsonFloat V}.

Lemma item_renders (sw : string) (vals : dict V) :
  (forall k v, In (k, v) vals -> isfinite v = true) ->
  renders (item sw vals) = true.
Proof.
  intros Hfin. unfold renders. apply forallb_forall. intros [k x] Hin.
  rewrite item_as_set_all in Hin.
  apply set_all_In in Hin as [Hin|[[= _ <-]|[]]]; [|reflexivity].
  apply in_map_iff in Hin as ([k0 v0] & [= _ <-] & Hin0).
  cbn [snd]. eapply Hfin, Hin0.
Qed.

Lemma item_does_not_render (sw : string) (vals : dict V) k v :
  dict_wf vals -> In (k, v) vals -> isfinite v = false ->
  renders (item sw vals) = false.
Proof.
  intros Hwf Hin Hv.
  pose proof (item_metric sw vals k v Hwf (dict_wf_get _ _ _ Hwf Hin)) as Hget.
  apply dict_get_In in Hget.
  destruct (renders (item sw vals)) eqn:E; [|reflexivity].
  unfold renders in E. rewrite forallb_forall in E.
  specialize (E _ Hget). cbn [snd] in E. congruence.
Qed.

(** X18. What [ListMetrics] answers from a store with a snapshot.  If
    every stored value is a finite number, the answer has one item per
    switch, in the order of the store: an item gives every metric of its
    row its value; its [switch_id] is the id of the row, unless the row
    has a metric of that name, whose number then takes the place of the
    id; and it has no other key.  If some stored value is [nan] or an
    infinity, which [float] reads from a cell as readily as any number,
    the rendering raises [ValueError] and there is no answer at all. *)
Theorem list_metrics_items (st : SnapshotStore V) (now : Z)
    (s : Snapshot V) :
  store.get st = Some s ->
  (forall sw vals, In (sw, vals) (data s) -> dict_wf vals) ->
  ((forall sw vals k v,
      In (sw, vals) (data s) -> In (k, v) vals -> isfinite v = true) ->
   exists reply,
     ListMetrics st now = Ok (inr reply) /\
     l_snapshot_id reply = snapshot_id (meta s) /\
     l_age_ms reply = now - ts_ms (meta s) /\
     l_fields reply = fields (meta s) /\
     List.length (l_items reply) = List.length (data s) /\
     forall i sw vals,
       nth_error (data s) i = Some (sw, vals) ->
       exists obj,
         nth_error (l_items reply) i = Some obj /\
         (forall k v, dict_get vals k = Some v ->
                      dict_get obj k = Some (inr v)) /\
         (dict_get vals "switch_id" = None ->
          dict_get obj "switch_id" = Some (inl sw)) /\
         (forall k, k <> "switch_id" -> dict_get vals k = None ->
                    dict_get obj k = None)) /\
  (forall sw vals k v,
     In (sw, vals) (data s) -> In (k, v) vals -> isfinite v = false ->
     ListMetrics st now = Raise json_error).
Proof.
  intros Hst Hwf. unfold ListMetrics, list_metrics, _current_snapshot.
  rewrite Hst. unfold render_list. cbn [l_items]. split.
  - intros Hfin.
    assert (Hall : forallb renders
                     (map (fun kv => item (fst kv) (snd kv)) (data s)) = true).
    { apply forallb_forall. intros obj Hobj.
      apply in_map_iff in Hobj as ([sw vals] & <- & Hin). cbn [fst snd].
      apply item_renders. intros k v. now apply (Hfin sw vals). }
    rewrite Hall. cbn [bind]. eexists. split; [reflexivity|].
    cbn [l_snapshot_id l_age_ms l_fields l_items].
    repeat (split; [reflexivity|]). split; [apply length_map|].
    intros i sw vals Hi. exists (item sw vals). split.
    + rewrite nth_error_map, Hi. reflexivity.
    + split; [|split].
      * intros k v Hget. apply item_metric; [|exact Hget].
        apply (Hwf sw). eapply nth_error_In, Hi.
      * intros Hget. now rewrite item_other.
      * intros k Hne Hget. rewrite item_other by exact Hget.
        now destruct (String.eqb_spec k "switch_id").
  - intros sw vals k v Hin Hkv Hv.
    assert (Hall : forallb renders
                     (map (fun kv => item (fst kv) (snd kv)) (data s))
                   = false).
    { destruct (forallb renders _) eqn:E; [|reflexivity].
      rewrite forallb_forall in E.
      specialize (E (item sw vals)
                    (in_map (fun kv => item (fst kv) (snd kv)) _ _ Hin)).
      now rewrite (item_does_not_render sw vals k v (Hwf sw vals Hin) Hkv Hv)
        in E. }
    now rewrite Hall.
Qed.

(** X17. [GetMetric] on a store the poller filled.  For a snapshot that
    [_parse_csv] returned, a query for a switch of the payload and a
    field of its header row is never refused (no 503, no 404) and never
    answered with [null]: the row has a value for the field, and the
    answer is that value, with the id of the snapshot (in the body and as
    [ETag]) and the age [now - ts_ms] (in the body and as
    [X-Data-Age-Ms]), unless the value is [nan] or an infinity, in which
    case the rendering raises [ValueError] and there is no answer. *)
Theorem get_metric_on_parsed_store
    (csv_text : string) (hdrs : Headers) (snap : Snapshot V)
    (st : SnapshotStore V) (now : Z) (id k : string) :
  _parse_csv csv_text hdrs = Ok snap ->
  In id (dict_keys (data snap)) ->
  In k (fields (meta snap)) ->
  exists vals v,
    dict_get (data snap) id = Some vals /\
    dict_get vals k = Some v /\
    (isfinite v = true ->
     GetMetric (store.set st snap) now id k
     = Ok (inr (mkMetricReply id k (Some v) (snapshot_id (meta snap))
                  (now - ts_ms (meta snap))
                  [ ("X-Data-Age-Ms", str_int (now - ts_ms (meta snap)));
                    ("ETag", snapshot_id (meta snap)) ]))) /\
    (isfinite v = false ->
     GetMetric (store.set st snap) now id k = Raise json_error).
Proof.
  intros Hp Hid Hk.
  apply (dict_get_in (data snap) id) in Hid as [vals Hvals].
  destruct (parsed_row_has_metric _ _ _ _ _ _ Hp Hvals Hk) as [v Hv].
  exists vals, v. split; [exact Hvals|]. split; [exact Hv|].
  unfold GetMetric.
  rewrite (get_metric_lookup (store.set st snap) now id k snap vals
             eq_refl Hvals Hk).
  unfold render_metric. cbn [r_value]. rewrite Hv.
  split; intros ->; reflexivity.
Qed.

End Rendered.


End Queries.

(** The store of a poller that fetched version 7 of the sample table. *)
Definition sample_store : SnapshotStore Z :=
  mkStore (Some (wire.received 7 1700000000000 ["cpu_util_pct"] sample_rows)).

Lemma sample_store_rows :
  forall sw vals,
    In (sw, vals)
       (data (wire.received 7 1700000000000 ["cpu_util_pct"] sample_rows)) ->
    dict_wf vals.
Proof.
  intros sw vals Hin. vm_compute in Hin.
  destruct Hin as [E|[E|[]]]; inversion E; subst;
    (constructor; [intros []|constructor]).
Defined.

(** Whole numbers are finite. *)
#[local] Instance whole_cells_json : JsonFloat Z := { isfinite _ := true }.

(** Cells that hold a whole number or [nan], which [float] reads from the
    text [nan] in any case of the letters. *)
Inductive cell : Type :=
  | Num (z : Z)
  | NaN.

#[local] Instance nan_cells : Float cell := {
  float_zero := Num 0;
  float_str c := match c with Num z => str_int z | NaN => "nan" end;
  float_of_str t :=
    if String.eqb (lower (strip t)) "nan" then Some NaN
    else option_map Num (int_of_str t)
}.

#[local] Instance nan_cells_json : JsonFloat cell := {
  isfinite c := match c with Num _ => true | NaN => false end
}.

(** A payload in which the producer's table has [nan] for one value. *)
Definition nan_rows : list (list string) :=
  [ ["switch_id"; "cpu_util_pct"]; ["sw-000"; "35"]; ["sw-001"; "NaN"] ].

Definition nan_snapshot : Snapshot cell :=
  mkSnapshot (mkMeta "7" 1700000000000 ["cpu_util_pct"])
             [ ("sw-000", [("cpu_util_pct", Num 35)]);
               ("sw-001", [("cpu_util_pct", NaN)]) ].

(** The two items of the sample store; and a store whose snapshot was
    parsed from a payload with a [NaN] cell, which answers nothing. *)
Lemma list_metrics_items_witness :
  (exists reply,
     ListMetrics sample_store 1700000000250 = Ok (inr reply) /\
     l_snapshot_id reply = "7" /\
     l_age_ms reply = 250 /\
     l_fields reply = ["cpu_util_pct"] /\
     List.length (l_items reply) = 2%nat /\
     exists obj,
       nth_error (l_items reply) 1 = Some obj /\
       dict_get obj "cpu_util_pct" = Some (inr 41) /\
       dict_get obj "switch_id" = Some (inl "sw-001")) /\
  poller._parse_csv (write_table nan_rows) sample_headers = Ok nan_snapshot /\
  ListMetrics (mkStore (Some nan_snapshot)) 1700000000250 = Raise json_error.
Proof.
  split; [|split].
  - destruct (proj1 (list_metrics_items sample_store 1700000000250 _ eq_refl
                       sample_store_rows))
      as (reply & Hr & Hid & Hage & Hf & Hlen & Hitems); [reflexivity|].
    exists reply. repeat (split; [assumption|]).
    destruct (Hitems 1%nat "sw-001" [("cpu_util_pct", 41)] eq_refl)
      as (obj & Hobj & Hvals & Hsw & _).
    exists obj. split; [exact Hobj|]. split.
    + apply Hvals. reflexivity.
    + apply Hsw. reflexivity.
  - vm_compute. reflexivity.
  - apply (proj2 (list_metrics_items (mkStore (Some nan_snapshot))
                    1700000000250 nan_snapshot eq_refl
                    ltac:(intros sw vals [E|[E|[]]]; inversion E; subst;
                          (constructor; [intros []|constructor])))
             "sw-001" [("cpu_util_pct", NaN)] "cpu_util_pct" NaN).
    + right. left. reflexivity.
    + left. reflexivity.
    + reflexivity.
Defined.

(** The payload with the [NaN] cell: the query for [sw-000] is answered
    with 35, the query for [sw-001] raises. *)
Lemma get_metric_on_parsed_store_witness :
  GetMetric (store.set store.empty nan_snapshot) 1700000000250
            "sw-000" "cpu_util_pct"
  = Ok (inr (mkMetricReply "sw-000" "cpu_util_pct" (Some (Num 35)) "7" 250
               [ ("X-Data-Age-Ms", "250"); ("ETag", "7") ])) /\
  GetMetric (store.set store.empty nan_snapshot) 1700000000250
            "sw-001" "cpu_util_pct"
  = Raise json_error.
Proof.
  assert (Hp : poller._parse_csv (write_table nan_rows) sample_headers
               = Ok nan_snapshot) by (vm_compute; reflexivity).
  split.
  - destruct (get_metric_on_parsed_store (write_table nan_rows)
                sample_headers nan_snapshot store.empty 1700000000250
                "sw-000" "cpu_util_pct" Hp)
      as (vals & v & Hvals & Hv & Hfin & _).
    + left. reflexivity.
    + left. reflexivity.
    + injection Hvals as <-. injection Hv as <-. apply Hfin. reflexivity.
  - destruct (get_metric_on_parsed_store (write_table nan_rows)
                sample_headers nan_snapshot store.empty 1700000000250
                "sw-001" "cpu_util_pct" Hp)
      as (vals & v & Hvals & Hv & _ & Hnan).
    + right. left. reflexivity.
    + left. reflexivity.
    + injection Hvals as <-. injection Hv as <-. apply Hnan. reflexivity.
Defined.


End query_facts.

(** ** Settings *)

Module config_facts.
Import config.

(** The value [int_env] starts from: the variable as an integer, or the
    default. *)
Definition raw_value (env : Env) (name : string) (default : Z) : Z :=
  match env name with
  | Some raw =>
      match int_text raw with
      | Some v => v
      | None => default
      end
  | None => default
  end.

Lemma int_env_clamps env name default (lo hi : option Z) :
  int_env env name default lo hi
  = let v := raw_value env name default in
    let v := match lo with
             | Some m => Z.max m v
             | None => v
             end in
    match hi with
    | Some m => Z.min m v
    | None => v
    end.
Proof.
  unfold int_env. fold (raw_value env name default).
  set (v := raw_value env name default). cbv zeta.
  destruct lo as [lo|], hi as [hi|].
  - destruct (Z.ltb_spec v lo);
      match goal with
      | |- context [?a <? ?b] => destruct (Z.ltb_spec a b)
      end; lia.
  - destruct (Z.ltb_spec v lo); lia.
  - destruct (Z.ltb_spec hi v); lia.
  - reflexivity.
Qed.

Lemma int_env_lower env name default lo :
  lo <= int_env env name default (Some lo) None.
Proof. rewrite int_env_clamps. cbv zeta. lia. Qed.

Lemma int_env_between env name default lo hi :
  lo <= hi ->
  lo <= int_env env name default (Some lo) (Some hi) <= hi.
Proof. intros Hle. rewrite int_env_clamps. cbv zeta. lia. Qed.

(** X20. Whatever the environment holds (nothing, text that is no
    number, numbers out of range), the data server starts with at least
    one switch, an interval of at least one second, a failure percentage
    between 0 and 100, a delay that is not negative and a port between 1
    and 65535. *)
Theorem settings_are_in_range (env : Env) :
  1 <= DATA_SWITCHES env /\
  1 <= DATA_INTERVAL_SEC env /\
  0 <= FAULT_500_PCT env <= 100 /\
  0 <= FAULT_SLOW_MS env /\
  1 <= PORT env <= 65535.
Proof.
  unfold DATA_SWITCHES, DATA_INTERVAL_SEC, FAULT_500_PCT, FAULT_SLOW_MS, PORT.
  repeat split;
    first [ apply int_env_lower
          | apply int_env_between; lia
          | apply (proj1 (int_env_between _ _ _ _ _ ltac:(lia)))
          | apply (proj2 (int_env_between _ _ _ _ _ ltac:(lia))) ].
Qed.

Lemma int_text_str_int v :
  (count_digits (str_int v) <= int_max_str_digits)%nat ->
  int_text (str_int v) = Some v.
Proof.
  intros Hlen. unfold int_text.
  destruct (Nat.ltb_spec int_max_str_digits (count_digits (str_int v)));
    [lia|].
  apply int_of_str_str_int.
Qed.

(** Text of ASCII characters only. *)
Definition is_ascii (s : string) : bool :=
  forallb (fun c => (nat_of_ascii c <? 128)%nat) (list_ascii_of_string s).

(** X21. How a setting is read, for bounds [lo <= hi].  The decimal text
    of an integer of at most 4300 digits gives that integer when it lies
    within the bounds, the lower bound when it is below, the upper bound
    when it is above.  The default is what comes out, if it lies within
    the bounds, when the variable is unset, when its text has more than
    4300 digits (so a number too long to be read is not lowered to the
    upper bound), and when it is ASCII text that [int] refuses.  The
    metrics server applies no bounds: its [POLL_MS] is whatever integer
    of at most 4300 digits the variable holds, zero and negative numbers
    included. *)
Theorem int_env_reads_setting (env : Env) (name : string)
    (default lo hi : Z) :
  lo <= hi ->
  (forall v, env name = Some (str_int v) ->
     (count_digits (str_int v) <= 4300)%nat ->
     int_env env name default (Some lo) (Some hi)
     = if v <? lo then lo else if hi <? v then hi else v) /\
  (lo <= default <= hi ->
   (env name = None \/
    (exists raw, env name = Some raw /\ (4300 < count_digits raw)%nat) \/
    (exists raw, env name = Some raw /\ is_ascii raw = true /\
                 int_text raw = None)) ->
   int_env env name default (Some lo) (Some hi) = default) /\
  (forall v, env "POLL_MS" = Some (str_int v) ->
     (count_digits (str_int v) <= 4300)%nat ->
     POLL_MS env = v).
Proof.
  intros Hle. split; [|split].
  - intros v Hv Hlen. rewrite int_env_clamps. cbv zeta.
    unfold raw_value. rewrite Hv, int_text_str_int by exact Hlen.
    destruct (Z.ltb_spec v lo); [lia|].
    destruct (Z.ltb_spec hi v); lia.
  - intros Hd Hunset. rewrite int_env_clamps. cbv zeta.
    assert (Hraw : raw_value env name default = default).
    { unfold raw_value.
      destruct Hunset as [->|[(raw & -> & Hlong)|(raw & -> & _ & ->)]];
        [reflexivity| |reflexivity].
      unfold int_text, int_max_str_digits.
      destruct (Nat.ltb_spec 4300 (count_digits raw)); [reflexivity|lia]. }
    rewrite Hraw. lia.
  - intros v Hv Hlen. unfold POLL_MS, metrics_int_env.
    now rewrite Hv, int_text_str_int.
Qed.

(** An environment that sets the failure percentage to 250, the poll
    period to -5, the port to a word and the number of switches to a
    number of 4301 digits. *)
Definition odd_env : Env :=
  fun name =>
    if String.eqb name "FAULT_500_PCT" then Some "250"
    else if String.eqb name "POLL_MS" then Some "-5"
    else if String.eqb name "PORT" then Some "http"
    else if String.eqb name "DATA_SWITCHES" then Some (str_int (10 ^ 4300))
    else None.

Lemma int_env_reads_setting_witness :
  FAULT_500_PCT odd_env = 100 /\
  PORT odd_env = 9001 /\
  int_env odd_env "DATA_SWITCHES" 64 (Some 1) (Some 1000) = 64 /\
  POLL_MS odd_env = -5.
Proof.
  split; [|split; [|split]].
  - apply (proj1 (int_env_reads_setting odd_env "FAULT_500_PCT" 0 0 100
                    ltac:(lia)) 250).
    + reflexivity.
    + vm_compute. lia.
  - apply (proj1 (proj2 (int_env_reads_setting odd_env "PORT" 9001 1 65535
                           ltac:(lia)))).
    + lia.
    + right. right. exists "http". repeat split.
  - apply (proj1 (proj2 (int_env_reads_setting odd_env "DATA_SWITCHES" 64
                           1 1000 ltac:(lia)))).
    + lia.
    + right. left. exists (str_int (10 ^ 4300)).
      split; [reflexivity|].
      apply Nat.ltb_lt. vm_compute. reflexivity.
  - apply (proj2 (proj2 (int_env_reads_setting odd_env "POLL_MS" 1500 0 1
                           ltac:(lia))) (-5)).
    + reflexivity.
    + vm_compute. lia.
Defined.

Section DefaultFaults.
Context {V : Type} {F : Float V} {G : Type} {R : Random G}.

(** X22. Out of the box the producer injects nothing: when
    [FAULT_500_PCT] is unset, is no integer, or is zero or negative,
    [counters] answers every request with the conditional read (and
    consumes no random number for the failure draw). *)
Theorem default_settings_inject_nothing
    (env : Env) (snapshot : simulator.Snapshot V) (inm : option string)
    (g : G) :
  raw_value env "FAULT_500_PCT" 0 <= 0 ->
  fst (data_app.counters (faults env) snapshot inm g)
  = data_app.conditional_read snapshot inm /\
  (raw_value env "FAULT_SLOW_MS" 0 <= 0 ->
   snd (data_app.counters (faults env) snapshot inm g) = g).
Proof.
  intros Hoff.
  assert (Hpct : FAULT_500_PCT env = 0).
  { unfold FAULT_500_PCT. rewrite int_env_clamps. cbv zeta. lia. }
  unfold data_app.counters, faults.
  cbn [data_app.FAULT_500_PCT data_app.FAULT_SLOW_MS]. rewrite Hpct.
  change (0 <? 0) with false. cbv iota. split; [reflexivity|].
  intros Hslow.
  assert (Hms : FAULT_SLOW_MS env = 0).
  { unfold FAULT_SLOW_MS. rewrite int_env_clamps. cbv zeta. lia. }
  rewrite Hms. reflexivity.
Qed.

End DefaultFaults.

(** The empty environment, version 7, a client that holds version 7. *)
Lemma default_settings_inject_nothing_witness :
  fst (data_app.counters (faults (fun _ => None))
         (7, 1700000000000, ["cpu_util_pct"], sample_rows) (Some "7")
         quiet_tape)
  = Ok (http.mkResponse 304 EmptyString
          [ ("ETag", "7"); ("X-Snapshot-Ts", "1700000000000");
            ("Cache-Control", "no-store") ]).
Proof.
  apply (default_settings_inject_nothing (V := Z) (fun _ => None)
           (7, 1700000000000, ["cpu_util_pct"], sample_rows) (Some "7")
           quiet_tape).
  vm_compute. discriminate.
Defined.

End config_facts.

(** ** The small Poisson counts *)

Module poisson_facts.
Import simulator simulator_facts generator_facts.

#[local] Open Scope Q_scope.

Section WithRandom.
Context {G : Type} {R : Random G} {ML : MathLib}.

(** The first [n] numbers [random()] gives from the state [g], and the
    state after them. *)
Fixpoint draws (n : nat) (g : G) : list Q :=
  match n with
  | O => []
  | S n' => fst (random g) :: draws n' (snd (random g))
  end.

Fixpoint after (n : nat) (g : G) : G :=
  match n with
  | O => g
  | S n' => after n' (snd (random g))
  end.

(** [p] multiplied by the numbers of [l], one after the other. *)
Definition product (l : list Q) (p : Q) : Q := fold_left Qmult l p.

Lemma poisson_loop_stops fuel L : forall k p g z g',
  poisson_loop fuel L k p g = Some (z, g') ->
  exists n : nat,
    (n <= fuel)%nat /\
    g' = after n g /\
    z = Z.max 0 (k + Z.of_nat n - 1) /\
    product (draws n g) p <= L /\
    (forall j, (j < n)%nat -> L < product (draws j g) p).
Proof.
  induction fuel as [|fuel IH]; intros k p g z g' Hrun;
    cbn [poisson_loop] in Hrun.
  - destruct (Qltb L p) eqn:E; [discriminate|].
    injection Hrun as <- <-. apply Qltb_false in E.
    exists 0%nat. cbn [draws after product fold_left].
    repeat split; [lia|f_equal; lia|exact E|intros j Hj; lia].
  - destruct (Qltb L p) eqn:E.
    + apply Qltb_true in E.
      unfold mbind, lift in Hrun.
      destruct (random g) as [u g1] eqn:Hu.
      apply IH in Hrun as (n & Hn & -> & -> & Hstop & Hgo).
      exists (S n). cbn [draws after product fold_left].
      rewrite Hu. cbn [fst snd]. repeat split.
      * lia.
      * f_equal. lia.
      * exact Hstop.
      * intros [|j] Hj; [exact E|].
        cbn [draws fold_left]. rewrite Hu. cbn [fst snd].
        apply Hgo. lia.
    + injection Hrun as <- <-. apply Qltb_false in E.
      exists 0%nat. cbn [draws after product fold_left].
      repeat split; [lia|f_equal; lia|exact E|intros j Hj; lia].
Qed.

(** X23. [_poisson_small] counts the draws before the running product
    falls to [exp(-lam)].  A result [z] means: the product of the first
    [z + 1] random numbers is at most [exp(-lam)], that of any fewer is
    above it, and exactly [z + 1] numbers were consumed.  (For
    [exp(-lam) >= 1] nothing is drawn and the result is 0: the one case
    in which [max(0, k - 1)] is not [k - 1].) *)
Theorem poisson_small_is_the_first_crossing
    (fuel : nat) (lam : Q) (g : G) (z : Z) (g' : G) :
  _poisson_small fuel lam g = Some (z, g') ->
  (0 <= z)%Z /\
  (math_exp (- lam) < 1 ->
     g' = after (S (Z.to_nat z)) g /\
     product (draws (S (Z.to_nat z)) g) 1 <= math_exp (- lam) /\
     forall j, (j <= Z.to_nat z)%nat ->
               math_exp (- lam) < product (draws j g) 1) /\
  (1 <= math_exp (- lam) -> z = 0%Z /\ g' = g).
Proof.
  unfold _poisson_small. intros Hrun.
  apply poisson_loop_stops in Hrun as (n & _ & -> & -> & Hstop & Hgo).
  split; [lia|]. split.
  - intros HL. destruct n as [|n].
    + cbn [draws product fold_left] in Hstop. lra.
    + replace (Z.to_nat (Z.max 0 (0 + Z.of_nat (S n) - 1))) with n by lia.
      split; [reflexivity|]. split; [exact Hstop|].
      intros j Hj. apply Hgo. lia.
  - intros HL. destruct n as [|n]; [split; reflexivity|].
    specialize (Hgo 0%nat ltac:(lia)).
    cbn [draws product fold_left] in Hgo. lra.
Qed.

End WithRandom.

(** Draws 9/10, 7/10 and 1/2 with [lam = 0.6]: the products 1, 0.9 and
    0.63 are above [exp(-0.6)], 0.315 is not, and the count is 2. *)
Lemma poisson_small_is_the_first_crossing_witness :
  _poisson_small 5 (6 # 10) [9 # 10; 7 # 10; 1 # 2; 1 # 3]
  = Some (2%Z, [1 # 3]) /\
  product (draws 3 [9 # 10; 7 # 10; 1 # 2; 1 # 3]) 1
  <= math_exp (- (6 # 10)) /\
  math_exp (- (6 # 10)) < product (draws 2 [9 # 10; 7 # 10; 1 # 2; 1 # 3]) 1.
Proof.
  assert (Hrun : _poisson_small 5 (6 # 10) [9 # 10; 7 # 10; 1 # 2; 1 # 3]
                 = Some (2%Z, [1 # 3]))
    by (vm_compute; reflexivity).
  split; [exact Hrun|].
  destruct (poisson_small_is_the_first_crossing _ _ _ _ _ Hrun)
    as (_ & Hcross & _).
  destruct Hcross as (_ & Hstop & Hgo); [vm_compute; reflexivity|].
  split; [exact Hstop|]. apply (Hgo 2%nat). cbn. lia.
Defined.

End poisson_facts.

